(** * OCR weight extraction: a shallow embedding of [ocr_service.py],
      [image_processing.py] and the request checks of [routes/ocr.py]

    The development follows the Python modules function by function.
    Python values are modelled as follows.

    - [str]: Rocq [string]; a character is a code point in U+0000..U+00FF.
    - [float]: IEEE binary64 with round-to-nearest-even, see [PyFloat].
    - [Optional[T]]: [option T].
    - exceptions: [result], carrying the text of [str(e)].
    - library calls (requests, PIL, numpy, OpenCV, pytesseract, Google
      Vision, SQLAlchemy, the clock): fields of an environment record,
      each returning a [result] where the call can raise. *)

From Stdlib Require Import ZArith QArith Qabs Lia Lqa List String Ascii Bool.
From Stdlib Require Import DecimalString DecimalZ.
Import ListNotations.

Local Open Scope Z_scope.

(** ** Exceptions *)

(** The outcome of a call that can raise; [Raise] carries [str(e)]. *)
Inductive result (A : Type) : Type :=
| Ok (a : A)
| Raise (e : string).
Arguments Ok {A} a.
Arguments Raise {A} e.

Definition rbind {A B} (r : result A) (k : A -> result B) : result B :=
  match r with
  | Ok a => k a
  | Raise e => Raise e
  end.

(** [try: body  except Exception as e: handler(e)] *)
Definition try_except {A} (body : result A) (handler : string -> result A)
  : result A :=
  match body with
  | Ok a => Ok a
  | Raise e => handler e
  end.

Declare Scope result_scope.
Delimit Scope result_scope with result.
Notation "x <- c ;; k" := (rbind c (fun x => k))
  (at level 61, c at next level, right associativity) : result_scope.

(** ** Python floats *)

Module PyFloat.

(** A binary64 value: a finite rational (always kept in lowest terms by
    the operations below), an infinity, or NaN.  The sign of zero is not
    tracked; no operation of the program observes it. *)
Inductive pyfloat : Type :=
| Fin (q : Q)
| PInf
| NInf
| NaN.

(** [n/d >= 2^e], for [d > 0], in integer arithmetic. *)
Definition ge_pow2 (n d e : Z) : bool :=
  if 0 <=? e then d * 2 ^ e <=? n else d <=? n * 2 ^ (- e).

(** Floor of the binary logarithm of [n/d], for [n, d > 0]. *)
Definition floor_log2 (n d : Z) : Z :=
  let e := Z.log2 n - Z.log2 d in
  if ge_pow2 n d e then e else e - 1.

(** The integer nearest to [n/d] ([d > 0]), ties to the even one. *)
Definition round_half_even (n d : Z) : Z :=
  let q := n / d in
  let r := n mod d in
  if 2 * r <? d then q
  else if d <? 2 * r then q + 1
  else if Z.even q then q else q + 1.

(** The rational [m * 2^ex], in lowest terms. *)
Definition dyadic (m ex : Z) : Q :=
  if 0 <=? ex then inject_Z (m * 2 ^ ex)
  else Qred (Qmake m (Z.to_pos (2 ^ (- ex)))).

(** Correct rounding of the positive rational [n/d] to binary64:
    53 significant bits for normal numbers, multiples of [2^-1074] below
    [2^-1022], overflow to infinity from [2^1024] on. *)
Definition rnd_pos (n d : Z) : pyfloat :=
  let e := floor_log2 n d in
  let ex := Z.max (e - 52) (- 1074) in
  let m := if 0 <=? ex then round_half_even n (d * 2 ^ ex)
           else round_half_even (n * 2 ^ (- ex)) d in
  if (0 <=? ex) && (2 ^ 1024 <=? m * 2 ^ ex) then PInf
  else Fin (dyadic m ex).

Definition fneg (x : pyfloat) : pyfloat :=
  match x with
  | Fin q => Fin (Qred (- q))
  | PInf => NInf
  | NInf => PInf
  | NaN => NaN
  end.

(** Round-to-nearest-even of an exact rational result. *)
Definition rnd64 (q : Q) : pyfloat :=
  match Qnum q with
  | Z0 => Fin 0
  | Zpos n => rnd_pos (Zpos n) (Zpos (Qden q))
  | Zneg n => fneg (rnd_pos (Zpos n) (Zpos (Qden q)))
  end.

(** A decimal literal of the source, such as [0.1] or [50.0]. *)
Definition lit (n : Z) (d : positive) : pyfloat := rnd64 (Qmake n d).

(** Comparisons; every comparison with NaN is false. *)
Definition fle (x y : pyfloat) : bool :=
  match x, y with
  | NaN, _ | _, NaN => false
  | NInf, _ => true
  | _, PInf => true
  | Fin a, Fin b => Qle_bool a b
  | _, _ => false
  end.

Definition flt (x y : pyfloat) : bool :=
  match x, y with
  | NaN, _ | _, NaN => false
  | PInf, _ => false
  | _, NInf => false
  | Fin a, Fin b => negb (Qle_bool b a)
  | _, _ => true
  end.

Definition fge (x y : pyfloat) : bool := fle y x.
Definition fgt (x y : pyfloat) : bool := flt y x.

(** [x != 0] *)
Definition fne0 (x : pyfloat) : bool :=
  match x with
  | Fin q => negb (Qnum q =? 0)
  | _ => true
  end.

(** [x / k] for a positive integer constant [k] of the source (exactly
    representable, so the only rounding is that of the quotient). *)
Definition fdiv_pos (x : pyfloat) (k : positive) : pyfloat :=
  match x with
  | Fin q => rnd64 (q / inject_Z (Zpos k))
  | other => other
  end.

(** [x * k] for a positive integer constant [k]. *)
Definition fmul_pos (x : pyfloat) (k : positive) : pyfloat :=
  match x with
  | Fin q => rnd64 (q * inject_Z (Zpos k))
  | other => other
  end.

(** [x - y] *)
Definition fsub (x y : pyfloat) : pyfloat :=
  match x, y with
  | NaN, _ | _, NaN => NaN
  | Fin a, Fin b => rnd64 (a - b)
  | PInf, PInf | NInf, NInf => NaN
  | PInf, _ => PInf
  | NInf, _ => NInf
  | Fin _, PInf => NInf
  | Fin _, NInf => PInf
  end.

(** [round(x, 2)]: the decimal with two fractional digits nearest to the
    exact value of [x] (ties to even), converted back to binary64. *)
Definition round2 (x : pyfloat) : pyfloat :=
  match x with
  | Fin q => rnd64 (Qmake (round_half_even (Qnum q * 100) (Zpos (Qden q))) 100)
  | other => other
  end.

(** [int(x)]: truncation towards zero. *)
Definition py_int (x : pyfloat) : result Z :=
  match x with
  | Fin q => Ok (Z.quot (Qnum q) (Zpos (Qden q)))
  | PInf | NInf => Raise "cannot convert float infinity to integer"
  | NaN => Raise "cannot convert float NaN to integer"
  end.

(** [a / b] on [int]s, [b > 0]: the correctly rounded quotient, or
    [OverflowError]. *)
Definition int_truediv (a : Z) (b : positive) : result pyfloat :=
  match rnd64 (Qmake a b) with
  | Fin q => Ok (Fin q)
  | _ => Raise "integer division result too large for a float"
  end.

End PyFloat.

(** ** Python strings and the [re] fragment the service uses *)

Module PyStr.
Import PyFloat.
Local Open Scope string_scope.

Definition code (c : ascii) : N := N_of_ascii c.

Definition in_range (lo hi : N) (c : ascii) : bool :=
  ((lo <=? code c) && (code c <=? hi))%N.

(** [\d] on [str]: the decimal digits; below U+0100 these are [0-9]. *)
Definition is_digit (c : ascii) : bool := in_range 48 57 c.

(** [\s] and [str.isspace]: TAB..CR, FS..US, space, NEL, NBSP. *)
Definition is_space (c : ascii) : bool :=
  in_range 9 13 c || in_range 28 32 c
  || (code c =? 133)%N || (code c =? 160)%N.

(** [\w]: alphanumeric or underscore.  Beyond ASCII, below U+0100, the
    alphanumerics are the ordinal indicators, micro sign, superscript
    digits, vulgar fractions and the Latin-1 letters. *)
Definition is_word (c : ascii) : bool :=
  in_range 48 57 c || in_range 65 90 c || in_range 97 122 c
  || (code c =? 95)%N
  || (code c =? 170)%N || (code c =? 178)%N || (code c =? 179)%N
  || (code c =? 181)%N || (code c =? 185)%N || (code c =? 186)%N
  || in_range 188 190 c
  || in_range 192 214 c || in_range 216 246 c || in_range 248 255 c.

(** [str.lower] on one character: [A-Z] and the Latin-1 capitals. *)
Definition lower_char (c : ascii) : ascii :=
  if in_range 65 90 c || in_range 192 214 c || in_range 216 222 c
  then ascii_of_N (code c + 32)
  else c.

Fixpoint map_chars (f : ascii -> ascii) (s : string) : string :=
  match s with
  | EmptyString => EmptyString
  | String c s' => String (f c) (map_chars f s')
  end.

(** [s.lower()] *)
Definition lower (s : string) : string := map_chars lower_char s.

(** [s.replace(a, b)] for single characters [a], [b]. *)
Definition replace_char (a b : ascii) (s : string) : string :=
  map_chars (fun c => if Ascii.eqb c a then b else c) s.

Fixpoint lstrip (s : string) : string :=
  match s with
  | String c s' => if is_space c then lstrip s' else s
  | EmptyString => EmptyString
  end.

Fixpoint rstrip (s : string) : string :=
  match s with
  | String c s' =>
      match rstrip s' with
      | EmptyString => if is_space c then EmptyString else String c EmptyString
      | t => String c t
      end
  | EmptyString => EmptyString
  end.

(** [s.strip()] *)
Definition strip (s : string) : string := rstrip (lstrip s).

(** [s.startswith(p)] *)
Definition startswith (p s : string) : bool := String.prefix p s.

(** [sub in s] *)
Fixpoint contains (sub s : string) : bool :=
  String.prefix sub s ||
  match s with
  | String _ s' => contains sub s'
  | EmptyString => false
  end.

(** [s[n:]] *)
Fixpoint drop (n : nat) (s : string) : string :=
  match n, s with
  | O, _ => s
  | S k, String _ s' => drop k s'
  | S _, EmptyString => EmptyString
  end.

(** [s[:n]] *)
Fixpoint take (n : nat) (s : string) : string :=
  match n, s with
  | O, _ => EmptyString
  | S k, String c s' => String c (take k s')
  | S _, EmptyString => EmptyString
  end.

(** *** Regular expressions

    The fragment of [re] syntax that the service's six patterns use:
    literal characters, [\d], [\s], [\.], [\b], one capture group, and
    the greedy quantifiers [?], [*], [+] on single characters. *)

Inductive cset : Type := Digit | Space | Chr (c : ascii).
Inductive quant : Type := Once | Maybe | Many0 | Many1.
Inductive node : Type :=
| Atom (c : cset) (q : quant)
| GOpen
| GClose
| Boundary.
Definition regex : Type := list node.

Inductive token : Type :=
| TAtom (c : cset)
| TQuant (q : quant)
| TOpen
| TClose
| TBoundary.

Definition ocons {A} (a : A) (o : option (list A)) : option (list A) :=
  match o with
  | Some l => Some (a :: l)
  | None => None
  end.

Definition escape (c : ascii) : option token :=
  if Ascii.eqb c "d" then Some (TAtom Digit)
  else if Ascii.eqb c "s" then Some (TAtom Space)
  else if Ascii.eqb c "b" then Some TBoundary
  else if Ascii.eqb c "." then Some (TAtom (Chr "."))
  else None.

Definition plain (c : ascii) : option token :=
  if Ascii.eqb c "(" then Some TOpen
  else if Ascii.eqb c ")" then Some TClose
  else if Ascii.eqb c "?" then Some (TQuant Maybe)
  else if Ascii.eqb c "*" then Some (TQuant Many0)
  else if Ascii.eqb c "+" then Some (TQuant Many1)
  else if contains (String c EmptyString) ".^$[]{}|\" then None
  else Some (TAtom (Chr c)).

Fixpoint tokens (p : string) : option (list token) :=
  match p with
  | EmptyString => Some []
  | String "\" (String c p') =>
      match escape c with
      | Some t => ocons t (tokens p')
      | None => None
      end
  | String c p' =>
      match plain c with
      | Some t => ocons t (tokens p')
      | None => None
      end
  end.

Fixpoint nodes (ts : list token) : option regex :=
  match ts with
  | [] => Some []
  | TAtom c :: TQuant q :: ts' => ocons (Atom c q) (nodes ts')
  | TAtom c :: ts' => ocons (Atom c Once) (nodes ts')
  | TOpen :: ts' => ocons GOpen (nodes ts')
  | TClose :: TQuant _ :: _ => None
  | TClose :: ts' => ocons GClose (nodes ts')
  | TBoundary :: ts' => ocons Boundary (nodes ts')
  | TQuant _ :: _ => None
  end.

(** [re.compile]; [None] for a pattern outside the fragment. *)
Definition re_compile (p : string) : option regex :=
  match tokens p with
  | Some ts => nodes ts
  | None => None
  end.

Definition mem (c : cset) (a : ascii) : bool :=
  match c with
  | Digit => is_digit a
  | Space => is_space a
  | Chr b => Ascii.eqb a b
  end.

Definition word_before (prev : option ascii) : bool :=
  match prev with
  | Some c => is_word c
  | None => false
  end.

Definition word_after (s : string) : bool :=
  match s with
  | String c _ => is_word c
  | EmptyString => false
  end.

(** The state of one match attempt: the character before the cursor (for
    [\b]), the text from the cursor on, the text from where the group
    opened, and the group's text once it has closed. *)
Record mstate : Type := MState {
  m_prev : option ascii;
  m_rest : string;
  m_open : string;
  m_group : string
}.

Definition step_char (a : ascii) (s' : string) (st : mstate) : mstate :=
  MState (Some a) s' (m_open st) (m_group st).

(** Greedy repetition: take as many characters of [c] as there are, and
    give them back one at a time while the continuation [k] fails. *)
Fixpoint many (c : cset) (k : mstate -> option mstate) (s : string)
    (st : mstate) : option mstate :=
  match s with
  | String a s' =>
      if mem c a then
        match many c k s' (step_char a s' st) with
        | Some r => Some r
        | None => k st
        end
      else k st
  | EmptyString => k st
  end.

(** The backtracking matcher anchored at the cursor of [st]. *)
Fixpoint match_here (re : regex) (st : mstate) : option mstate :=
  match re with
  | [] => Some st
  | GOpen :: re' =>
      match_here re' (MState (m_prev st) (m_rest st) (m_rest st) (m_group st))
  | GClose :: re' =>
      match_here re'
        (MState (m_prev st) (m_rest st) (m_open st)
           (take (String.length (m_open st) - String.length (m_rest st))
              (m_open st)))
  | Boundary :: re' =>
      if xorb (word_before (m_prev st)) (word_after (m_rest st))
      then match_here re' st else None
  | Atom c Once :: re' =>
      match m_rest st with
      | String a s' =>
          if mem c a then match_here re' (step_char a s' st) else None
      | EmptyString => None
      end
  | Atom c Maybe :: re' =>
      match m_rest st with
      | String a s' =>
          if mem c a then
            match match_here re' (step_char a s' st) with
            | Some r => Some r
            | None => match_here re' st
            end
          else match_here re' st
      | EmptyString => match_here re' st
      end
  | Atom c Many0 :: re' => many c (match_here re') (m_rest st) st
  | Atom c Many1 :: re' =>
      match m_rest st with
      | String a s' =>
          if mem c a
          then many c (match_here re') s' (step_char a s' st)
          else None
      | EmptyString => None
      end
  end.

(** Left-to-right scan for non-overlapping matches; [skip] characters
    belong to the previous match.  Yields the group of each match.  (The
    service's patterns all need a digit, so no match is empty.) *)
Fixpoint scan (re : regex) (prev : option ascii) (s : string) (skip : nat)
  : list string :=
  match skip with
  | S k =>
      match s with
      | String a s' => scan re (Some a) s' k
      | EmptyString => []
      end
  | O =>
      match match_here re (MState prev s EmptyString EmptyString) with
      | Some r =>
          m_group r ::
          match s with
          | String a s' =>
              scan re (Some a) s'
                (String.length s - String.length (m_rest r) - 1)
          | EmptyString => []
          end
      | None =>
          match s with
          | String a s' => scan re (Some a) s' 0
          | EmptyString => []
          end
      end
  end.

(** [re.findall(pattern, text)] for a pattern with one group. *)
Definition re_findall (pattern text : string) : list string :=
  match re_compile pattern with
  | Some re => scan re None text 0
  | None => []
  end.

(** *** [float(s)] *)

Definition digit_val (c : ascii) : Z := Z.of_N (code c) - 48.

(** Reads the leading digits of [s] on top of [acc]; returns the value,
    the number of digits read and the rest. *)
Fixpoint read_digits (s : string) (acc : Z) (n : nat) : Z * nat * string :=
  match s with
  | String c s' =>
      if is_digit c then read_digits s' (10 * acc + digit_val c) (S n)
      else (acc, n, s)
  | EmptyString => (acc, n, EmptyString)
  end.

Definition value_error (s : string) : string :=
  "could not convert string to float: '" ++ s ++ "'".

(** [float(s)] for an unsigned decimal numeral [digits[.[digits]]], the
    only shape the capture group of the patterns yields: the binary64
    nearest to the decimal value.  Any other string is a [ValueError] in
    this model; the parser never passes one (see [captures_convert]). *)
Definition float_of_str (s : string) : result pyfloat :=
  let '(ip, n1, r1) := read_digits s 0 0 in
  match n1, r1 with
  | O, _ => Raise (value_error s)
  | _, EmptyString => Ok (rnd64 (inject_Z ip))
  | _, String c r2 =>
      if Ascii.eqb c "." then
        let '(v, n2, r3) := read_digits r2 ip 0 in
        match r3 with
        | EmptyString => Ok (rnd64 (Qmake v (Z.to_pos (10 ^ Z.of_nat n2))))
        | _ => Raise (value_error s)
        end
      else Raise (value_error s)
  end.

End PyStr.
Import PyFloat PyStr.
Local Open Scope string_scope.

(** ** [OCRService._extract_weight_from_text] *)

(** The list [weight_patterns], in source order. *)
Definition weight_patterns : list string :=
  [ "(\d+\.?\d*)\s*kg";
    "(\d+\.?\d*)\s*k";
    "(\d+\.?\d*)\s*g";
    "peso\s*:?\s*(\d+\.?\d*)";
    "weight\s*:?\s*(\d+\.?\d*)" ].

Definition number_pattern : string := "\b(\d+\.?\d*)\b".

(** [0.1 <= weight <= 50.0] *)
Definition in_weight_range (weight : pyfloat) : bool :=
  fle (lit 1 10) weight && fle weight (lit 50 1).

(** ['g' in pattern and 'kg' not in pattern] *)
Definition converts_grams (pattern : string) : bool :=
  contains "g" pattern && negb (contains "kg" pattern).

(** The loop [for pattern in weight_patterns], from [patterns] on. *)
Fixpoint pattern_loop (patterns : list string) (text : string)
  : option pyfloat :=
  match patterns with
  | [] => None
  | pattern :: rest =>
      match re_findall pattern text with
      | [] => pattern_loop rest text
      | m0 :: _ =>
          match float_of_str m0 with
          | Raise _ => pattern_loop rest text
          | Ok weight =>
              let weight :=
                if converts_grams pattern then fdiv_pos weight 1000
                else weight in
              if in_weight_range weight then Some weight
              else pattern_loop rest text
          end
      end
  end.

(** The loop [for num_str in numbers]. *)
Fixpoint number_loop (numbers : list string) : option pyfloat :=
  match numbers with
  | [] => None
  | num_str :: rest =>
      match float_of_str num_str with
      | Raise _ => number_loop rest
      | Ok num => if in_weight_range num then Some num else number_loop rest
      end
  end.

Definition _extract_weight_from_text (text : string) : option pyfloat :=
  let text := replace_char "," "." (lower text) in
  match pattern_loop weight_patterns text with
  | Some weight => Some weight
  | None => number_loop (re_findall number_pattern text)
  end.

(** ** [OCRService._validate_weight_value] *)

Definition _validate_weight_value (weight : pyfloat) : option pyfloat :=
  if in_weight_range weight then Some (round2 weight) else None.

(** ** [image_processing.py] *)

Module ImageProcessing.

Inductive color_code : Type :=
| COLOR_RGB2BGR
| COLOR_BGR2RGB
| COLOR_BGR2GRAY
| COLOR_GRAY2BGR
| COLOR_RGB2GRAY.

(** Single-band against multi-band bitmaps. *)
Inductive family : Type := Gray | Color.

(** The PIL, NumPy and OpenCV calls of the module.  Arguments that the
    source fixes (CLAHE clip limit and grid, Canny thresholds, Hough
    resolution, filter diameters, the sharpening kernel) are part of the
    call they belong to. *)
Class Imaging (Image ndarray line : Type) : Type := {
  (** [np.array(image)] *)
  np_array : Image -> result ndarray;
  (** [Image.fromarray(a)] *)
  Image_fromarray : ndarray -> result Image;
  (** [len(a.shape)] *)
  ndim : ndarray -> nat;
  (** whether the mode of a PIL image has one band or several *)
  image_family : Image -> family;
  (** [cv2.cvtColor(a, code)] *)
  cvtColor : ndarray -> color_code -> result ndarray;
  (** [a.copy()] *)
  ndarray_copy : ndarray -> result ndarray;
  (** [cv2.createCLAHE(clipLimit=2.0, tileGridSize=(8, 8)).apply(a)] *)
  clahe_apply : ndarray -> result ndarray;
  (** [np.mean(a)] *)
  np_mean : ndarray -> result pyfloat;
  (** [cv2.convertScaleAbs(a, alpha=1.0, beta=beta)] *)
  convertScaleAbs : ndarray -> pyfloat -> result ndarray;
  (** [cv2.Canny(a, 50, 150, apertureSize=3)] *)
  Canny : ndarray -> result ndarray;
  (** [cv2.HoughLines(a, 1, np.pi / 180, threshold=100)]; [None] when no
      line is found *)
  HoughLines : ndarray -> result (option (list line));
  (** [rho, theta = line[0]; np.degrees(theta) - 90] *)
  line_angle : line -> result pyfloat;
  (** [np.median(angles)] *)
  np_median : list pyfloat -> result pyfloat;
  (** the body of [rotate_image]: rotation matrix, enlarged canvas and
      [cv2.warpAffine] with a white border *)
  warp_rotate : ndarray -> pyfloat -> result ndarray;
  (** [cv2.bilateralFilter(a, 9, 75, 75)] *)
  bilateralFilter : ndarray -> result ndarray;
  (** [cv2.filter2D(a, -1, sharpening_kernel)] *)
  filter2D : ndarray -> result ndarray
}.

Definition array_family {Image ndarray line} `{Imaging Image ndarray line}
    (a : ndarray) : family :=
  if Nat.eqb (ndim a) 3 then Color else Gray.

Section Pipeline.

Context {Image ndarray line : Type} {imaging : Imaging Image ndarray line}.
Local Open Scope result_scope.

(** [gray = cvtColor(image, BGR2GRAY) if len(image.shape) == 3 else
    image.copy()] *)
Definition to_gray (image : ndarray) : result ndarray :=
  if Nat.eqb (ndim image) 3 then cvtColor image COLOR_BGR2GRAY
  else ndarray_copy image.

Definition enhance_contrast_body (image : ndarray) : result ndarray :=
  gray <- to_gray image ;;
  enhanced <- clahe_apply gray ;;
  if Nat.eqb (ndim image) 3 then cvtColor enhanced COLOR_GRAY2BGR
  else Ok enhanced.

Definition enhance_contrast (image : ndarray) : result ndarray :=
  try_except (enhance_contrast_body image) (fun _ => Ok image).

Definition fabs (x : pyfloat) : pyfloat :=
  if flt x (Fin 0) then fneg x else x.

Definition adjust_brightness_body (image : ndarray) : result ndarray :=
  gray <- to_gray image ;;
  mean_brightness <- np_mean gray ;;
  let target_brightness := Fin 128 in
  let brightness_adjustment :=
    if flt mean_brightness (Fin 50) then Fin 50
    else if fgt mean_brightness (Fin 200) then Fin (-30)
    else fsub target_brightness mean_brightness in
  if fne0 brightness_adjustment
  then convertScaleAbs image brightness_adjustment
  else Ok image.

Definition adjust_brightness (image : ndarray) : result ndarray :=
  try_except (adjust_brightness_body image) (fun _ => Ok image).

Definition rotate_image (image : ndarray) (angle : pyfloat) : result ndarray :=
  try_except (warp_rotate image angle) (fun _ => Ok image).

(** The loop [for line in lines[:10]] collecting the angles in
    [-45, 45]. *)
Fixpoint collect_angles (lines : list line) : result (list pyfloat) :=
  match lines with
  | [] => Ok []
  | l :: rest =>
      angle <- line_angle l ;;
      angles <- collect_angles rest ;;
      Ok (if fle (Fin (-45)) angle && fle angle (Fin 45)
          then angle :: angles else angles)
  end.

Definition correct_rotation_body (image : ndarray) : result ndarray :=
  gray <- to_gray image ;;
  edges <- Canny gray ;;
  lines <- HoughLines edges ;;
  match lines with
  | Some (l :: ls) =>
      angles <- collect_angles (firstn 10 (l :: ls)) ;;
      match angles with
      | [] => Ok image
      | _ =>
          avg_angle <- np_median angles ;;
          if fgt (fabs avg_angle) (Fin 2)
          then rotate_image image avg_angle
          else Ok image
      end
  | _ => Ok image
  end.

Definition correct_rotation (image : ndarray) : result ndarray :=
  try_except (correct_rotation_body image) (fun _ => Ok image).

Definition reduce_noise_body (image : ndarray) : result ndarray :=
  if Nat.eqb (ndim image) 3 then bilateralFilter image
  else bilateralFilter image.

Definition reduce_noise (image : ndarray) : result ndarray :=
  try_except (reduce_noise_body image) (fun _ => Ok image).

Definition sharpen_image_body (image : ndarray) : result ndarray :=
  filter2D image.

Definition sharpen_image (image : ndarray) : result ndarray :=
  try_except (sharpen_image_body image) (fun _ => Ok image).

(** The five stages, in the order [preprocess_image_for_ocr] applies
    them. *)
Definition stages (img_cv : ndarray) : result ndarray :=
  img_cv <- enhance_contrast img_cv ;;
  img_cv <- adjust_brightness img_cv ;;
  img_cv <- correct_rotation img_cv ;;
  img_cv <- reduce_noise img_cv ;;
  sharpen_image img_cv.

Definition preprocess_body (image : Image) : result Image :=
  img_cv <- np_array image ;;
  img_cv <- (if Nat.eqb (ndim img_cv) 3 then cvtColor img_cv COLOR_RGB2BGR
             else Ok img_cv) ;;
  img_cv <- stages img_cv ;;
  img_cv <- (if Nat.eqb (ndim img_cv) 3 then cvtColor img_cv COLOR_BGR2RGB
             else Ok img_cv) ;;
  Image_fromarray img_cv.

Definition preprocess_image_for_ocr (image : Image) : result Image :=
  try_except (preprocess_body image) (fun _ => Ok image).

End Pipeline.

(** What PIL, NumPy and OpenCV document about the number of dimensions
    of their outputs, for the calls that succeed. *)
Class ImagingContracts {Image ndarray line} (I : Imaging Image ndarray line)
  : Prop := {
  np_array_family : forall img a,
    np_array img = Ok a -> array_family a = image_family img;
  fromarray_family : forall a img,
    Image_fromarray a = Ok img -> image_family img = array_family a;
  cvtColor_ndim : forall a c b,
    cvtColor a c = Ok b ->
    ndim b = match c with
             | COLOR_BGR2GRAY | COLOR_RGB2GRAY => 2%nat
             | _ => 3%nat
             end;
  copy_ndim : forall a b, ndarray_copy a = Ok b -> ndim b = ndim a;
  clahe_ndim : forall a b, clahe_apply a = Ok b -> ndim b = ndim a;
  convertScaleAbs_ndim : forall a beta b,
    convertScaleAbs a beta = Ok b -> ndim b = ndim a;
  warp_rotate_ndim : forall a angle b,
    warp_rotate a angle = Ok b -> ndim b = ndim a;
  bilateralFilter_ndim : forall a b,
    bilateralFilter a = Ok b -> ndim b = ndim a;
  filter2D_ndim : forall a b, filter2D a = Ok b -> ndim b = ndim a
}.

End ImageProcessing.
Import ImageProcessing.

(** ** [ocr_service.py]: the service and its collaborators *)

Module Service.

(** The dict each adapter returns. *)
Record extraction : Type := Extraction {
  extracted_text : string;
  extracted_weight : option pyfloat;
  confidence_score : pyfloat;
  ocr_engine : string
}.

(** The dict [process_image] returns.  The success path has no ['error']
    key and the failure path no ['extracted_text'] key. *)
Record outcome : Type := Outcome {
  success : bool;
  out_text : option string;
  out_weight : option pyfloat;
  out_confidence : pyfloat;
  out_engine : string;
  processing_time_ms : Z;
  error : option string
}.

(** The constructor arguments of [OCRProcessingLog]. *)
Record log_row : Type := LogRow {
  log_registration_id : string;
  log_extracted_text : string;
  log_confidence_score : pyfloat;
  log_processing_time_ms : Z;
  log_ocr_engine : string
}.

(** [requests.Response]: what [raise_for_status] would raise, and
    [content]. *)
Record http_response : Type := HttpResponse {
  status_error : option string;
  content : string
}.

(** The text-detection response: [error.message] and the [description]
    of each entry of [text_annotations]. *)
Record vision_response : Type := VisionResponse {
  error_message : string;
  text_annotations : list string
}.

(** The calls the service makes besides those of the image module. *)
Class Collaborators (Image ndarray : Type) : Type := {
  (** [Image.open(local_path)] *)
  Image_open_path : string -> result Image;
  (** [requests.get(image_url, timeout=10)] *)
  requests_get : string -> result http_response;
  (** [Image.open(BytesIO(content))] *)
  Image_open_bytes : string -> result Image;
  (** [pytesseract.image_to_string(a, config=..., lang='spa+eng')] *)
  image_to_string : ndarray -> result string;
  (** [pytesseract.image_to_data(...)['conf']], [int] applied to each
      entry *)
  image_to_data_conf : ndarray -> result (list Z);
  (** [self.vision_client], with its [text_detection] on PNG bytes *)
  vision_client : option (string -> result vision_response);
  (** [image.save(buffer, format='PNG'); buffer.getvalue()] *)
  save_png : Image -> result string;
  (** the value of the [n]-th call of [time.time()] *)
  time_time : nat -> pyfloat
}.

Section Service.

Context {Image ndarray line : Type}
        {imaging : Imaging Image ndarray line}
        {services : Collaborators Image ndarray}.

(** Calls observed from outside, in order. *)
Inductive event : Type :=
| CallTesseract (image : Image)
| CallVision (image : Image)
| DbAdd (row : log_row)
| DbCommit
| DbRollback.

(** The mutable surroundings of one run: the clock position, the
    SQLAlchemy session (rows added and not yet committed), the table,
    the calls made so far, and the failures the model class and the
    session will answer with: constructing a row, adding it, committing
    what is pending, rolling back what is pending. *)
Record world : Type := World {
  ticks : nat;
  pending : list log_row;
  table : list log_row;
  construct_error : log_row -> option string;
  add_error : log_row -> option string;
  commit_error : list log_row -> option string;
  rollback_error : list log_row -> option string;
  trace : list event
}.

(** Computations that read and change the world and can raise. *)
Definition M (A : Type) : Type := world -> result A * world.

Definition ret {A} (a : A) : M A := fun w => (Ok a, w).

Definition bind {A B} (m : M A) (k : A -> M B) : M B :=
  fun w =>
    match m w with
    | (Ok a, w') => k a w'
    | (Raise e, w') => (Raise e, w')
    end.

Definition lift {A} (r : result A) : M A := fun w => (r, w).

Definition try_exceptM {A} (body : M A) (handler : string -> M A) : M A :=
  fun w =>
    match body w with
    | (Ok a, w') => (Ok a, w')
    | (Raise e, w') => handler e w'
    end.

Local Notation "x <- c ;; k" := (bind c (fun x => k))
  (at level 61, c at next level, right associativity).
Local Notation "c ;;; k" := (bind c (fun _ => k))
  (at level 61, right associativity).

Definition set_trace (w : world) (tr : list event) : world :=
  World (ticks w) (pending w) (table w) (construct_error w) (add_error w)
    (commit_error w) (rollback_error w) tr.

Definition set_session (w : world) (p t : list log_row) : world :=
  World (ticks w) p t (construct_error w) (add_error w) (commit_error w)
    (rollback_error w) (trace w).

Definition log_event (ev : event) (w : world) : world :=
  set_trace w (trace w ++ [ev]).

Definition tick (w : world) : world :=
  World (S (ticks w)) (pending w) (table w) (construct_error w) (add_error w)
    (commit_error w) (rollback_error w) (trace w).

Definition emit (ev : event) : M unit := fun w => (Ok tt, log_event ev w).

(** [time.time()] *)
Definition now : M pyfloat := fun w => (Ok (time_time (ticks w)), tick w).

(** [db.session.add(row)] *)
Definition session_add (row : log_row) : M unit :=
  fun w =>
    let w' := log_event (DbAdd row) w in
    match add_error w row with
    | Some e => (Raise e, w')
    | None => (Ok tt, set_session w' (pending w' ++ [row]) (table w'))
    end.

(** [db.session.commit()] *)
Definition session_commit : M unit :=
  fun w =>
    let w' := log_event DbCommit w in
    match commit_error w (pending w) with
    | Some e => (Raise e, w')
    | None => (Ok tt, set_session w' [] (table w' ++ pending w'))
    end.

(** [db.session.rollback()]; when it raises, the session stays as it
    was. *)
Definition session_rollback : M unit :=
  fun w =>
    let w' := log_event DbRollback w in
    match rollback_error w (pending w) with
    | Some e => (Raise e, w')
    | None => (Ok tt, set_session w' [] (table w'))
    end.

(** *** [_download_image] *)

Definition _download_image_body (image_url : string) : result Image :=
  if startswith "file://" image_url then
    let local_path := drop 7 image_url in
    Image_open_path local_path
  else
    (response <- requests_get image_url ;;
     _ <- match status_error response with
          | Some e => Raise e
          | None => Ok tt
          end ;;
     Image_open_bytes (content response))%result.

Definition _download_image (image_url : string) : result Image :=
  try_except (_download_image_body image_url)
    (fun e => Raise ("Failed to load image from " ++ image_url ++ ": " ++ e)).

(** *** [_extract_with_tesseract] *)

Definition empty_extraction (engine : string) : extraction :=
  Extraction "" None (Fin 0) engine.

Definition sum (l : list Z) : Z := fold_left Z.add l 0.

Definition _extract_with_tesseract_body (image : Image) : result extraction :=
  (image_np <- np_array image ;;
   image_np <- (if Nat.eqb (ndim image_np) 3
                then cvtColor image_np COLOR_RGB2GRAY
                else Ok image_np) ;;
   text <- image_to_string image_np ;;
   conf <- image_to_data_conf image_np ;;
   let confidences := filter (fun c => (0 <? c)%Z) conf in
   avg_confidence <-
     match confidences with
     | [] => Ok (Fin 0)
     | _ :: _ =>
         mean <- int_truediv (sum confidences)
                   (Pos.of_nat (List.length confidences)) ;;
         Ok (fdiv_pos mean 100)
     end ;;
   let weight := _extract_weight_from_text text in
   Ok (Extraction (strip text) weight avg_confidence "tesseract"))%result.

Definition _extract_with_tesseract (image : Image) : M extraction :=
  emit (CallTesseract image) ;;;
  lift (try_except (_extract_with_tesseract_body image)
          (fun _ => Ok (empty_extraction "tesseract"))).

(** *** [_extract_with_google_vision] *)

Definition _extract_with_google_vision_body
    (text_detection : string -> result vision_response) (image : Image)
  : result extraction :=
  (img_byte_arr <- save_png image ;;
   response <- text_detection img_byte_arr ;;
   let texts := text_annotations response in
   _ <- (if String.eqb (error_message response) "" then Ok tt
         else Raise (error_message response)) ;;
   match texts with
   | text :: _ =>
       let confidence := lit 85 100 in
       let weight := _extract_weight_from_text text in
       Ok (Extraction (strip text) weight confidence "google_vision")
   | [] => Ok (empty_extraction "google_vision")
   end)%result.

Definition _extract_with_google_vision (image : Image) : M extraction :=
  emit (CallVision image) ;;;
  match vision_client with
  | None => ret (empty_extraction "google_vision")
  | Some text_detection =>
      lift (try_except (_extract_with_google_vision_body text_detection image)
              (fun _ => Ok (empty_extraction "google_vision")))
  end.

(** *** [_log_ocr_processing] *)

(** [OCRProcessingLog(registration_id=..., ...)]: the constructor of
    the mapped class, which raises when the mapper cannot be
    configured. *)
Definition OCRProcessingLog (registration_id text : string)
    (confidence : pyfloat) (time_ms : Z) (engine : string) : M log_row :=
  fun w =>
    let row := LogRow registration_id text confidence time_ms engine in
    match construct_error w row with
    | Some e => (Raise e, w)
    | None => (Ok row, w)
    end.

(** The rollback of the [except] block is not guarded: what it raises
    leaves the function. *)
Definition _log_ocr_processing (registration_id text : string)
    (confidence : pyfloat) (time_ms : Z) (engine : string) : M unit :=
  try_exceptM
    (ocr_log <- OCRProcessingLog registration_id text confidence time_ms
                  engine ;;
     session_add ocr_log ;;;
     session_commit)
    (fun _ => session_rollback).

(** *** [process_image] *)

(** [if registration_id:] *)
Definition truthy (registration_id : option string) : option string :=
  match registration_id with
  | Some s => if String.eqb s "" then None else Some s
  | None => None
  end.

(** [int((time.time() - start_time) * 1000)] *)
Definition elapsed_ms (start_time : pyfloat) : M Z :=
  t <- now ;;
  lift (py_int (fmul_pos (fsub t start_time) 1000)).

(** The [try] block. *)
Definition process_image_body (image_url : string)
    (registration_id : option string) (start_time : pyfloat) : M outcome :=
  image <- lift (_download_image image_url) ;;
  processed_image <- lift (preprocess_image_for_ocr image) ;;
  tesseract_result <- _extract_with_tesseract processed_image ;;
  result <-
    (if fge (confidence_score tesseract_result) (lit 7 10)
     then ret tesseract_result
     else
       vision_result <- _extract_with_google_vision image ;;
       if fgt (confidence_score vision_result)
              (confidence_score tesseract_result)
       then ret vision_result
       else ret tesseract_result) ;;
  time_ms <- elapsed_ms start_time ;;
  match truthy registration_id with
  | Some rid =>
      _log_ocr_processing rid (extracted_text result)
        (confidence_score result) time_ms (ocr_engine result)
  | None => ret tt
  end ;;;
  let weight :=
    match extracted_weight result with
    | Some w => _validate_weight_value w
    | None => None
    end in
  ret (Outcome true (Some (extracted_text result)) weight
         (confidence_score result) (ocr_engine result) time_ms None).

(** The [except Exception as e] block. *)
Definition process_image_handler (registration_id : option string)
    (start_time : pyfloat) (e : string) : M outcome :=
  time_ms <- elapsed_ms start_time ;;
  match truthy registration_id with
  | Some rid => _log_ocr_processing rid "" (Fin 0) time_ms "error"
  | None => ret tt
  end ;;;
  ret (Outcome false None None (Fin 0) "error" time_ms (Some e)).

Definition process_image (image_url : string)
    (registration_id : option string) : M outcome :=
  start_time <- now ;;
  try_exceptM (process_image_body image_url registration_id start_time)
    (process_image_handler registration_id start_time).

End Service.

End Service.
Import Service.

(** ** A small concrete environment

    Bitmaps carry their number of dimensions and one brightness level;
    the bilateral filter is unavailable and raises.  Used to run the
    model on concrete inputs. *)

Module Demo.

Record bitmap : Type := Bitmap { dims : nat; level : Z }.

Definition set_dims (n : nat) (a : bitmap) : bitmap := Bitmap n (level a).

#[export] Instance demo_imaging : Imaging bitmap bitmap unit := {
  np_array := fun img => Ok img;
  Image_fromarray := fun a => Ok a;
  ndim := dims;
  image_family := fun img => if Nat.eqb (dims img) 3 then Color else Gray;
  cvtColor := fun a c =>
    match c with
    | COLOR_BGR2GRAY | COLOR_RGB2GRAY => Ok (set_dims 2 a)
    | _ => Ok (set_dims 3 a)
    end;
  ndarray_copy := fun a => Ok a;
  clahe_apply := fun a => Ok a;
  np_mean := fun a => Ok (Fin (inject_Z (level a)));
  convertScaleAbs := fun a beta =>
    match py_int beta with
    | Ok b => Ok (Bitmap (dims a) (Z.max 0 (Z.min 255 (level a + b))))
    | Raise e => Raise e
    end;
  Canny := fun a => Ok a;
  HoughLines := fun _ => Ok None;
  line_angle := fun _ => Ok (Fin 0);
  np_median := fun _ => Raise "median of an empty list";
  warp_rotate := fun a _ => Ok a;
  bilateralFilter := fun _ => Raise "cv2.error: bilateralFilter";
  filter2D := fun a => Ok a
}.

(** One local file holds a dark colour photograph; nothing else can be
    fetched.  Tesseract reads [text] with the confidences [conf]; there
    may be a Vision [client].  The clock advances by one second per
    reading (and stops after a day). *)
Definition demo_services (text : string) (conf : list Z)
    (client : option (string -> result vision_response))
  : Collaborators bitmap bitmap := {|
  Image_open_path := fun path =>
    if String.eqb path "/tmp/label.png" then Ok (Bitmap 3 20)
    else Raise "No such file or directory";
  requests_get := fun _ => Raise "Connection refused";
  Image_open_bytes := fun _ => Raise "cannot identify image file";
  image_to_string := fun _ => Ok text;
  image_to_data_conf := fun _ => Ok conf;
  vision_client := client;
  save_png := fun img => Ok "PNG";
  time_time := fun n => Fin (inject_Z (1700000000 + Z.min (Z.of_nat n) 86400))
|}.

Definition vision_answers (text : string) : string -> result vision_response :=
  fun _ => Ok (VisionResponse "" [text]).

(** A fresh session on storage that accepts every write. *)
Definition fresh : world (Image := bitmap) :=
  World 0 [] [] (fun _ => None) (fun _ => None) (fun _ => None)
    (fun _ => None) [].

(** The same, on storage whose commits fail. *)
Definition broken : world (Image := bitmap) :=
  World 0 [] [] (fun _ => None) (fun _ => None)
    (fun _ => Some "database is locked") (fun _ => None) [].




(** A clear label: Tesseract is confident, no Vision client. *)
Definition clear_label : Collaborators bitmap bitmap :=
  demo_services "PESO: 2.5 kg" [85; 90; 95; 80; 75] None.

(** A blurry label: Tesseract is unsure, Vision reads the weight. *)
Definition blurry_label : Collaborators bitmap bitmap :=
  demo_services "unclear" [30] (Some (vision_answers "PESO: 3.2 kg")).

(** A label printed with three decimals, read with confidence. *)
Definition precise_label : Collaborators bitmap bitmap :=
  demo_services "PESO 2.567 kg" [90] None.

Definition label_file : string := "file:///tmp/label.png".

Definition remote_file : string := "http://example.com/label.jpg".

Definition raw_label : bitmap := Bitmap 3 20.

End Demo.

(** ** More float operations *)

Module PyFloatMore.
Local Open Scope Z_scope.

(** [float(n)] for an [int]: the nearest binary64, or [OverflowError]. *)
Definition float_of_int (n : Z) : result pyfloat :=
  match rnd64 (inject_Z n) with
  | Fin q => Ok (Fin q)
  | _ => Raise "int too large to convert to float"
  end.

(** [a / b] on [int]s: [ZeroDivisionError] for [b = 0], otherwise the
    correctly rounded quotient, or [OverflowError]. *)
Definition py_truediv (a b : Z) : result pyfloat :=
  if b =? 0 then Raise "division by zero"
  else
    match rnd64 (inject_Z a / inject_Z b) with
    | Fin q => Ok (Fin q)
    | _ => Raise "integer division result too large for a float"
    end.

(** The sign of a float, as -1, 0 or 1 (0 for NaN). *)
Definition fsign (x : pyfloat) : Z :=
  match x with
  | Fin q => Z.sgn (Qnum q)
  | PInf => 1
  | NInf => -1
  | NaN => 0
  end.

(** [x * y] *)
Definition fmul (x y : pyfloat) : pyfloat :=
  match x, y with
  | NaN, _ | _, NaN => NaN
  | Fin a, Fin b => rnd64 (a * b)
  | _, _ =>
      match fsign x * fsign y with
      | Z0 => NaN
      | Zpos _ => PInf
      | Zneg _ => NInf
      end
  end.

(** [n * x] for an [int] [n] and a float [x]. *)
Definition int_times_float (n : Z) (x : pyfloat) : result pyfloat :=
  (fn <- float_of_int n ;; Ok (fmul fn x))%result.

End PyFloatMore.
Import PyFloatMore.

(** ** [image_processing.py]: the utilities outside the pipeline *)

Module ImageUtilities.
Local Open Scope Z_scope.

(** The NumPy and OpenCV calls of [resize_for_ocr] and
    [convert_to_binary]. *)
Class Utilities (ndarray : Type) : Type := {
  (** [h, w = image.shape[:2]] *)
  shape_hw : ndarray -> result (Z * Z);
  (** [cv2.resize(image, (new_w, new_h), interpolation=cv2.INTER_CUBIC)] *)
  cv2_resize : ndarray -> Z -> Z -> result ndarray;
  (** [cv2.adaptiveThreshold(gray, 255, cv2.ADAPTIVE_THRESH_GAUSSIAN_C,
      cv2.THRESH_BINARY, 11, 2)] *)
  adaptiveThreshold : ndarray -> result ndarray;
  (** [_, binary = cv2.threshold(gray, 0, 255,
      cv2.THRESH_BINARY + cv2.THRESH_OTSU)] *)
  threshold_otsu : ndarray -> result ndarray;
  (** [_, binary = cv2.threshold(gray, 127, 255, cv2.THRESH_BINARY)] *)
  threshold_fixed : ndarray -> result ndarray
}.

Section Utilities.

Context {Image ndarray line : Type}
        {imaging : Imaging Image ndarray line}
        {utilities : Utilities ndarray}.
Local Open Scope result_scope.

(** The size [resize_for_ocr] asks of [cv2.resize] for an image of
    height [h] and width [w]: [(new_w, new_h)]. *)
Definition upscaled_size (h w min_height : Z) : result (Z * Z) :=
  scale_factor <- py_truediv min_height h ;;
  fw <- int_times_float w scale_factor ;;
  new_w <- py_int fw ;;
  fh <- int_times_float h scale_factor ;;
  new_h <- py_int fh ;;
  Ok (new_w, new_h).

Definition resize_for_ocr_body (image : ndarray) (min_height : Z)
  : result ndarray :=
  hw <- shape_hw image ;;
  let '(h, w) := hw in
  if h <? min_height then
    size <- upscaled_size h w min_height ;;
    let '(new_w, new_h) := size in
    cv2_resize image new_w new_h
  else Ok image.

(** [resize_for_ocr(image, min_height)]; the source's default for
    [min_height] is 300. *)
Definition resize_for_ocr (image : ndarray) (min_height : Z)
  : result ndarray :=
  try_except (resize_for_ocr_body image min_height) (fun _ => Ok image).

Definition convert_to_binary_body (image : ndarray) (method : string)
  : result ndarray :=
  gray <- to_gray image ;;
  if String.eqb method "adaptive" then adaptiveThreshold gray
  else if String.eqb method "otsu" then threshold_otsu gray
  else threshold_fixed gray.

(** [convert_to_binary(image, method)]; the source's default for
    [method] is ['adaptive']. *)
Definition convert_to_binary (image : ndarray) (method : string)
  : result ndarray :=
  try_except (convert_to_binary_body image method) (fun _ => Ok image).

End Utilities.

(** The thresholding calls return an array of the shape of their
    input. *)
Class UtilitiesContracts {ndarray Image line}
    (I : Imaging Image ndarray line) (U : Utilities ndarray) : Prop := {
  adaptiveThreshold_ndim : forall a b,
    adaptiveThreshold a = Ok b -> ndim b = ndim a;
  threshold_otsu_ndim : forall a b,
    threshold_otsu a = Ok b -> ndim b = ndim a;
  threshold_fixed_ndim : forall a b,
    threshold_fixed a = Ok b -> ndim b = ndim a
}.

End ImageUtilities.
Import ImageUtilities.

(** The utilities on the bitmaps of the concrete environment: an array
    has 100 columns and as many rows as its level; Otsu's method is
    unavailable. *)
Module DemoUtilities.
Import Demo.
Local Open Scope Z_scope.

#[export] Instance demo_utilities : Utilities bitmap := {
  shape_hw := fun a => Ok (level a, 100);
  cv2_resize := fun a new_w new_h => Ok (Bitmap (dims a) new_h);
  adaptiveThreshold := fun a => Ok (Bitmap (dims a) 255);
  threshold_otsu := fun _ => Raise "cv2.error: threshold";
  threshold_fixed := fun a => Ok (Bitmap (dims a) (if level a <=? 127 then 0 else 255))
}.

End DemoUtilities.

(** ** [routes/ocr.py]: the checks made before a request is processed *)

Module Routes.
Local Open Scope Z_scope.

(** The set [ALLOWED_EXTENSIONS]; only membership is asked of it, except
    in one message, whose order of listing is the order in which Python
    happens to iterate the set. *)
Definition ALLOWED_EXTENSIONS : list string := ["png"; "jpg"; "jpeg"].

Definition MAX_FILE_SIZE : Z := 10 * 1024 * 1024.

Definition RATE_LIMIT_REQUESTS : Z := 10.

Definition RATE_LIMIT_WINDOW : Z := 60.

(** [s.rsplit(sep, 1)] for a one-character separator: the text before
    the last separator and the text after it, or [s] alone. *)
Fixpoint rsplit1 (sep : ascii) (s : string) : list string :=
  match s with
  | EmptyString => [EmptyString]
  | String c s' =>
      match rsplit1 sep s' with
      | [head; tail] => [String c head; tail]
      | _ => if Ascii.eqb c sep then [EmptyString; s'] else [String c s']
      end
  end.

(** [allowed_file(filename)] *)
Definition allowed_file (filename : string) : result bool :=
  if contains "." filename then
    match nth_error (rsplit1 "." filename) 1 with
    | Some extension =>
        Ok (existsb (String.eqb (lower extension)) ALLOWED_EXTENSIONS)
    | None => Raise "list index out of range"
    end
  else Ok false.

(** [str(n)] for an [int]. *)
Definition str_int (n : Z) : string := NilZero.string_of_int (Z.to_int n).

(** [sep.join(parts)] *)
Definition join (sep : string) (parts : list string) : string :=
  String.concat sep parts.

(** What the checks raise: the two werkzeug exceptions the route
    distinguishes, and anything else. *)
Inductive exception : Type :=
| BadRequest (description : string)
| RequestEntityTooLarge (description : string)
| Exception (message : string).

(** An uploaded file, as far as the checks look at it. *)
Record FileStorage : Type := Upload {
  filename : string;
  stream : string
}.

(** The request: the files by field name, in the order received, and
    the declared length of the body. *)
Record Request : Type := MakeRequest {
  files : list (string * FileStorage);
  content_length : option Z
}.

(** [request.files[name]]: the first file of that field, if any. *)
Fixpoint getitem (name : string) (fs : list (string * FileStorage))
  : option FileStorage :=
  match fs with
  | [] => None
  | (k, f) :: fs' => if String.eqb name k then Some f else getitem name fs'
  end.

(** [validate_image_request()], returning the file of the dict
    [{'file': file}]; [iteration_order] is the order in which Python
    iterates [ALLOWED_EXTENSIONS]. *)
Definition validate_image_request (iteration_order : list string)
    (request : Request) : FileStorage + exception :=
  match getitem "image" (files request) with
  | None => inr (BadRequest "No image file provided")
  | Some file =>
      if String.eqb (filename file) "" then inr (BadRequest "No file selected")
      else
        match allowed_file (filename file) with
        | Raise e => inr (Exception e)
        | Ok false =>
            inr (BadRequest ("File type not allowed. Supported formats: "
                             ++ join ", " iteration_order))
        | Ok true =>
            if match content_length request with
               | Some n => negb (n =? 0) && (MAX_FILE_SIZE <? n)
               | None => false
               end
            then inr (RequestEntityTooLarge
                        ("File too large. Maximum size: "
                         ++ str_int (MAX_FILE_SIZE / (1024 * 1024)) ++ "MB"))
            else inl file
        end
  end.

(** The Flask configuration and the Redis client of
    [check_rate_limit], over a store of type [R] holding values of type
    [bytes].  A call that raises leaves the store as it was. *)
Class Redis (R bytes : Type) : Type := {
  (** [hasattr(current_app.config, name)]; reaching the configuration
      object can itself raise, outside an application context *)
  config_hasattr : string -> result bool;
  (** [current_app.config[name]] *)
  config_getitem : string -> result unit;
  (** [redis_client.get(key)] *)
  redis_get : string -> R -> result (option bytes);
  (** [redis_client.setex(key, seconds, value)] *)
  redis_setex : string -> Z -> Z -> R -> result R;
  (** [redis_client.incr(key)] *)
  redis_incr : string -> R -> result R;
  (** [int(current_count)] *)
  int_of_bytes : bytes -> result Z
}.

Section RateLimit.

Context {R bytes : Type} {redis : Redis R bytes}.
Local Open Scope result_scope.

(** [f"ocr_rate_limit:{user_id}"] *)
Definition rate_limit_key (user_id : string) : string :=
  ("ocr_rate_limit:" ++ user_id)%string.

Definition check_rate_limit_body (user_id : string) (r : R)
  : result (bool * R) :=
  has_redis <- config_hasattr "SESSION_REDIS" ;;
  if has_redis : bool then
    _ <- config_getitem "SESSION_REDIS" ;;
    let key := rate_limit_key user_id in
    current_count <- redis_get key r ;;
    match current_count with
    | None =>
        r' <- redis_setex key RATE_LIMIT_WINDOW 1 r ;;
        Ok (true, r')
    | Some count =>
        n <- int_of_bytes count ;;
        if n <? RATE_LIMIT_REQUESTS then
          r' <- redis_incr key r ;;
          Ok (true, r')
        else Ok (false, r)
    end
  else Ok (true, r).

(** [check_rate_limit(user_id)]: the answer and the store afterwards. *)
Definition check_rate_limit (user_id : string) (r : R) : bool * R :=
  match check_rate_limit_body user_id r with
  | Ok answer => answer
  | Raise _ => (true, r)
  end.

End RateLimit.

(** A Redis that works, seen through the count it keeps for each key:
    [get] returns what [int] reads back as the count, [setex] sets it,
    [incr] adds one, and neither touches another key. *)
Class RedisContract {R bytes} (redis : Redis R bytes)
    (count : R -> string -> option Z) : Prop := {
  get_count : forall key r,
    match count r key with
    | None => redis_get key r = Ok None
    | Some n => exists c, redis_get key r = Ok (Some c)
                          /\ int_of_bytes c = Ok n
    end;
  setex_count : forall key seconds value r,
    exists r', redis_setex key seconds value r = Ok r'
               /\ count r' key = Some value
               /\ forall key', key' <> key -> count r' key' = count r key';
  incr_count : forall key r n,
    count r key = Some n ->
    exists r', redis_incr key r = Ok r'
               /\ count r' key = Some (n + 1)
               /\ forall key', key' <> key -> count r' key' = count r key'
}.

End Routes.
Import Routes.

(** A Redis that keeps the counts in a list and never fails, behind a
    configuration object that has the attribute. *)
Module DemoRoutes.
Local Open Scope Z_scope.

Fixpoint demo_count (r : list (string * Z)) (key : string) : option Z :=
  match r with
  | [] => None
  | (k, n) :: r' => if String.eqb key k then Some n else demo_count r' key
  end.

#[export] Instance demo_redis : Redis (list (string * Z)) Z := {
  config_hasattr := fun name => Ok (String.eqb name "SESSION_REDIS");
  config_getitem := fun _ => Ok tt;
  redis_get := fun key r => Ok (demo_count r key);
  redis_setex := fun key _ value r => Ok ((key, value) :: r);
  redis_incr := fun key r =>
    match demo_count r key with
    | Some n => Ok ((key, n + 1) :: r)
    | None => Ok ((key, 1) :: r)
    end;
  int_of_bytes := fun n => Ok n
}.

End DemoRoutes.

(** ** Vocabulary of the statements *)

(** [text.lower().replace(',', '.')] *)
Definition normalise (text : string) : string :=
  replace_char "," "." (lower text).

(** The value a tier-1 pattern proposes: its first match, as a number,
    after the unit conversion the pattern carries. *)
Definition pattern_candidate (text pattern : string) : option pyfloat :=
  match re_findall pattern text with
  | [] => None
  | m0 :: _ =>
      match float_of_str m0 with
      | Ok w => Some (if converts_grams pattern then fdiv_pos w 1000 else w)
      | Raise _ => None
      end
  end.

Definition number_candidate (num_str : string) : option pyfloat :=
  match float_of_str num_str with
  | Ok w => Some w
  | Raise _ => None
  end.

Fixpoint somes {A} (l : list (option A)) : list A :=
  match l with
  | [] => []
  | Some a :: l' => a :: somes l'
  | None :: l' => somes l'
  end.

(** Every candidate of the normalised text, in the order the parser
    meets them: one per matching tier-1 pattern, then the standalone
    numbers. *)
Definition candidates (text : string) : list pyfloat :=
  somes (map (pattern_candidate text) weight_patterns)
  ++ somes (map number_candidate (re_findall number_pattern text)).

(** Every character of [s] satisfies [f]. *)
Fixpoint all_chars (f : ascii -> bool) (s : string) : bool :=
  match s with
  | EmptyString => true
  | String c s' => f c && all_chars f s'
  end.

(** Decimal numerals: digits, then possibly a point and more digits. *)
Inductive numeral : string -> Prop :=
| numeral_int d ds :
    is_digit d = true -> all_chars is_digit ds = true ->
    numeral (String d ds)
| numeral_frac d ds fs :
    is_digit d = true -> all_chars is_digit ds = true ->
    all_chars is_digit fs = true ->
    numeral (String d ds ++ String "." fs).

(** No group opens or closes in [re]. *)
Definition group_free (re : regex) : bool :=
  forallb (fun n => match n with GOpen | GClose => false | _ => true end) re.

(** The compiled group of all six patterns. *)
Definition numeral_group : regex :=
  [GOpen; Atom Digit Many1; Atom (Chr ".") Maybe; Atom Digit Many0; GClose].

Definition two_decimals_ok (k : nat) : bool :=
  in_weight_range (rnd64 (Qmake (Z.of_nat k) 100)).


(** A stage of the conditioner is guarded when it always returns, and
    returns its input when its body raises. *)
Definition stage_guarded {A} (body stage : A -> result A) (a : A) : Prop :=
  (exists b, stage a = Ok b)
  /\ (forall e, body a = Raise e -> stage a = Ok a).


Section RunVocabulary.

Context {Image ndarray line : Type}
        {imaging : Imaging Image ndarray line}
        {services : Collaborators Image ndarray}.

(** The bitmap [preprocess_image_for_ocr] hands back. *)
Definition conditioned (image : Image) : Image :=
  match preprocess_image_for_ocr image with
  | Ok out => out
  | Raise _ => image
  end.

(** The dict the primary adapter returns for [image]. *)
Definition tesseract_extraction (image : Image) : extraction :=
  match _extract_with_tesseract_body image with
  | Ok r => r
  | Raise _ => empty_extraction "tesseract"
  end.

(** The dict the secondary adapter returns for [image]. *)
Definition vision_extraction (image : Image) : extraction :=
  match vision_client with
  | None => empty_extraction "google_vision"
  | Some text_detection =>
      match _extract_with_google_vision_body text_detection image with
      | Ok r => r
      | Raise _ => empty_extraction "google_vision"
      end
  end.

(** The images the secondary adapter was invoked on, in order. *)
Fixpoint vision_inputs (tr : list (event (Image := Image))) : list Image :=
  match tr with
  | [] => []
  | CallVision image :: tr' => image :: vision_inputs tr'
  | _ :: tr' => vision_inputs tr'
  end.

(** Number of invocations of the secondary adapter in a trace. *)
Definition vision_calls (tr : list (event (Image := Image))) : nat :=
  List.length (vision_inputs tr).


(** Whether the write of [row] in world [w] raises: in the constructor,
    in [add] or in [commit]. *)
Definition write_raises (row : log_row) (w : world (Image := Image)) : bool :=
  match construct_error w row with
  | Some _ => true
  | None =>
      match add_error w row with
      | Some _ => true
      | None =>
          match commit_error w (pending w ++ [row]) with
          | Some _ => true
          | None => false
          end
      end
  end.

(** The rollback of the session of [w] does not raise. *)
Definition quiet_rollback (w : world (Image := Image)) : Prop :=
  forall rows, rollback_error w rows = None.

(** The log step of [process_image] cannot raise: there is no
    registration id, or the rollback does not raise. *)
Definition quiet_logging (rid : option string) (w : world (Image := Image))
  : Prop :=
  truthy rid = None \/ quiet_rollback w.

(** The result the orchestrator settles on for an acquired [image]. *)
Definition arbitrate (image : Image) : extraction :=
  let primary := tesseract_extraction (conditioned image) in
  if fge (confidence_score primary) (lit 7 10) then primary
  else
    let secondary := vision_extraction image in
    if fgt (confidence_score secondary) (confidence_score primary)
    then secondary else primary.

(** A clock whose readings are finite numbers of seconds, below [2^62]
    in absolute value. *)
Class SaneClock : Prop :=
  clock_sane : forall n, exists q,
      time_time n = Fin q /\ (Qabs q <= inject_Z (2 ^ 62))%Q.

(** What [int((time.time() - start_time) * 1000)] gives when the clock
    was read for the [t0]-th time at the start and is read for the
    [t1]-th time now. *)
Definition elapsed_at (t0 t1 : nat) : result Z :=
  py_int (fmul_pos (fsub (time_time t1) (time_time t0)) 1000).

Definition success_outcome (r : extraction) (time_ms : Z) : outcome :=
  Outcome true (Some (extracted_text r))
    match extracted_weight r with
    | Some w => _validate_weight_value w
    | None => None
    end
    (confidence_score r) (ocr_engine r) time_ms None.

Definition failure_outcome (e : string) (time_ms : Z) : outcome :=
  Outcome false None None (Fin 0) "error" time_ms (Some e).


End RunVocabulary.

(** ** Vocabulary of the further properties *)

(** No character of [s] is a digit. *)
Definition digit_free (s : string) : bool :=
  all_chars (fun c => negb (is_digit c)) s.

(** No character of [s] is [c]. *)
Definition char_free (c : ascii) (s : string) : bool :=
  all_chars (fun a => negb (Ascii.eqb a c)) s.

(** The state of a match attempt after it has consumed [taken], with
    [rest] still ahead. *)
Fixpoint advance (taken rest : string) (st : mstate) : mstate :=
  match taken with
  | EmptyString => st
  | String a taken' => advance taken' rest (step_char a (taken' ++ rest) st)
  end.

(** The pattern that matches the text [u] literally. *)
Fixpoint literal (u : string) : regex :=
  match u with
  | EmptyString => []
  | String c u' => Atom (Chr c) Once :: literal u'
  end.

(** What the label patterns allow between the label and the number:
    white space, with at most one colon in it. *)
Fixpoint is_separator (s : string) : bool :=
  match s with
  | EmptyString => true
  | String c s' =>
      if is_space c then is_separator s'
      else Ascii.eqb c ":" && all_chars is_space s'
  end.

(** The first character of [s], if any, satisfies [f]. *)
Definition starts_with (f : ascii -> bool) (s : string) : bool :=
  match s with
  | String c _ => f c
  | EmptyString => false
  end.

(** [replace(',', '.')] on one character. *)
Definition comma_to_point (c : ascii) : ascii :=
  if Ascii.eqb c "," then "."%char else c.

(** The same float, as a decidable test. *)
Definition same_float (x y : pyfloat) : bool :=
  match x, y with
  | Fin a, Fin b => Z.eqb (Qnum a) (Qnum b) && Pos.eqb (Qden a) (Qden b)
  | PInf, PInf | NInf, NInf | NaN, NaN => true
  | _, _ => false
  end.

Definition round2_fixed (k : nat) : bool :=
  same_float (round2 (rnd64 (Qmake (Z.of_nat k) 100)))
    (rnd64 (Qmake (Z.of_nat k) 100)).

(** The height [resize_for_ocr] asks for with the default minimum of
    300, for an image of height [h] between 1 and 299. *)
Definition default_new_height (h : Z) : Z :=
  if (h =? 281)%Z || (h =? 291)%Z then 299%Z else 300%Z.

Definition default_height_ok (h : nat) : bool :=
  match py_truediv 300 (Z.of_nat h) with
  | Ok scale_factor =>
      match int_times_float (Z.of_nat h) scale_factor with
      | Ok fh =>
          match py_int fh with
          | Ok new_h => Z.eqb new_h (default_new_height (Z.of_nat h))
          | Raise _ => false
          end
      | Raise _ => false
      end
  | Raise _ => false
  end.

Section FurtherVocabulary.

Context {Image ndarray line : Type}
        {imaging : Imaging Image ndarray line}
        {services : Collaborators Image ndarray}.

(** The adapter invocations of a trace, in order. *)
Fixpoint adapter_calls (tr : list (event (Image := Image)))
  : list (event (Image := Image)) :=
  match tr with
  | [] => []
  | CallTesseract image :: tr' => CallTesseract image :: adapter_calls tr'
  | CallVision image :: tr' => CallVision image :: adapter_calls tr'
  | _ :: tr' => adapter_calls tr'
  end.

(** The session calls of a trace, in order. *)
Fixpoint session_calls (tr : list (event (Image := Image)))
  : list (event (Image := Image)) :=
  match tr with
  | [] => []
  | CallTesseract _ :: tr' => session_calls tr'
  | CallVision _ :: tr' => session_calls tr'
  | ev :: tr' => ev :: session_calls tr'
  end.

(** The adapter invocations of one run on an acquired [image]. *)
Definition run_adapter_calls (image : Image)
  : list (event (Image := Image)) :=
  CallTesseract (conditioned image) ::
  (if fge (confidence_score (tesseract_extraction (conditioned image)))
          (lit 7 10)
   then [] else [CallVision image]).

(** The session calls one write of [row] makes in world [w]. *)
Definition write_calls (w : world (Image := Image)) (row : log_row)
  : list (event (Image := Image)) :=
  match construct_error w row with
  | Some _ => [DbRollback]
  | None =>
      DbAdd row ::
      match add_error w row with
      | Some _ => [DbRollback]
      | None =>
          DbCommit ::
          match commit_error w (pending w ++ [row]) with
          | Some _ => [DbRollback]
          | None => []
          end
      end
  end.

(** What is pending when the write of [row] in world [w] has raised and
    the rollback is called. *)
Definition dirty (row : log_row) (w : world (Image := Image))
  : list log_row :=
  match construct_error w row, add_error w row with
  | None, None => pending w ++ [row]
  | _, _ => pending w
  end.

(** The exception that leaves the write of [row] in world [w]: that of
    the rollback, when the write raised and the rollback raises too. *)
Definition rollback_raises (row : log_row) (w : world (Image := Image))
  : option string :=
  if write_raises row w then rollback_error w (dirty row w) else None.

(** The world after the write of [row] in world [w]. *)
Definition written (row : log_row) (w : world (Image := Image)) : world :=
  World (ticks w)
    (match rollback_raises row w with
     | Some _ => dirty row w
     | None => []
     end)
    (if write_raises row w then table w else table w ++ pending w ++ [row])
    (construct_error w) (add_error w) (commit_error w) (rollback_error w)
    (trace w ++ write_calls w row).


(** The world in which the logging step of a run started in [w] begins:
    the clock has been read [n] times and [calls] have been made. *)
Definition before_logging (calls : list (event (Image := Image))) (n : nat)
    (w : world (Image := Image)) : world :=
  World (n + ticks w) (pending w) (table w) (construct_error w) (add_error w)
    (commit_error w) (rollback_error w) (trace w ++ calls).

(** The log step of [process_image]: [if registration_id:
    self._log_ocr_processing(...)]. *)
Definition logging (rid : option string) (text : string) (conf : pyfloat)
    (time_ms : Z) (engine : string) : M (Image := Image) unit :=
  match truthy rid with
  | Some r => _log_ocr_processing r text conf time_ms engine
  | None => ret tt
  end.


(** The [except] block entered in world [w1] with the cause [e]. *)
Definition failure_run (rid : option string) (t0 : nat) (e : string)
    (w1 : world (Image := Image)) : result outcome * world :=
  match elapsed_at t0 (ticks w1) with
  | Ok time_ms =>
      match logging rid "" (Fin 0) time_ms "error" (tick w1) with
      | (Ok _, w2) => (Ok (failure_outcome e time_ms), w2)
      | (Raise e2, w2) => (Raise e2, w2)
      end
  | Raise e' => (Raise e', tick w1)
  end.

(** One run of [process_image] started in world [w], spelled out. *)
Definition run_of (url : string) (rid : option string)
    (w : world (Image := Image)) : result outcome * world :=
  match _download_image url with
  | Raise e => failure_run rid (ticks w) e (before_logging [] 1 w)
  | Ok image =>
      let r := arbitrate image in
      let w2 := before_logging (run_adapter_calls image) 2 w in
      match elapsed_at (ticks w) (S (ticks w)) with
      | Ok time_ms =>
          match logging rid (extracted_text r) (confidence_score r) time_ms
                  (ocr_engine r) w2 with
          | (Ok _, w3) => (Ok (success_outcome r time_ms), w3)
          | (Raise e, w3) => failure_run rid (ticks w) e w3
          end
      | Raise e => failure_run rid (ticks w) e w2
      end
  end.

(** Tesseract never reports a confidence above 100. *)
Class TesseractContract : Prop :=
  conf_at_most_100 : forall a conf,
    image_to_data_conf a = Ok conf -> Forall (fun c => c <= 100)%Z conf.

End FurtherVocabulary.

(** [n] calls of [check_rate_limit] for one user, one after the other:
    the answers, and the store at the end. *)
Fixpoint requests {R bytes : Type} {redis : Redis R bytes} (n : nat)
    (user_id : string) (r : R) : list bool * R :=
  match n with
  | O => ([], r)
  | S n' =>
      let (answer, r1) := check_rate_limit user_id r in
      let (answers, r2) := requests n' user_id r1 in
      (answer :: answers, r2)
  end.

(** The count a store keeps for a key, 0 when it keeps none. *)
Definition count_or_zero {R : Type} (count : R -> string -> option Z) (r : R)
    (key : string) : Z :=
  match count r key with
  | Some n => n
  | None => 0%Z
  end.

(** ** Floats: rounding facts *)

Local Open Scope list_scope.
Local Open Scope Z_scope.

Lemma rnd_pos_not_nan n d : rnd_pos n d <> NaN.
Proof.
  unfold rnd_pos.
  destruct ((0 <=? _) && _)%bool; discriminate.
Qed.

Lemma rnd64_not_nan q : rnd64 q <> NaN.
Proof.
  unfold rnd64. destruct (Qnum q); try discriminate.
  - apply rnd_pos_not_nan.
  - pose proof (rnd_pos_not_nan (Z.pos p) (Z.pos (Qden q))) as Hn.
    destruct (rnd_pos (Z.pos p) (Z.pos (Qden q))); simpl; congruence.
Qed.

Lemma round_half_even_lower n d c :
  0 < d -> c * d <= n -> c <= round_half_even n d.
Proof.
  intros Hd Hc. unfold round_half_even.
  assert (c <= n / d) by (apply Z.div_le_lower_bound; lia).
  repeat match goal with |- context [if ?b then _ else _] => destruct b end;
    lia.
Qed.

Lemma round_half_even_upper n d c :
  0 < d -> n <= c * d -> round_half_even n d <= c.
Proof.
  intros Hd Hc. unfold round_half_even.
  pose proof (Z.div_mod n d ltac:(lia)) as Hdm.
  pose proof (Z.mod_pos_bound n d Hd) as Hm.
  assert (Hq : n / d <= c) by (apply Z.div_le_upper_bound; lia).
  destruct (2 * (n mod d) <? d) eqn:E1; [lia|].
  apply Z.ltb_ge in E1.
  assert (n / d < c) by nia.
  repeat match goal with |- context [if ?b then _ else _] => destruct b end;
    lia.
Qed.

Lemma two_decimals_table : forallb two_decimals_ok (seq 10 4991) = true.
Proof. vm_compute. reflexivity. Qed.

Lemma two_decimals_in_range k :
  10 <= k <= 5000 -> in_weight_range (rnd64 (Qmake k 100)) = true.
Proof.
  intros Hk.
  pose proof two_decimals_table as T.
  rewrite forallb_forall in T.
  specialize (T (Z.to_nat k)).
  unfold two_decimals_ok in T. rewrite Z2Nat.id in T by lia.
  apply T. apply in_seq. lia.
Qed.

Lemma lit_tenth : lit 1 10 = Fin (3602879701896397 # 36028797018963968).
Proof. vm_compute. reflexivity. Qed.

Lemma lit_fifty : lit 50 1 = Fin (inject_Z 50).
Proof. vm_compute. reflexivity. Qed.

Lemma in_weight_range_fin w :
  in_weight_range w = true ->
  exists q, w = Fin q /\
            (3602879701896397 # 36028797018963968 <= q)%Q /\
            (q <= inject_Z 50)%Q.
Proof.
  unfold in_weight_range. rewrite lit_tenth, lit_fifty.
  intros Hr. apply andb_true_iff in Hr. destruct Hr as [Hlo Hhi].
  destruct w as [q| | |]; simpl in Hlo, Hhi; try discriminate.
  exists q. repeat split; now apply Qle_bool_iff.
Qed.

Lemma round2_in_range w :
  in_weight_range w = true -> in_weight_range (round2 w) = true.
Proof.
  intros Hr. destruct (in_weight_range_fin w Hr) as (q & -> & Hlo & Hhi).
  unfold round2. apply two_decimals_in_range.
  destruct q as [n d]. unfold Qle in Hlo, Hhi. simpl in *.
  split.
  - apply round_half_even_lower; lia.
  - apply round_half_even_upper; lia.
Qed.

Lemma floor_log2_le n d K :
  0 < n -> 0 < d -> 0 <= K -> n <= 2 ^ K * d -> floor_log2 n d <= K.
Proof.
  intros Hn Hd HK Hle. unfold floor_log2.
  assert (Z.log2 n <= K + Z.log2 d).
  { rewrite <- (Z.log2_mul_pow2 d K) by lia.
    apply Z.log2_le_mono. lia. }
  destruct (ge_pow2 _ _ _); lia.
Qed.

(** Below [2^K], with [K] far from the overflow threshold, rounding
    yields a finite number, again at most [2^K]. *)
Lemma rnd_pos_bounded n d K :
  0 < n -> 0 < d -> 0 <= K <= 1000 -> n <= 2 ^ K * d ->
  exists q, rnd_pos n d = Fin q
            /\ (0 <= q)%Q /\ (q <= inject_Z (2 ^ K))%Q.
Proof.
  intros Hn Hd HK Hle. unfold rnd_pos.
  pose proof (floor_log2_le n d K Hn Hd (proj1 HK) Hle) as He.
  set (e := floor_log2 n d) in *.
  set (ex := Z.max (e - 52) (- 1074)).
  assert (Hex : ex <= K) by lia.
  assert (Hsplit : 2 ^ K = 2 ^ (K - ex) * 2 ^ ex \/ ex < 0).
  { destruct (Z_lt_le_dec ex 0); [now right|left].
    rewrite <- Z.pow_add_r by lia. f_equal. lia. }
  destruct (0 <=? ex) eqn:Epos.
  - apply Z.leb_le in Epos.
    destruct Hsplit as [Hsplit|]; [|lia].
    assert (Hp : 0 < 2 ^ ex) by (apply Z.pow_pos_nonneg; lia).
    set (m := round_half_even n (d * 2 ^ ex)).
    assert (Hm0 : 0 <= m)
      by (apply round_half_even_lower; nia).
    assert (Hm1 : m <= 2 ^ (K - ex))
      by (apply round_half_even_upper; nia).
    assert (Hv : m * 2 ^ ex <= 2 ^ K) by nia.
    assert (Hlt : 2 ^ K < 2 ^ 1024) by (apply Z.pow_lt_mono_r; lia).
    replace (2 ^ 1024 <=? m * 2 ^ ex) with false
      by (symmetry; apply Z.leb_gt; lia).
    simpl. exists (dyadic m ex). split; [reflexivity|].
    unfold dyadic. replace (0 <=? ex) with true by (symmetry; now apply Z.leb_le).
    unfold Qle. simpl. nia.
  - apply Z.leb_gt in Epos. simpl.
    set (m := round_half_even (n * 2 ^ (- ex)) d).
    assert (Hp : 0 < 2 ^ (- ex)) by (apply Z.pow_pos_nonneg; lia).
    assert (Hm0 : 0 <= m) by (apply round_half_even_lower; nia).
    assert (Hm1 : m <= 2 ^ K * 2 ^ (- ex))
      by (apply round_half_even_upper; nia).
    exists (dyadic m ex). split; [reflexivity|].
    unfold dyadic. replace (0 <=? ex) with false by (symmetry; now apply Z.leb_gt).
    rewrite !Qred_correct. unfold Qle. simpl.
    rewrite Z2Pos.id by lia. nia.
Qed.

Lemma rnd64_bounded q K :
  0 <= K <= 1000 -> (Qabs q <= inject_Z (2 ^ K))%Q ->
  exists q', rnd64 q = Fin q' /\ (Qabs q' <= inject_Z (2 ^ K))%Q.
Proof.
  intros HK Hq. destruct q as [n d]. unfold rnd64. simpl.
  assert (Hpow : 0 < 2 ^ K) by (apply Z.pow_pos_nonneg; lia).
  destruct n as [|n|n].
  - exists 0%Q. split; [reflexivity|]. unfold Qle. simpl. lia.
  - destruct (rnd_pos_bounded (Z.pos n) (Z.pos d) K) as (q' & Hr & H0 & H1);
      try lia.
    { unfold Qle in Hq. simpl in Hq. lia. }
    exists q'. split; [exact Hr|]. rewrite Qabs_pos; assumption.
  - destruct (rnd_pos_bounded (Z.pos n) (Z.pos d) K) as (q' & Hr & H0 & H1);
      try lia.
    { unfold Qle in Hq. simpl in Hq. lia. }
    rewrite Hr. simpl. exists (Qred (- q')). split; [reflexivity|].
    rewrite Qred_correct, Qabs_opp, Qabs_pos; assumption.
Qed.

Lemma flt_negb_fge x y :
  x <> NaN -> y <> NaN -> flt x y = negb (fge x y).
Proof.
  unfold fge. destruct x, y; simpl; congruence.
Qed.

Lemma fle_not_flt x y : fle x y = true -> flt y x = false.
Proof.
  destruct x, y; simpl; try congruence.
  intros ->. reflexivity.
Qed.


Lemma flt_not_fge x y : flt x y = true -> fge x y = false.
Proof.
  unfold fge. destruct x, y; simpl; try congruence.
  intros Hlt. now apply negb_true_iff in Hlt.
Qed.


(** ** The weight parser *)

Lemma patterns_compile :
  Forall (fun p => re_compile p <> None) (number_pattern :: weight_patterns).
Proof. repeat constructor; vm_compute; discriminate. Qed.

Lemma pattern_loop_in_range ps text w :
  pattern_loop ps text = Some w -> in_weight_range w = true.
Proof.
  induction ps as [|p ps IH]; simpl; [discriminate|].
  destruct (re_findall p text) as [|m0 ms]; [exact IH|].
  destruct (float_of_str m0) as [x|e]; [|exact IH].
  match goal with
  | |- context [if in_weight_range ?v then _ else _] =>
      destruct (in_weight_range v) eqn:E; [|exact IH]
  end.
  intros [= <-]. exact E.
Qed.

Lemma number_loop_in_range ns w :
  number_loop ns = Some w -> in_weight_range w = true.
Proof.
  induction ns as [|n ns IH]; simpl; [discriminate|].
  destruct (float_of_str n) as [x|e]; [|exact IH].
  destruct (in_weight_range x) eqn:E; [|exact IH].
  intros [= <-]. exact E.
Qed.

Lemma extract_weight_in_range text w :
  _extract_weight_from_text text = Some w -> in_weight_range w = true.
Proof.
  unfold _extract_weight_from_text.
  destruct (pattern_loop _ _) as [x|] eqn:E.
  - intros [= <-]. eapply pattern_loop_in_range; eauto.
  - apply number_loop_in_range.
Qed.

Lemma find_app {A} (f : A -> bool) l1 l2 :
  find f (l1 ++ l2) =
  match find f l1 with
  | Some a => Some a
  | None => find f l2
  end.
Proof.
  induction l1 as [|a l1 IH]; simpl; [reflexivity|].
  destruct (f a); [reflexivity|exact IH].
Qed.

Lemma pattern_loop_find ps text :
  pattern_loop ps text =
  find in_weight_range (somes (map (pattern_candidate text) ps)).
Proof.
  induction ps as [|p ps IH]; simpl; [reflexivity|].
  unfold pattern_candidate at 1.
  destruct (re_findall p text) as [|m0 ms]; [exact IH|].
  destruct (float_of_str m0) as [x|e]; [|exact IH].
  simpl. destruct (in_weight_range _); [reflexivity|exact IH].
Qed.

Lemma number_loop_find ns :
  number_loop ns = find in_weight_range (somes (map number_candidate ns)).
Proof.
  induction ns as [|n ns IH]; simpl; [reflexivity|].
  unfold number_candidate at 1.
  destruct (float_of_str n) as [x|e]; [|exact IH].
  simpl. destruct (in_weight_range x); [reflexivity|exact IH].
Qed.

Lemma extract_weight_find text :
  _extract_weight_from_text text =
  find in_weight_range (candidates (normalise text)).
Proof.
  unfold _extract_weight_from_text, candidates. fold (normalise text).
  rewrite find_app, <- pattern_loop_find, <- number_loop_find.
  reflexivity.
Qed.

(** ** The service: how one run unfolds *)

Section ServiceFacts.

Context {Image ndarray line : Type}
        {imaging : Imaging Image ndarray line}
        {services : Collaborators Image ndarray}.

Lemma preprocess_ok (image : Image) :
  preprocess_image_for_ocr image = Ok (conditioned image).
Proof.
  unfold conditioned, preprocess_image_for_ocr, try_except.
  destruct (preprocess_body image); reflexivity.
Qed.

Lemma tesseract_run (image : Image) w :
  _extract_with_tesseract image w =
  (Ok (tesseract_extraction image), log_event (CallTesseract image) w).
Proof.
  unfold _extract_with_tesseract, tesseract_extraction, bind, emit, lift,
    try_except.
  destruct (_extract_with_tesseract_body image); reflexivity.
Qed.

Lemma vision_run (image : Image) w :
  _extract_with_google_vision image w =
  (Ok (vision_extraction image), log_event (CallVision image) w).
Proof.
  unfold _extract_with_google_vision, vision_extraction, bind, emit, lift,
    ret, try_except.
  destruct vision_client as [td|]; [|reflexivity].
  destruct (_extract_with_google_vision_body td image); reflexivity.
Qed.

Lemma vision_inputs_app (tr1 tr2 : list (event (Image := Image))) :
  vision_inputs (tr1 ++ tr2) = vision_inputs tr1 ++ vision_inputs tr2.
Proof.
  induction tr1 as [|ev tr1 IH]; simpl; [reflexivity|].
  destruct ev; simpl; rewrite IH; reflexivity.
Qed.

Lemma adapter_calls_app (tr1 tr2 : list (event (Image := Image))) :
  adapter_calls (tr1 ++ tr2) = adapter_calls tr1 ++ adapter_calls tr2.
Proof.
  induction tr1 as [|ev tr1 IH]; simpl; [reflexivity|].
  destruct ev; simpl; rewrite IH; reflexivity.
Qed.


Lemma calls_of_run (image : Image) :
  adapter_calls (run_adapter_calls image) = run_adapter_calls image
  /\ session_calls (run_adapter_calls image) = []
  /\ vision_inputs (run_adapter_calls image)
     = if fge (confidence_score (tesseract_extraction (conditioned image)))
              (lit 7 10)
       then [] else [image].
Proof.
  unfold run_adapter_calls. destruct (fge _ _); repeat split.
Qed.

Lemma calls_of_write (w : world (Image := Image)) row :
  adapter_calls (write_calls w row) = []
  /\ session_calls (write_calls w row) = write_calls w row
  /\ vision_inputs (write_calls w row) = [].
Proof.
  unfold write_calls.
  destruct (construct_error w row); [repeat split|].
  destruct (add_error w row); [repeat split|].
  destruct (commit_error w _); repeat split.
Qed.

(** [_log_ocr_processing], spelled out: what it raises and the world it
    leaves. *)
Lemma log_run rid text conf ms eng (w : world (Image := Image)) :
  let row := LogRow rid text conf ms eng in
  _log_ocr_processing rid text conf ms eng w =
  (match rollback_raises row w with
   | Some e => Raise e
   | None => Ok tt
   end,
   written row w).
Proof.
  unfold rollback_raises, written, rollback_raises, dirty, write_raises,
    write_calls, _log_ocr_processing, OCRProcessingLog, try_exceptM, bind,
    session_add, session_commit, session_rollback.
  cbv zeta.
  destruct (construct_error w _); simpl.
  - destruct (rollback_error w (pending w)); reflexivity.
  - destruct (add_error w _); simpl.
    + destruct (rollback_error w (pending w)); simpl;
        unfold set_session, log_event, set_trace; simpl;
        now rewrite <- app_assoc.
    + destruct (commit_error w _); simpl.
      * destruct (rollback_error w _); simpl;
          unfold set_session, log_event, set_trace; simpl;
          now rewrite <- !app_assoc.
      * unfold set_session, log_event, set_trace; simpl.
        now rewrite <- !app_assoc.
Qed.

(** The log step, spelled out. *)
Lemma logging_run rid text conf ms eng (w : world (Image := Image)) :
  logging rid text conf ms eng w =
  match truthy rid with
  | Some r =>
      let row := LogRow r text conf ms eng in
      (match rollback_raises row w with
       | Some e => Raise e
       | None => Ok tt
       end,
       written row w)
  | None => (Ok tt, w)
  end.
Proof.
  unfold logging. destruct (truthy rid) as [r|]; [apply log_run|reflexivity].
Qed.

(** Whatever the log step does, it leaves the clock, the adapter calls
    and the storage's answers as they were. *)
Lemma logging_frame rid text conf ms eng (w : world (Image := Image)) :
  let w' := snd (logging rid text conf ms eng w) in
  ticks w' = ticks w
  /\ vision_inputs (trace w') = vision_inputs (trace w)
  /\ adapter_calls (trace w') = adapter_calls (trace w)
  /\ rollback_error w' = rollback_error w.
Proof.
  rewrite logging_run. destruct (truthy rid) as [r|]; [|repeat split].
  cbn [snd written ticks trace rollback_error].
  rewrite vision_inputs_app, adapter_calls_app.
  destruct (calls_of_write w (LogRow r text conf ms eng)) as (-> & _ & ->).
  rewrite !app_nil_r. repeat split.
Qed.

(** Without a registration id, or with a rollback that does not raise,
    the log step does not raise. *)
Lemma logging_quiet rid text conf ms eng (w : world (Image := Image)) :
  quiet_logging rid w -> fst (logging rid text conf ms eng w) = Ok tt.
Proof.
  intros Hq. rewrite logging_run.
  destruct (truthy rid) as [r|] eqn:Hrid; [|reflexivity].
  destruct Hq as [Hq|Hq]; [congruence|].
  cbv zeta. unfold rollback_raises.
  destruct (write_raises _ w); [|reflexivity].
  cbn [fst]. now rewrite Hq.
Qed.

Lemma quiet_before_logging rid calls n (w : world (Image := Image)) :
  quiet_logging rid w -> quiet_logging rid (before_logging calls n w).
Proof. intros [Hq|Hq]; [now left|right; exact Hq]. Qed.

Lemma quiet_tick rid (w : world (Image := Image)) :
  quiet_logging rid w -> quiet_logging rid (tick w).
Proof. intros [Hq|Hq]; [now left|right; exact Hq]. Qed.

(** With a sane clock the elapsed time is always an integer. *)
Lemma elapsed_total {clock : SaneClock} t0 t1 :
  exists time_ms, elapsed_at t0 t1 = Ok time_ms.
Proof.
  unfold elapsed_at.
  destruct (clock_sane t0) as (a & -> & Ha).
  destruct (clock_sane t1) as (b & -> & Hb).
  simpl.
  destruct (rnd64_bounded (b - a) 63) as (d & -> & Hd); [lia| |].
  { apply Qabs_Qle_condition in Ha. apply Qabs_Qle_condition in Hb.
    apply Qabs_Qle_condition.
    change (inject_Z (2 ^ 62)) with (4611686018427387904 # 1)%Q in *.
    change (inject_Z (2 ^ 63)) with (9223372036854775808 # 1)%Q.
    split; lra. }
  simpl.
  destruct (rnd64_bounded (d * inject_Z 1000) 73) as (m & -> & _); [lia| |].
  { apply Qabs_Qle_condition in Hd. apply Qabs_Qle_condition.
    change (inject_Z (2 ^ 63)) with (9223372036854775808 # 1)%Q in *.
    change (inject_Z (2 ^ 73)) with (9444732965739290427392 # 1)%Q.
    change (inject_Z 1000) with (1000 # 1)%Q.
    split; lra. }
  simpl. eauto.
Qed.

(** The [except] block, spelled out. *)
Lemma handler_full rid t0 e (w1 : world (Image := Image)) :
  process_image_handler rid (time_time t0) e w1 = failure_run rid t0 e w1.
Proof.
  unfold process_image_handler, failure_run, logging, elapsed_at,
    elapsed_ms, bind, now, lift, ret, failure_outcome.
  destruct (py_int _) as [ms|e']; [|reflexivity].
  destruct (truthy rid) as [r|]; [|reflexivity].
  destruct (_log_ocr_processing r "" (Fin 0) ms "error" (tick w1))
    as [[[]|e2] w2]; reflexivity.
Qed.

(** One run, start to end: the value returned and the world left. *)
Lemma process_image_full url rid (w : world (Image := Image)) :
  process_image url rid w = run_of url rid w.
Proof.
  unfold run_of.
  destruct (_download_image url) as [image|e] eqn:Ed.
  - unfold process_image, process_image_body, bind, now, try_exceptM, lift.
    rewrite Ed, preprocess_ok, tesseract_run.
    unfold arbitrate, run_adapter_calls.
    set (primary := tesseract_extraction (conditioned image)).
    destruct (fge (confidence_score primary) (lit 7 10)) eqn:Ehigh.
    + unfold ret, elapsed_ms, bind, now, lift, elapsed_at. simpl.
      destruct (py_int _) as [ms|e'].
      * unfold logging.
        destruct (truthy rid) as [r|]; [|reflexivity].
        match goal with
        | |- context [_log_ocr_processing ?a ?b ?c ?d ?f ?v] =>
            change v with (before_logging
                             [CallTesseract (conditioned image)] 2 w);
            destruct (_log_ocr_processing a b c d f
                        (before_logging
                           [CallTesseract (conditioned image)] 2 w))
              as [[[]|e2] w3]
        end; [reflexivity|].
        rewrite handler_full. reflexivity.
      * rewrite handler_full. reflexivity.
    + unfold bind. rewrite vision_run.
      set (secondary := vision_extraction image).
      set (chosen := if fgt (confidence_score secondary)
                            (confidence_score primary)
                     then secondary else primary).
      assert (Hc : (if fgt (confidence_score secondary)
                           (confidence_score primary)
                    then ret secondary else ret primary)
                   = ret (Image := Image) chosen)
        by (subst chosen; destruct (fgt _ _); reflexivity).
      rewrite Hc.
      assert (Hw : tick (log_event (CallVision image)
                           (log_event (CallTesseract (conditioned image))
                              (tick w)))
                   = before_logging
                       [CallTesseract (conditioned image); CallVision image]
                       2 w).
      { unfold before_logging, log_event, set_trace, tick. simpl.
        now rewrite <- app_assoc. }
      unfold ret, elapsed_ms, bind, now, lift, elapsed_at. simpl.
      destruct (py_int _) as [ms|e'].
      * unfold logging.
        destruct (truthy rid) as [r|]; [|now rewrite <- Hw].
        rewrite <- Hw.
        match goal with
        | |- context [_log_ocr_processing ?a ?b ?c ?d ?f ?v] =>
            destruct (_log_ocr_processing a b c d f v) as [[[]|e2] w3]
        end; [reflexivity|].
        rewrite handler_full. reflexivity.
      * rewrite handler_full, <- Hw. reflexivity.
  - unfold process_image, process_image_body, bind, now, try_exceptM, lift.
    rewrite Ed, handler_full.
    unfold before_logging, tick. simpl. now rewrite app_nil_r.
Qed.

(** The [except] block adds no adapter call, and what it returns is the
    failure dict of its cause. *)
Lemma failure_run_frame rid t0 e (w1 : world (Image := Image)) :
  vision_inputs (trace (snd (failure_run rid t0 e w1)))
  = vision_inputs (trace w1)
  /\ adapter_calls (trace (snd (failure_run rid t0 e w1)))
     = adapter_calls (trace w1).
Proof.
  unfold failure_run. destruct (elapsed_at _ _) as [ms|e']; [|now split].
  pose proof (logging_frame rid "" (Fin 0) ms "error" (tick w1))
    as (_ & Hv & Ha & _).
  destruct (logging rid "" (Fin 0) ms "error" (tick w1)) as [[[]|e2] w2];
    cbn [snd] in *; now split.
Qed.

Lemma failure_run_value rid t0 e (w1 : world (Image := Image)) out :
  fst (failure_run rid t0 e w1) = Ok out ->
  exists ms, out = failure_outcome e ms.
Proof.
  unfold failure_run. destruct (elapsed_at _ _) as [ms|e']; [|discriminate].
  destruct (logging _ _ _ _ _ _) as [[[]|e2] w2]; [|discriminate].
  intros [= <-]. now exists ms.
Qed.

Lemma failure_run_quiet {clock : SaneClock} rid t0 e
    (w1 : world (Image := Image)) :
  (forall ms, fst (logging rid "" (Fin 0) ms "error" (tick w1)) = Ok tt) ->
  exists ms, fst (failure_run rid t0 e w1) = Ok (failure_outcome e ms).
Proof.
  intros Hq. unfold failure_run.
  destruct (elapsed_total t0 (ticks w1)) as (ms & ->).
  specialize (Hq ms).
  destruct (logging _ _ _ _ _ _) as [[[]|e2] w2]; [|discriminate].
  now exists ms.
Qed.

(** What a run can return: the success dict of the arbitrated
    extraction of an acquired image, or a failure dict. *)
Lemma run_inversion url rid (w : world (Image := Image)) out :
  fst (process_image url rid w) = Ok out ->
  (exists image ms,
      _download_image url = Ok image
      /\ out = success_outcome (arbitrate image) ms)
  \/ exists e ms, out = failure_outcome e ms.
Proof.
  rewrite process_image_full. unfold run_of.
  destruct (_download_image url) as [image|e].
  - cbv zeta. destruct (elapsed_at _ _) as [ms|e'].
    + destruct (logging _ _ _ _ _ _) as [[[]|e2] w3].
      * intros [= <-]. left. now exists image, ms.
      * intros H. apply failure_run_value in H. right.
        destruct H as (ms' & ->). now exists e2, ms'.
    + intros H. apply failure_run_value in H. right.
      destruct H as (ms' & ->). now exists e', ms'.
  - intros H. apply failure_run_value in H. right.
    destruct H as (ms' & ->). now exists e, ms'.
Qed.

(** The images handed to the secondary adapter in one run, and the
    adapter calls of one run. *)
Lemma run_calls url rid (w : world (Image := Image)) :
  let calls := match _download_image url with
               | Ok image => run_adapter_calls image
               | Raise _ => []
               end in
  vision_inputs (trace (snd (process_image url rid w)))
  = vision_inputs (trace w) ++ vision_inputs calls
  /\ adapter_calls (trace (snd (process_image url rid w)))
     = adapter_calls (trace w) ++ calls.
Proof.
  rewrite process_image_full. unfold run_of.
  destruct (_download_image url) as [image|e].
  - cbv zeta.
    assert (Hbefore :
              vision_inputs
                (trace (before_logging (run_adapter_calls image) 2 w))
              = vision_inputs (trace w)
                ++ vision_inputs (run_adapter_calls image)
              /\ adapter_calls
                   (trace (before_logging (run_adapter_calls image) 2 w))
                 = adapter_calls (trace w) ++ run_adapter_calls image).
    { cbn [before_logging trace].
      rewrite vision_inputs_app, adapter_calls_app.
      now rewrite (proj1 (calls_of_run image)). }
    destruct Hbefore as [Hv Ha].
    destruct (elapsed_at _ _) as [ms|e'].
    + pose proof (logging_frame rid (extracted_text (arbitrate image))
                    (confidence_score (arbitrate image)) ms
                    (ocr_engine (arbitrate image))
                    (before_logging (run_adapter_calls image) 2 w))
        as (_ & Hv' & Ha' & _).
      destruct (logging _ _ _ _ _ _) as [[[]|e2] w3]; cbn [snd] in *.
      * split; congruence.
      * destruct (failure_run_frame rid (ticks w) e2 w3) as [-> ->].
        split; congruence.
    + destruct (failure_run_frame rid (ticks w) e'
                  (before_logging (run_adapter_calls image) 2 w))
        as [-> ->].
      split; assumption.
  - destruct (failure_run_frame rid (ticks w) e (before_logging [] 1 w))
      as [-> ->].
    cbn [before_logging trace vision_inputs]. now rewrite !app_nil_r.
Qed.


(** With a sane clock and a log step that cannot raise,
    [process_image] returns: the success dict when the image is
    acquired, the failure dict of the cause otherwise. *)
Lemma run_quiet {clock : SaneClock} url rid (w : world (Image := Image)) :
  quiet_logging rid w ->
  exists ms,
    fst (process_image url rid w)
    = Ok match _download_image url with
         | Ok image => success_outcome (arbitrate image) ms
         | Raise e => failure_outcome e ms
         end.
Proof.
  intros Hq. rewrite process_image_full. unfold run_of.
  destruct (_download_image url) as [image|e].
  - cbv zeta. destruct (elapsed_total (ticks w) (S (ticks w))) as (ms & ->).
    pose proof (logging_quiet rid (extracted_text (arbitrate image))
                  (confidence_score (arbitrate image)) ms
                  (ocr_engine (arbitrate image))
                  (before_logging (run_adapter_calls image) 2 w)
                  (quiet_before_logging rid _ _ w Hq)) as Hlog.
    destruct (logging _ _ _ _ _ _) as [[[]|e2] w3]; [|discriminate].
    now exists ms.
  - apply failure_run_quiet. intros ms.
    apply logging_quiet, quiet_tick, quiet_before_logging, Hq.
Qed.

End ServiceFacts.

(** ** The conditioner *)

Section ConditioningFacts.

Context {Image ndarray line : Type} {imaging : Imaging Image ndarray line}.

Lemma guarded_try (body : ndarray -> result ndarray) (a : ndarray) :
  stage_guarded body (fun x => try_except (body x) (fun _ => Ok x)) a.
Proof.
  unfold stage_guarded, try_except. split.
  - destruct (body a) as [b|e]; eauto.
  - intros e ->. reflexivity.
Qed.

Lemma stages_run (a : ndarray) :
  exists a1 a2 a3 a4 a5,
    enhance_contrast a = Ok a1
    /\ adjust_brightness a1 = Ok a2
    /\ correct_rotation a2 = Ok a3
    /\ reduce_noise a3 = Ok a4
    /\ sharpen_image a4 = Ok a5
    /\ stages a = Ok a5.
Proof.
  unfold stages.
  destruct (proj1 (guarded_try enhance_contrast_body a)) as [a1 E1].
  destruct (proj1 (guarded_try adjust_brightness_body a1)) as [a2 E2].
  destruct (proj1 (guarded_try correct_rotation_body a2)) as [a3 E3].
  destruct (proj1 (guarded_try reduce_noise_body a3)) as [a4 E4].
  destruct (proj1 (guarded_try sharpen_image_body a4)) as [a5 E5].
  exists a1, a2, a3, a4, a5.
  fold (enhance_contrast a) in E1. fold (adjust_brightness a1) in E2.
  fold (correct_rotation a2) in E3. fold (reduce_noise a3) in E4.
  fold (sharpen_image a4) in E5.
  rewrite E1. simpl. rewrite E2. simpl. rewrite E3. simpl.
  rewrite E4. simpl. rewrite E5. repeat split; reflexivity.
Qed.

Context {contracts : ImagingContracts imaging}.

Lemma to_gray_ndim a g :
  to_gray a = Ok g -> ndim g = if Nat.eqb (ndim a) 3 then 2%nat else ndim a.
Proof.
  unfold to_gray. destruct (Nat.eqb (ndim a) 3).
  - intros Hc. apply cvtColor_ndim in Hc. exact Hc.
  - apply copy_ndim.
Qed.

Lemma enhance_contrast_ndim a b :
  enhance_contrast a = Ok b -> ndim b = ndim a.
Proof.
  unfold enhance_contrast, try_except, enhance_contrast_body, rbind.
  destruct (to_gray a) as [g|] eqn:Eg; [|congruence].
  destruct (clahe_apply g) as [en|] eqn:Ec; [|congruence].
  apply to_gray_ndim in Eg. apply clahe_ndim in Ec.
  destruct (Nat.eqb (ndim a) 3) eqn:E3.
  - apply Nat.eqb_eq in E3.
    destruct (cvtColor en COLOR_GRAY2BGR) as [c|] eqn:Ev; [|congruence].
    apply cvtColor_ndim in Ev. intros [= <-]. congruence.
  - intros [= <-]. congruence.
Qed.

Lemma adjust_brightness_ndim a b :
  adjust_brightness a = Ok b -> ndim b = ndim a.
Proof.
  unfold adjust_brightness, try_except, adjust_brightness_body, rbind.
  destruct (to_gray a) as [g|]; [|congruence].
  destruct (np_mean g) as [m|]; [|congruence].
  destruct (fne0 _); [|congruence].
  destruct (convertScaleAbs a _) as [c|] eqn:Ec; [|congruence].
  apply convertScaleAbs_ndim in Ec. congruence.
Qed.

Lemma rotate_image_ndim a angle b :
  rotate_image a angle = Ok b -> ndim b = ndim a.
Proof.
  unfold rotate_image, try_except.
  destruct (warp_rotate a angle) as [c|] eqn:Ec; [|congruence].
  apply warp_rotate_ndim in Ec. congruence.
Qed.

Lemma correct_rotation_ndim a b :
  correct_rotation a = Ok b -> ndim b = ndim a.
Proof.
  unfold correct_rotation, try_except, correct_rotation_body, rbind.
  destruct (to_gray a) as [g|]; [|congruence].
  destruct (Canny g) as [ed|]; [|congruence].
  destruct (HoughLines ed) as [[[|l ls]|]|]; try congruence.
  destruct (collect_angles _) as [[|x xs]|]; try congruence.
  destruct (np_median _) as [avg|]; [|congruence].
  destruct (fgt _ _); [|congruence].
  destruct (rotate_image a avg) as [c|] eqn:Er; [|congruence].
  apply rotate_image_ndim in Er. congruence.
Qed.

Lemma reduce_noise_ndim a b : reduce_noise a = Ok b -> ndim b = ndim a.
Proof.
  unfold reduce_noise, try_except, reduce_noise_body.
  assert (Hb : forall c, bilateralFilter a = Ok c -> ndim c = ndim a)
    by apply bilateralFilter_ndim.
  destruct (Nat.eqb (ndim a) 3);
    (destruct (bilateralFilter a) as [c|]; [specialize (Hb c eq_refl)|]);
    congruence.
Qed.

Lemma sharpen_image_ndim a b : sharpen_image a = Ok b -> ndim b = ndim a.
Proof.
  unfold sharpen_image, try_except, sharpen_image_body.
  destruct (filter2D a) as [c|] eqn:Ec; [|congruence].
  apply filter2D_ndim in Ec. congruence.
Qed.

Lemma stages_ndim a b : stages a = Ok b -> ndim b = ndim a.
Proof.
  destruct (stages_run a) as (a1 & a2 & a3 & a4 & a5 & E1 & E2 & E3 & E4
                              & E5 & Es).
  rewrite Es. intros [= <-].
  apply enhance_contrast_ndim in E1. apply adjust_brightness_ndim in E2.
  apply correct_rotation_ndim in E3. apply reduce_noise_ndim in E4.
  apply sharpen_image_ndim in E5. congruence.
Qed.

Lemma preprocess_family image out :
  preprocess_image_for_ocr image = Ok out ->
  image_family out = image_family image.
Proof.
  unfold preprocess_image_for_ocr, try_except, preprocess_body, rbind.
  destruct (np_array image) as [a0|] eqn:E0; [|congruence].
  apply np_array_family in E0.
  assert (Hend : forall a6, ndim a6 = ndim a0 ->
            match Image_fromarray a6 with
            | Ok a => Ok a
            | Raise _ => Ok image
            end = Ok out -> image_family out = image_family image).
  { intros a6 Hn. destruct (Image_fromarray a6) as [img|] eqn:E7;
      [|congruence].
    apply fromarray_family in E7. intros [= <-].
    rewrite E7, <- E0. unfold array_family. now rewrite Hn. }
  destruct (Nat.eqb (ndim a0) 3) eqn:D0.
  - apply Nat.eqb_eq in D0.
    destruct (cvtColor a0 COLOR_RGB2BGR) as [a1|] eqn:E1; [|congruence].
    apply cvtColor_ndim in E1.
    destruct (stages a1) as [a5|] eqn:E5; [|congruence].
    apply stages_ndim in E5.
    replace (Nat.eqb (ndim a5) 3) with true
      by (symmetry; apply Nat.eqb_eq; congruence).
    destruct (cvtColor a5 COLOR_BGR2RGB) as [a6|] eqn:E6; [|congruence].
    apply cvtColor_ndim in E6. apply Hend. congruence.
  - destruct (stages a0) as [a5|] eqn:E5; [|congruence].
    apply stages_ndim in E5. rewrite E5, D0. apply Hend. exact E5.
Qed.

End ConditioningFacts.

(** ** What the adapters return *)

Section AdapterFacts.

Context {Image ndarray line : Type}
        {imaging : Imaging Image ndarray line}
        {services : Collaborators Image ndarray}.

Lemma tesseract_confidence_not_nan (image : Image) :
  confidence_score (tesseract_extraction image) <> NaN.
Proof.
  unfold tesseract_extraction, _extract_with_tesseract_body, rbind.
  destruct (np_array image) as [a|]; [|discriminate].
  destruct (if Nat.eqb (ndim a) 3 then _ else _) as [g|]; [|discriminate].
  destruct (image_to_string g) as [text|]; [|discriminate].
  destruct (image_to_data_conf g) as [conf|]; [|discriminate].
  destruct (filter _ conf) as [|c cs]; [discriminate|].
  unfold int_truediv.
  destruct (rnd64 _) as [q| | |]; try discriminate.
  simpl. apply rnd64_not_nan.
Qed.

(** A weight in an adapter's dict is what the parser read in the text
    the engine recognised. *)
Lemma tesseract_weight_parsed (image : Image) p :
  extracted_weight (tesseract_extraction image) = Some p ->
  exists text,
    extracted_text (tesseract_extraction image) = strip text
    /\ _extract_weight_from_text text = Some p.
Proof.
  unfold tesseract_extraction, _extract_with_tesseract_body, rbind.
  destruct (np_array image) as [a|]; [|discriminate].
  destruct (if Nat.eqb (ndim a) 3 then _ else _) as [g|]; [|discriminate].
  destruct (image_to_string g) as [text|]; [|discriminate].
  destruct (image_to_data_conf g) as [conf|]; [|discriminate].
  destruct (match filter _ conf with [] => _ | _ :: _ => _ end);
    [|discriminate].
  simpl. intros Hp. exists text. split; [reflexivity|exact Hp].
Qed.

Lemma vision_weight_parsed (image : Image) p :
  extracted_weight (vision_extraction image) = Some p ->
  exists text,
    extracted_text (vision_extraction image) = strip text
    /\ _extract_weight_from_text text = Some p.
Proof.
  unfold vision_extraction, _extract_with_google_vision_body, rbind.
  destruct vision_client as [td|]; [|discriminate].
  destruct (save_png image) as [png|]; [|discriminate].
  destruct (td png) as [resp|]; [|discriminate].
  destruct (String.eqb _ _); [|discriminate].
  destruct (text_annotations resp) as [|text rest]; [discriminate|].
  simpl. intros Hp. exists text. split; [reflexivity|exact Hp].
Qed.

Lemma arbitrate_weight_parsed (image : Image) p :
  extracted_weight (arbitrate image) = Some p ->
  exists text,
    extracted_text (arbitrate image) = strip text
    /\ _extract_weight_from_text text = Some p.
Proof.
  unfold arbitrate.
  destruct (fge _ _); [apply tesseract_weight_parsed|].
  destruct (fgt _ _);
    [apply vision_weight_parsed|apply tesseract_weight_parsed].
Qed.

(** A successful outcome is the success dict of the arbitrated
    extraction of an acquired image. *)
Lemma success_inversion url rid (w : world (Image := Image)) out :
  fst (process_image url rid w) = Ok out ->
  success out = true ->
  exists image,
    _download_image url = Ok image
    /\ out = success_outcome (arbitrate image) (processing_time_ms out).
Proof.
  intros Hrun Hs.
  destruct (run_inversion url rid w out Hrun)
    as [(image & ms & Hd & ->)|(e & ms & ->)]; [|discriminate].
  now exists image.
Qed.

End AdapterFacts.

(** ** The capture groups are numerals

    [float] is only ever applied to text captured by the group of one of
    the six patterns; such text is a decimal numeral, on which
    [float_of_str] returns.  The [except ValueError] branches of the
    parser are therefore never taken. *)

Section Captures.

Local Open Scope string_scope.

Lemma append_assoc (a b c : string) : (a ++ b) ++ c = a ++ (b ++ c).
Proof. induction a as [|x a IH]; simpl; [reflexivity|now rewrite IH]. Qed.

Lemma length_append (a b : string) :
  String.length (a ++ b) = (String.length a + String.length b)%nat.
Proof. induction a as [|x a IH]; simpl; [reflexivity|now rewrite IH]. Qed.

Lemma take_append (a b : string) :
  take (String.length (a ++ b) - String.length b) (a ++ b) = a.
Proof.
  rewrite length_append.
  replace (String.length a + String.length b - String.length b)%nat
    with (String.length a) by lia.
  induction a as [|x a IH]; simpl; [reflexivity|now rewrite IH].
Qed.

Lemma all_chars_append f (a b : string) :
  all_chars f (a ++ b) = all_chars f a && all_chars f b.
Proof.
  induction a as [|x a IH]; simpl; [reflexivity|].
  rewrite IH. now rewrite andb_assoc.
Qed.

(** What a successful greedy repetition has done: consumed some
    characters of the class and handed over to the continuation. *)
Lemma many_inv c k s st r :
  m_rest st = s ->
  many c k s st = Some r ->
  exists taken st',
    s = taken ++ m_rest st'
    /\ all_chars (mem c) taken = true
    /\ m_open st' = m_open st
    /\ m_group st' = m_group st
    /\ k st' = Some r.
Proof.
  revert st. induction s as [|a s' IH]; intros st Hrest Hm; simpl in Hm.
  - exists "", st. rewrite Hrest. repeat split. exact Hm.
  - assert (Hstop : k st = Some r ->
              exists taken st',
                String a s' = taken ++ m_rest st'
                /\ all_chars (mem c) taken = true
                /\ m_open st' = m_open st
                /\ m_group st' = m_group st
                /\ k st' = Some r).
    { intros Hk. exists "", st. rewrite Hrest. repeat split. exact Hk. }
    destruct (mem c a) eqn:Ea; [|exact (Hstop Hm)].
    destruct (many c k s' (step_char a s' st)) as [r'|] eqn:Em;
      [|exact (Hstop Hm)].
    injection Hm as ->.
    destruct (IH (step_char a s' st) eq_refl Em)
      as (taken & st' & Hs & Hall & Ho & Hg & Hk).
    exists (String a taken), st'. simpl. rewrite Ea, Hall, <- Hs.
    repeat split; assumption.
Qed.

(** A part of the pattern without group marks hands the group text and
    the group start on unchanged. *)
Lemma match_group_free pre re st r :
  group_free pre = true ->
  match_here (pre ++ re)%list st = Some r ->
  exists st',
    match_here re st' = Some r
    /\ m_open st' = m_open st
    /\ m_group st' = m_group st.
Proof.
  revert st. induction pre as [|n pre IH]; intros st Hfree Hm.
  - exists st. repeat split. exact Hm.
  - simpl in Hfree. apply andb_true_iff in Hfree. destruct Hfree as [Hn Hfree].
    destruct n as [c q| | |]; try discriminate; simpl in Hm.
    + destruct q.
      * destruct (m_rest st) as [|a s'] eqn:Es; [discriminate|].
        destruct (mem c a); [|discriminate].
        apply (IH _ Hfree) in Hm. exact Hm.
      * assert (Hskip : match_here (pre ++ re)%list st = Some r ->
                  exists st',
                    match_here re st' = Some r
                    /\ m_open st' = m_open st /\ m_group st' = m_group st)
          by apply (IH _ Hfree).
        destruct (m_rest st) as [|a s'] eqn:Es; [exact (Hskip Hm)|].
        destruct (mem c a); [|exact (Hskip Hm)].
        destruct (match_here (pre ++ re)%list (step_char a s' st))
          as [r'|] eqn:Et; [|exact (Hskip Hm)].
        injection Hm as ->. apply (IH _ Hfree) in Et. exact Et.
      * apply many_inv in Hm; [|reflexivity].
        destruct Hm as (taken & st1 & _ & _ & Ho & Hg & Hk).
        apply (IH _ Hfree) in Hk. destruct Hk as (st' & Hk & Ho' & Hg').
        exists st'. repeat split; congruence.
      * destruct (m_rest st) as [|a s'] eqn:Es; [discriminate|].
        destruct (mem c a); [|discriminate].
        apply many_inv in Hm; [|reflexivity].
        destruct Hm as (taken & st1 & _ & _ & Ho & Hg & Hk).
        simpl in Ho, Hg.
        apply (IH _ Hfree) in Hk. destruct Hk as (st' & Hk & Ho' & Hg').
        exists st'. repeat split; congruence.
    + destruct (xorb _ _); [|discriminate].
      apply (IH _ Hfree) in Hm. exact Hm.
Qed.

Lemma maybe_inv c re st r :
  match_here (Atom c Maybe :: re) st = Some r ->
  match_here re st = Some r
  \/ exists a s',
       m_rest st = String a s' /\ mem c a = true
       /\ match_here re (step_char a s' st) = Some r.
Proof.
  simpl. destruct (m_rest st) as [|a s']; [now left|].
  destruct (mem c a) eqn:Ea; [|now left].
  destruct (match_here re (step_char a s' st)) as [r'|] eqn:Et; [|now left].
  intros [= <-]. right. exists a, s'. repeat split; assumption.
Qed.

Lemma many1_inv c re st r :
  match_here (Atom c Many1 :: re) st = Some r ->
  exists a s',
    m_rest st = String a s' /\ mem c a = true
    /\ many c (match_here re) s' (step_char a s' st) = Some r.
Proof.
  simpl. destruct (m_rest st) as [|a s']; [discriminate|].
  destruct (mem c a) eqn:Ea; [|discriminate].
  intros Hm. exists a, s'. repeat split; assumption.
Qed.

(** After the integer part and possibly the point ([lead]), the rest of
    the group and of the pattern. *)
Lemma numeral_tail post d ds lead st r :
  group_free post = true ->
  is_digit d = true ->
  all_chars is_digit ds = true ->
  lead = String d ds \/ lead = String d ds ++ String "." "" ->
  m_open st = lead ++ m_rest st ->
  match_here (Atom Digit Many0 :: GClose :: post) st = Some r ->
  numeral (m_group r).
Proof.
  intros Hfree Ed Hds Hlead Ho Hm.
  change (many Digit (match_here (GClose :: post)) (m_rest st) st = Some r)
    in Hm.
  apply many_inv in Hm; [|reflexivity].
  destruct Hm as (fs & st4 & Hs & Hfs & Ho4 & _ & Hm).
  assert (Hfs' : all_chars is_digit fs = true) by exact Hfs.
  simpl in Hm. rewrite <- (app_nil_r post) in Hm.
  apply (match_group_free post [] _ r Hfree) in Hm.
  destruct Hm as (st5 & Hr & _ & Hg5). simpl in Hr, Hg5.
  injection Hr as <-. rewrite Hg5, Ho4, Ho, Hs, <- append_assoc.
  rewrite take_append.
  destruct Hlead as [-> | ->].
  - simpl. apply numeral_int; [exact Ed|].
    rewrite all_chars_append, Hds. exact Hfs'.
  - rewrite append_assoc. simpl.
    apply (numeral_frac d ds fs Ed Hds Hfs').
Qed.

(** The group of the six patterns captures a numeral. *)
Lemma numeral_group_captures post st r :
  group_free post = true ->
  match_here (numeral_group ++ post)%list st = Some r ->
  numeral (m_group r).
Proof.
  intros Hfree Hm.
  change (match_here
            (Atom Digit Many1 :: Atom (Chr ".") Maybe :: Atom Digit Many0
             :: GClose :: post)
            (MState (m_prev st) (m_rest st) (m_rest st) (m_group st))
          = Some r) in Hm.
  apply many1_inv in Hm. destruct Hm as (d & s1 & Es & Ed & Hm).
  simpl in Es, Ed.
  apply many_inv in Hm; [|reflexivity].
  destruct Hm as (ds & st2 & Hs1 & Hds & Ho2 & _ & Hm). simpl in Ho2.
  assert (Hds' : all_chars is_digit ds = true) by exact Hds.
  apply maybe_inv in Hm. destruct Hm as [Hm | (c & s3 & Es2 & Ec & Hm)].
  - apply (numeral_tail post d ds (String d ds) st2 r); auto.
    rewrite Ho2, Es, Hs1. reflexivity.
  - apply (numeral_tail post d ds (String d ds ++ String "." "")
             (step_char c s3 st2) r); auto.
    simpl. rewrite Ho2, Es, Hs1, Es2.
    simpl in Ec. apply Ascii.eqb_eq in Ec. subst c.
    rewrite append_assoc. reflexivity.
Qed.

Lemma scan_groups (P : string -> Prop) re :
  (forall st r, match_here re st = Some r -> P (m_group r)) ->
  forall s prev skip, Forall P (scan re prev s skip).
Proof.
  intros Hre s. induction s as [|a s' IH]; intros prev skip.
  - destruct skip; simpl; [|constructor].
    destruct (match_here re _) as [r|] eqn:Em; constructor.
    + apply (Hre _ _ Em).
    + constructor.
  - destruct skip; simpl; [|apply IH].
    destruct (match_here re _) as [r|] eqn:Em; [|apply IH].
    constructor; [apply (Hre _ _ Em)|apply IH].
Qed.

Lemma append_empty (a : string) : a ++ "" = a.
Proof. induction a as [|x a IH]; simpl; [reflexivity|now rewrite IH]. Qed.

Lemma read_digits_all (ds rest : string) acc n :
  all_chars is_digit ds = true ->
  match rest with
  | String c _ => is_digit c = false
  | EmptyString => True
  end ->
  exists v, read_digits (ds ++ rest) acc n
            = (v, (n + String.length ds)%nat, rest).
Proof.
  revert acc n. induction ds as [|d ds IH]; intros acc n Hds Hrest.
  - simpl. rewrite Nat.add_0_r.
    destruct rest as [|c rest']; [now exists acc|].
    simpl. rewrite Hrest. now exists acc.
  - simpl in Hds. apply andb_true_iff in Hds. destruct Hds as [Hd Hds].
    cbn [read_digits append String.length]. rewrite Hd.
    destruct (IH (10 * acc + digit_val d) (S n) Hds Hrest) as (v & Hv).
    exists v. rewrite Hv. f_equal. f_equal. lia.
Qed.

Lemma numeral_float s : numeral s -> exists x, float_of_str s = Ok x.
Proof.
  intros [d ds Hd Hds | d ds fs Hd Hds Hfs]; unfold float_of_str.
  - destruct (read_digits_all (String d ds) "" 0 0) as (v & Hv);
      [simpl; now rewrite Hd, Hds|exact I|].
    rewrite append_empty in Hv. rewrite Hv. simpl. eauto.
  - destruct (read_digits_all (String d ds) (String "." fs) 0 0) as (v & Hv);
      [simpl; now rewrite Hd, Hds|reflexivity|].
    rewrite Hv. simpl.
    destruct (read_digits_all fs "" v 0 Hfs I) as (v' & Hv').
    rewrite append_empty in Hv'. rewrite Hv'. eauto.
Qed.

(** On every text, every string the six patterns capture is one that
    [float] accepts. *)
Lemma captures_convert text pattern :
  In pattern (number_pattern :: weight_patterns) ->
  Forall (fun m => exists x, float_of_str m = Ok x)
    (re_findall pattern text).
Proof.
  intros Hin.
  assert (Hshape : exists pre post,
             re_compile pattern = Some (pre ++ numeral_group ++ post)%list
             /\ group_free pre = true /\ group_free post = true).
  { simpl in Hin.
    destruct Hin as [<- | [<- | [<- | [<- | [<- | [<- | []]]]]]].
    - exists [Boundary], [Boundary]. repeat split.
    - exists [], [Atom Space Many0; Atom (Chr "k") Once; Atom (Chr "g") Once].
      repeat split.
    - exists [], [Atom Space Many0; Atom (Chr "k") Once]. repeat split.
    - exists [], [Atom Space Many0; Atom (Chr "g") Once]. repeat split.
    - exists [Atom (Chr "p") Once; Atom (Chr "e") Once; Atom (Chr "s") Once;
              Atom (Chr "o") Once; Atom Space Many0; Atom (Chr ":") Maybe;
              Atom Space Many0], [].
      repeat split.
    - exists [Atom (Chr "w") Once; Atom (Chr "e") Once; Atom (Chr "i") Once;
              Atom (Chr "g") Once; Atom (Chr "h") Once; Atom (Chr "t") Once;
              Atom Space Many0; Atom (Chr ":") Maybe; Atom Space Many0], [].
      repeat split. }
  destruct Hshape as (pre & post & Hc & Hpre & Hpost).
  unfold re_findall. rewrite Hc.
  apply scan_groups. intros st r Hm.
  apply match_group_free in Hm; [|exact Hpre].
  destruct Hm as (st' & Hm & _ & _).
  apply numeral_float. apply (numeral_group_captures post st' r Hpost Hm).
Qed.

End Captures.

(** ** The repository's unit tests, replayed on the model *)

Import Demo.

Example test_weight_extraction_with_kg_unit :
  _extract_weight_from_text "PESO: 2.5 kg" = Some (lit 25 10).
Proof. vm_compute. reflexivity. Qed.

Example test_weight_extraction_with_g_unit :
  _extract_weight_from_text "PESO: 2500 g" = Some (lit 25 10).
Proof. vm_compute. reflexivity. Qed.

Example test_weight_extraction_with_k_abbreviation :
  _extract_weight_from_text "2.3 k" = Some (lit 23 10).
Proof. vm_compute. reflexivity. Qed.

Example test_weight_extraction_spanish_peso_label :
  _extract_weight_from_text "peso: 1.8" = Some (lit 18 10).
Proof. vm_compute. reflexivity. Qed.

(** This one passes through the fallback on bare numbers: the [weight]
    pattern proposes 0.0032, which the range gate rejects. *)
Example test_weight_extraction_english_weight_label :
  _extract_weight_from_text "weight: 3.2" = Some (lit 32 10)
  /\ pattern_loop weight_patterns "weight: 3.2" = None.
Proof. vm_compute. split; reflexivity. Qed.

Example test_weight_extraction_fallback_to_numbers :
  _extract_weight_from_text "Some text 1.5 other text" = Some (lit 15 10).
Proof. vm_compute. reflexivity. Qed.

Example test_weight_extraction_out_of_range_rejected :
  _extract_weight_from_text "0.05 kg" = None
  /\ _extract_weight_from_text "100 kg" = None.
Proof. vm_compute. split; reflexivity. Qed.

Example test_weight_extraction_no_weight_found :
  _extract_weight_from_text "Some random text without weights" = None.
Proof. vm_compute. reflexivity. Qed.

Example test_weight_validation_valid_range :
  _validate_weight_value (lit 1 10) = Some (lit 1 10)
  /\ _validate_weight_value (lit 25 1) = Some (lit 25 1)
  /\ _validate_weight_value (lit 50 1) = Some (lit 50 1).
Proof. vm_compute. repeat split; reflexivity. Qed.

Example test_weight_validation_invalid_range :
  _validate_weight_value (lit 5 100) = None
  /\ _validate_weight_value (lit 55 1) = None.
Proof. vm_compute. split; reflexivity. Qed.

Example test_weight_validation_rounding :
  _validate_weight_value (lit 256789 100000) = Some (lit 257 100).
Proof. vm_compute. reflexivity. Qed.

Example test_extract_with_tesseract_success :
  tesseract_extraction (services := clear_label) raw_label
  = Extraction "PESO: 2.5 kg" (Some (lit 25 10)) (lit 85 100) "tesseract".
Proof. vm_compute. reflexivity. Qed.

Example test_extract_with_google_vision_no_client :
  vision_extraction (services := clear_label) raw_label
  = Extraction "" None (Fin 0) "google_vision".
Proof. vm_compute. reflexivity. Qed.

Example test_process_image_tesseract_high_confidence :
  fst (process_image (services := clear_label) label_file
         (Some "test-reg-id"%string) fresh)
  = Ok (Outcome true (Some "PESO: 2.5 kg"%string) (Some (lit 25 10))
          (lit 85 100) "tesseract" 1000 None).
Proof. vm_compute. reflexivity. Qed.

Example test_process_image_fallback_to_google_vision :
  fst (process_image (services := blurry_label) label_file
         (Some "test-reg-id"%string) fresh)
  = Ok (Outcome true (Some "PESO: 3.2 kg"%string) (Some (lit 32 10))
          (lit 85 100) "google_vision" 1000 None).
Proof. vm_compute. reflexivity. Qed.

Example test_process_image_failure :
  fst (process_image (services := blurry_label) remote_file
         (Some "test-reg-id"%string) fresh)
  = Ok (Outcome false None None (Fin 0) "error" 1000
          (Some ("Failed to load image from http://example.com/label.jpg: "
                 ++ "Connection refused")%string)).
Proof. vm_compute. reflexivity. Qed.

Example test_log_ocr_processing_failure :
  _log_ocr_processing "test-id" "test text" (lit 85 100) 1500 "tesseract"
    broken
  = (Ok tt,
     World 0 [] [] (construct_error broken) (add_error broken)
       (commit_error broken) (rollback_error broken)
       [DbAdd (LogRow "test-id" "test text" (lit 85 100) 1500 "tesseract");
        DbCommit; DbRollback]).
Proof. reflexivity. Qed.

(** ** The claims about the weight parser *)

(** C2 (defect in the code).  The claim: when [weight: <number>] is the
    first tier-1 pattern to match, the number is taken in kilograms, the
    division by 1000 being reserved to the gram pattern.  The code: the
    test ['g' in pattern and 'kg' not in pattern] also holds for the
    [weight] pattern, whose name contains a [g].  On the text
    [weight: 2500] no earlier pattern matches, the [weight] pattern
    captures [2500], and the parser returns 2.5 where the claim has the
    2500 kg rejected by the range gate. *)
Theorem C2_weight_label_divided_by_1000 :
  map (fun p => re_findall p "weight: 2500") weight_patterns
  = [[]; []; []; []; ["2500"%string]]
  /\ map converts_grams weight_patterns = [false; false; true; false; true]
  /\ pattern_candidate "weight: 2500" (nth 4 weight_patterns ""%string)
     = Some (Fin (5 # 2))
  /\ _extract_weight_from_text "weight: 2500" = Some (Fin (5 # 2)).
Proof. vm_compute. repeat split; reflexivity. Qed.

(** C9.  For the text [2500 g] the parser returns 2.5: the patterns
    [<number> kg] and [<number> k] have no match, [<number> g] captures
    [2500], that pattern converts grams, 2500 / 1000 is 2.5, and 2.5
    passes the range gate. *)
Theorem C9_grams_to_kilograms :
  _extract_weight_from_text "2500 g" = Some (Fin (5 # 2))
  /\ map (fun p => re_findall p "2500 g") (firstn 3 weight_patterns)
     = [[]; []; ["2500"%string]]
  /\ converts_grams (nth 2 weight_patterns ""%string) = true
  /\ float_of_str "2500" = Ok (Fin (inject_Z 2500))
  /\ fdiv_pos (Fin (inject_Z 2500)) 1000 = Fin (5 # 2)
  /\ in_weight_range (Fin (5 # 2)) = true.
Proof. vm_compute. repeat split; reflexivity. Qed.

Lemma find_none_iff {A} (f : A -> bool) l :
  find f l = None <-> (forall x, In x l -> f x = false).
Proof.
  split; [apply find_none|].
  induction l as [|a l IH]; simpl; [reflexivity|].
  intros Hall. rewrite (Hall a (or_introl eq_refl)).
  apply IH. intros x Hx. apply Hall. right. exact Hx.
Qed.

(** ** The claims about the orchestrator *)

Section Claims.

Context {Image ndarray line : Type}
        {imaging : Imaging Image ndarray line}
        {services : Collaborators Image ndarray}.

(** C5.  Whatever the text, a weight the parser returns lies in
    [0.1, 50.0]; the parser returns the first candidate, in the order it
    meets them, that passes the range gate, so candidates out of range
    are skipped and the search goes on; it returns nothing exactly when
    no candidate passes; and a weight in the dict [process_image]
    returns lies in [0.1, 50.0] too. *)
Theorem C5_weight_within_range text url rid (w : world (Image := Image)) :
  (forall wt, _extract_weight_from_text text = Some wt ->
              in_weight_range wt = true)
  /\ _extract_weight_from_text text
     = find in_weight_range (candidates (normalise text))
  /\ (_extract_weight_from_text text = None <->
      forall c, In c (candidates (normalise text)) ->
                in_weight_range c = false)
  /\ (forall out wt, fst (process_image url rid w) = Ok out ->
                     out_weight out = Some wt ->
                     in_weight_range wt = true).
Proof.
  split; [|split; [|split]].
  - intros wt. apply extract_weight_in_range.
  - apply extract_weight_find.
  - rewrite extract_weight_find. apply find_none_iff.
  - intros out wt Hrun Hw.
    destruct (success out) eqn:Hs.
    + destruct (success_inversion url rid w out Hrun Hs) as (image & _ & Ho).
      rewrite Ho in Hw. simpl in Hw.
      destruct (extracted_weight (arbitrate image)) as [p|]; [|discriminate].
      unfold _validate_weight_value in Hw.
      destruct (in_weight_range p) eqn:Hp; [|discriminate].
      injection Hw as <-. apply round2_in_range, Hp.
    + destruct (run_inversion url rid w out Hrun)
        as [(image & ms & _ & ->)|(e & ms & ->)]; discriminate.
Qed.

(** C10.  On a successful run with a weight, the weight returned is the
    value the parser read in the recognised text, rounded to two
    decimals by the final re-validation; the parser itself does not
    round: it reads 0.123 in [0.123 kg], which the re-validation turns
    into 0.12. *)
Theorem C10_weight_rounded_on_return url rid (w : world (Image := Image))
    out wt :
  fst (process_image url rid w) = Ok out ->
  success out = true ->
  out_weight out = Some wt ->
  (exists text parsed,
      out_text out = Some (strip text)
      /\ _extract_weight_from_text text = Some parsed
      /\ _validate_weight_value parsed = Some wt
      /\ wt = round2 parsed)
  /\ _extract_weight_from_text "0.123 kg" = Some (lit 123 1000)
  /\ _validate_weight_value (lit 123 1000) = Some (lit 12 100)
  /\ lit 123 1000 <> lit 12 100.
Proof.
  intros Hrun Hs Hw. split.
  - destruct (success_inversion url rid w out Hrun Hs) as (image & _ & Ho).
    rewrite Ho in Hw. simpl in Hw.
    destruct (extracted_weight (arbitrate image)) as [p|] eqn:Ep;
      [|discriminate].
    destruct (arbitrate_weight_parsed image p Ep) as (text & Ht & Hp).
    exists text, p. repeat split.
    + rewrite Ho. simpl. now rewrite Ht.
    + exact Hp.
    + exact Hw.
    + unfold _validate_weight_value in Hw.
      destruct (in_weight_range p); [|discriminate].
      now injection Hw.
  - vm_compute. repeat split; try reflexivity. discriminate.
Qed.

(** Whenever the fallback branch is reached, the secondary adapter is
    handed the image as acquired. *)
Lemma fallback_input_is_acquired_image url rid (w : world (Image := Image))
    image :
  _download_image url = Ok image ->
  fge (confidence_score (tesseract_extraction (conditioned image)))
      (lit 7 10) = false ->
  vision_inputs (trace (snd (process_image url rid w)))
  = vision_inputs (trace w) ++ [image].
Proof.
  intros Ed Hlow.
  pose proof (proj1 (run_calls url rid w)) as R.
  rewrite Ed, (proj2 (proj2 (calls_of_run image))), Hlow in R. exact R.
Qed.

(** C3.  Once the image is acquired (conditioning always returns), the
    secondary adapter is invoked once when the primary confidence is
    below 0.7 and not at all otherwise, that is, when it is at least
    0.7. *)
Theorem C3_fallback_iff_low_confidence url rid (w : world (Image := Image))
    image :
  _download_image url = Ok image ->
  let primary := tesseract_extraction (conditioned image) in
  vision_calls (trace (snd (process_image url rid w)))
  = (vision_calls (trace w)
     + (if flt (confidence_score primary) (lit 7 10) then 1 else 0))%nat
  /\ flt (confidence_score primary) (lit 7 10)
     = negb (fge (confidence_score primary) (lit 7 10)).
Proof.
  intros Ed primary.
  assert (Hcmp : flt (confidence_score primary) (lit 7 10)
                 = negb (fge (confidence_score primary) (lit 7 10))).
  { apply flt_negb_fge.
    - apply tesseract_confidence_not_nan.
    - vm_compute. discriminate. }
  split; [|exact Hcmp].
  pose proof (proj1 (run_calls url rid w)) as R.
  rewrite Ed, (proj2 (proj2 (calls_of_run image))) in R.
  unfold vision_calls. rewrite R, length_app, Hcmp.
  fold primary. destruct (fge _ _); reflexivity.
Qed.




(** C8.  The conditioner never raises and, the imaging libraries
    keeping their documented shapes, returns a bitmap of the family
    (single-band or multi-band) of its input; each of the five stages
    always returns, handing back its input when its body raises; and
    the five stages run one after the other whatever fails inside. *)
Theorem C8_conditioning_never_raises
    {contracts : ImagingContracts imaging} (image : Image) :
  (exists out, preprocess_image_for_ocr image = Ok out
               /\ image_family out = image_family image)
  /\ (forall a,
        stage_guarded enhance_contrast_body enhance_contrast a
        /\ stage_guarded adjust_brightness_body adjust_brightness a
        /\ stage_guarded correct_rotation_body correct_rotation a
        /\ stage_guarded reduce_noise_body reduce_noise a
        /\ stage_guarded sharpen_image_body sharpen_image a)
  /\ (forall a, exists a1 a2 a3 a4 a5,
        enhance_contrast a = Ok a1
        /\ adjust_brightness a1 = Ok a2
        /\ correct_rotation a2 = Ok a3
        /\ reduce_noise a3 = Ok a4
        /\ sharpen_image a4 = Ok a5
        /\ stages a = Ok a5).
Proof.
  split; [|split].
  - exists (conditioned image). split; [apply preprocess_ok|].
    apply preprocess_family, preprocess_ok.
  - intros a. split; [|split; [|split; [|split]]].
    + exact (guarded_try enhance_contrast_body a).
    + exact (guarded_try adjust_brightness_body a).
    + exact (guarded_try correct_rotation_body a).
    + exact (guarded_try reduce_noise_body a).
    + exact (guarded_try sharpen_image_body a).
  - apply stages_run.
Qed.

End Claims.

(** ** The claims on the concrete environment *)

(** C1 (defect in the code).  The claim: on the fallback branch the
    secondary adapter receives the conditioned bitmap, as the primary
    adapter does.  The code passes [image], the bitmap as acquired, not
    [processed_image].  On the dark label of the concrete environment
    conditioning raises the brightness from 20 to 70, the primary
    confidence is 0.3, and the secondary adapter is invoked on the
    bitmap of brightness 20. *)
Theorem C1_secondary_adapter_gets_raw_image :
  _download_image (services := blurry_label) label_file = Ok raw_label
  /\ conditioned raw_label = Bitmap 3 70
  /\ confidence_score
       (tesseract_extraction (services := blurry_label)
          (conditioned raw_label))
     = lit 3 10
  /\ trace (snd (process_image (services := blurry_label) label_file None
                   fresh))
     = [CallTesseract (Bitmap 3 70); CallVision (Bitmap 3 20)]
  /\ conditioned raw_label <> raw_label.
Proof. vm_compute. repeat split; try reflexivity. discriminate. Qed.

(** ** The theorems at work on the concrete environment *)

Lemma demo_clock text conf client :
  SaneClock (services := demo_services text conf client).
Proof.
  intros n. eexists. split; [reflexivity|].
  apply Qabs_Qle_condition.
  change (2 ^ 62) with 4611686018427387904.
  unfold Qle, Qopp, inject_Z; cbn [Qnum Qden].
  split; lia.
Defined.

Lemma demo_contracts : ImagingContracts demo_imaging.
Proof.
  constructor; simpl.
  - intros img a [= <-]. reflexivity.
  - intros a img [= <-]. reflexivity.
  - intros a c b. destruct c; intros [= <-]; reflexivity.
  - intros a b [= <-]. reflexivity.
  - intros a b [= <-]. reflexivity.
  - intros a beta b. destruct (py_int beta); [|discriminate].
    intros [= <-]. reflexivity.
  - intros a angle b [= <-]. reflexivity.
  - intros a b. discriminate.
  - intros a b [= <-]. reflexivity.
Defined.

Lemma C3_witness :
  _download_image (services := blurry_label) label_file = Ok raw_label
  /\ vision_calls
       (trace (snd (process_image (services := blurry_label) label_file None
                      fresh)))
     = 1%nat.
Proof.
  split; [reflexivity|].
  exact (proj1 (C3_fallback_iff_low_confidence (services := blurry_label)
                  label_file None fresh raw_label eq_refl)).
Defined.

Lemma broken_quiet : quiet_rollback broken.
Proof. intros rows. reflexivity. Defined.


Lemma C5_witness :
  let out := Outcome true (Some "PESO: 2.5 kg"%string) (Some (Fin (5 # 2)))
               (lit 85 100) "tesseract" 1000 None in
  _extract_weight_from_text "PESO: 2.5 kg" = Some (Fin (5 # 2))
  /\ fst (process_image (services := clear_label) label_file None fresh)
     = Ok out
  /\ in_weight_range (Fin (5 # 2)) = true.
Proof.
  intros out.
  assert (Hparse : _extract_weight_from_text "PESO: 2.5 kg"
                   = Some (Fin (5 # 2)))
    by (vm_compute; reflexivity).
  assert (Hrun : fst (process_image (services := clear_label) label_file
                        None fresh) = Ok out)
    by (vm_compute; reflexivity).
  split; [exact Hparse|]. split; [exact Hrun|].
  pose proof (C5_weight_within_range (services := clear_label)
                "PESO: 2.5 kg" label_file None fresh) as C.
  destruct C as (Cparse & _ & _ & Crun).
  pose proof (Cparse _ Hparse) as _.
  exact (Crun out (Fin (5 # 2)) Hrun eq_refl).
Defined.





Lemma C8_witness :
  exists out,
    preprocess_image_for_ocr raw_label = Ok out
    /\ image_family out = image_family raw_label.
Proof.
  exact (proj1 (C8_conditioning_never_raises (contracts := demo_contracts)
                  raw_label)).
Defined.

Lemma C10_witness :
  let out := Outcome true (Some "PESO 2.567 kg"%string) (Some (lit 257 100))
               (lit 9 10) "tesseract" 1000 None in
  fst (process_image (services := precise_label) label_file None fresh)
  = Ok out
  /\ exists text parsed,
       out_text out = Some (strip text)
       /\ _extract_weight_from_text text = Some parsed
       /\ _validate_weight_value parsed = Some (lit 257 100)
       /\ lit 257 100 = round2 parsed.
Proof.
  intros out.
  assert (Hrun : fst (process_image (services := precise_label) label_file
                        None fresh) = Ok out)
    by (vm_compute; reflexivity).
  split; [exact Hrun|].
  exact (proj1 (C10_weight_rounded_on_return (services := precise_label)
                  label_file None fresh out (lit 257 100) Hrun eq_refl
                  eq_refl)).
Defined.

(** * Further properties of the code *)

Import DemoUtilities.

(** ** The weight parser *)

Section ParserFacts.

Local Open Scope string_scope.

Lemma pattern_shape pattern :
  In pattern (number_pattern :: weight_patterns) ->
  exists pre post,
    re_compile pattern = Some (pre ++ numeral_group ++ post)%list
    /\ group_free pre = true /\ group_free post = true.
Proof.
  intros Hin. simpl in Hin.
  destruct Hin as [<- | [<- | [<- | [<- | [<- | [<- | []]]]]]].
  - exists [Boundary], [Boundary]. repeat split.
  - exists [], [Atom Space Many0; Atom (Chr "k") Once; Atom (Chr "g") Once].
    repeat split.
  - exists [], [Atom Space Many0; Atom (Chr "k") Once]. repeat split.
  - exists [], [Atom Space Many0; Atom (Chr "g") Once]. repeat split.
  - exists [Atom (Chr "p") Once; Atom (Chr "e") Once; Atom (Chr "s") Once;
            Atom (Chr "o") Once; Atom Space Many0; Atom (Chr ":") Maybe;
            Atom Space Many0], [].
    repeat split.
  - exists [Atom (Chr "w") Once; Atom (Chr "e") Once; Atom (Chr "i") Once;
            Atom (Chr "g") Once; Atom (Chr "h") Once; Atom (Chr "t") Once;
            Atom Space Many0; Atom (Chr ":") Maybe; Atom Space Many0], [].
    repeat split.
Qed.

(** A part of the pattern without group marks only moves the cursor
    forward. *)
Lemma match_group_free_suffix pre re st r :
  group_free pre = true ->
  match_here (pre ++ re)%list st = Some r ->
  exists st' taken,
    match_here re st' = Some r /\ m_rest st = taken ++ m_rest st'.
Proof.
  revert st. induction pre as [|n pre IH]; intros st Hfree Hm.
  - exists st, "". split; [exact Hm|reflexivity].
  - simpl in Hfree. apply andb_true_iff in Hfree. destruct Hfree as [Hn Hfree].
    assert (Hstep : forall a s' st1,
               m_rest st = String a s' -> m_rest st1 = s' ->
               match_here (pre ++ re)%list st1 = Some r ->
               exists st' taken,
                 match_here re st' = Some r
                 /\ m_rest st = taken ++ m_rest st').
    { intros a s' st1 Es E1 Hm1.
      destruct (IH _ Hfree Hm1) as (st' & taken & Hk & Ht).
      exists st', (String a taken). split; [exact Hk|].
      rewrite Es. simpl. now rewrite <- Ht, E1. }
    assert (Hmany : forall s st1 c,
               m_rest st1 = s ->
               (exists lead, m_rest st = lead ++ s) ->
               many c (match_here (pre ++ re)%list) s st1 = Some r ->
               exists st' taken,
                 match_here re st' = Some r
                 /\ m_rest st = taken ++ m_rest st').
    { intros s st1 c E1 (lead & Hl) Hm1.
      apply many_inv in Hm1; [|exact E1].
      destruct Hm1 as (tk & st2 & Hs & _ & _ & _ & Hk).
      destruct (IH _ Hfree Hk) as (st' & taken & Hk' & Ht).
      exists st', (lead ++ tk ++ taken). split; [exact Hk'|].
      rewrite Hl, Hs, Ht, !append_assoc. reflexivity. }
    destruct n as [c q| | |]; try discriminate; simpl in Hm.
    + destruct q.
      * destruct (m_rest st) as [|a s'] eqn:Es; [discriminate|].
        destruct (mem c a); [|discriminate].
        apply (Hstep a s' (step_char a s' st) eq_refl eq_refl Hm).
      * assert (Hskip : match_here (pre ++ re)%list st = Some r ->
                  exists st' taken,
                    match_here re st' = Some r
                    /\ m_rest st = taken ++ m_rest st')
          by apply (IH _ Hfree).
        destruct (m_rest st) as [|a s'] eqn:Es; [exact (Hskip Hm)|].
        destruct (mem c a); [|exact (Hskip Hm)].
        destruct (match_here (pre ++ re)%list (step_char a s' st))
          as [r'|] eqn:Et; [|exact (Hskip Hm)].
        injection Hm as ->.
        apply (Hstep a s' (step_char a s' st) eq_refl eq_refl Et).
      * apply (Hmany (m_rest st) st c eq_refl); [|exact Hm].
        exists "". reflexivity.
      * destruct (m_rest st) as [|a s'] eqn:Es; [discriminate|].
        destruct (mem c a); [|discriminate].
        apply (Hmany s' (step_char a s' st) c eq_refl); [|exact Hm].
        exists (String a ""). reflexivity.
    + destruct (xorb _ _); [|discriminate].
      apply (IH _ Hfree) in Hm. exact Hm.
Qed.

Lemma digit_free_append a b :
  digit_free (a ++ b) = digit_free a && digit_free b.
Proof. apply all_chars_append. Qed.

(** Each of the six patterns matches only where a digit lies ahead. *)
Lemma match_needs_digit pre post st r :
  group_free pre = true ->
  match_here (pre ++ numeral_group ++ post)%list st = Some r ->
  digit_free (m_rest st) = false.
Proof.
  intros Hpre Hm.
  apply match_group_free_suffix in Hm; [|exact Hpre].
  destruct Hm as (st' & taken & Hm & Hrest).
  change (match_here
            (Atom Digit Many1 :: Atom (Chr ".") Maybe :: Atom Digit Many0
             :: GClose :: post)
            (MState (m_prev st') (m_rest st') (m_rest st') (m_group st'))
          = Some r) in Hm.
  apply many1_inv in Hm. destruct Hm as (d & s1 & Es & Ed & _).
  simpl in Es, Ed.
  rewrite Hrest, digit_free_append, Es. unfold digit_free at 2. simpl.
  rewrite Ed. simpl. apply andb_false_r.
Qed.

Lemma scan_digit_free re :
  (forall st r, match_here re st = Some r -> digit_free (m_rest st) = false) ->
  forall s prev skip, digit_free s = true -> scan re prev s skip = [].
Proof.
  intros Hre s. induction s as [|a s' IH]; intros prev skip Hfree.
  - destruct skip; simpl; [|reflexivity].
    destruct (match_here re _) as [r|] eqn:Em; [|reflexivity].
    apply Hre in Em. simpl in Em. discriminate.
  - assert (Hs' : digit_free s' = true).
    { unfold digit_free in Hfree. simpl in Hfree.
      apply andb_true_iff in Hfree. apply Hfree. }
    destruct skip; simpl; [|now apply IH].
    destruct (match_here re _) as [r|] eqn:Em; [|now apply IH].
    apply Hre in Em. simpl in Em. congruence.
Qed.

Lemma findall_digit_free pattern text :
  In pattern (number_pattern :: weight_patterns) ->
  digit_free text = true ->
  re_findall pattern text = [].
Proof.
  intros Hin Hfree.
  destruct (pattern_shape pattern Hin) as (pre & post & Hc & Hpre & _).
  unfold re_findall. rewrite Hc.
  apply scan_digit_free; [|exact Hfree].
  intros st r Hm. apply (match_needs_digit pre post st r Hpre Hm).
Qed.

Lemma map_chars_compose f g s :
  map_chars f (map_chars g s) = map_chars (fun c => f (g c)) s.
Proof. induction s as [|c s IH]; simpl; [reflexivity|now rewrite IH]. Qed.

Lemma map_chars_ext f g s :
  (forall c, f c = g c) -> map_chars f s = map_chars g s.
Proof.
  intros Hfg. induction s as [|c s IH]; simpl; [reflexivity|].
  now rewrite Hfg, IH.
Qed.

Lemma all_chars_map f g s :
  all_chars f (map_chars g s) = all_chars (fun c => f (g c)) s.
Proof. induction s as [|c s IH]; simpl; [reflexivity|now rewrite IH]. Qed.

Lemma all_chars_ext f g s :
  (forall c, f c = g c) -> all_chars f s = all_chars g s.
Proof.
  intros Hfg. induction s as [|c s IH]; simpl; [reflexivity|].
  now rewrite Hfg, IH.
Qed.

Ltac each_char c :=
  destruct c as [[] [] [] [] [] [] [] []]; reflexivity.

Lemma lower_char_digit c : is_digit (lower_char c) = is_digit c.
Proof. each_char c. Qed.

Lemma lower_char_idempotent c : lower_char (lower_char c) = lower_char c.
Proof. each_char c. Qed.

Lemma comma_to_point_digit c : is_digit (comma_to_point c) = is_digit c.
Proof. each_char c. Qed.

Lemma normalise_char_lower c :
  comma_to_point (lower_char (lower_char c)) = comma_to_point (lower_char c).
Proof. now rewrite lower_char_idempotent. Qed.

Lemma normalise_char_comma c :
  comma_to_point (lower_char (comma_to_point c))
  = comma_to_point (lower_char c).
Proof. each_char c. Qed.

Lemma normalise_chars text :
  normalise text = map_chars (fun c => comma_to_point (lower_char c)) text.
Proof.
  unfold normalise, replace_char, lower. rewrite map_chars_compose.
  reflexivity.
Qed.

Lemma normalise_digit_free text :
  digit_free (normalise text) = digit_free text.
Proof.
  rewrite normalise_chars. unfold digit_free. rewrite all_chars_map.
  apply all_chars_ext. intros c.
  now rewrite comma_to_point_digit, lower_char_digit.
Qed.

Lemma pattern_loop_no_match ps text :
  Forall (fun p => re_findall p text = []) ps ->
  pattern_loop ps text = None.
Proof.
  induction 1 as [|p ps Hp _ IH]; simpl; [reflexivity|].
  now rewrite Hp.
Qed.

(** X1.  A text without any digit, the empty text included, has no
    weight: the parser returns [None]. *)
Theorem X1_no_digit_no_weight text :
  digit_free text = true -> _extract_weight_from_text text = None.
Proof.
  intros Hfree. unfold _extract_weight_from_text. fold (normalise text).
  rewrite <- normalise_digit_free in Hfree.
  rewrite pattern_loop_no_match.
  - rewrite findall_digit_free; [reflexivity|now left|exact Hfree].
  - apply Forall_forall. intros p Hp.
    apply findall_digit_free; [now right|exact Hfree].
Qed.

Lemma X1_witness :
  digit_free "Some random text without weights" = true
  /\ _extract_weight_from_text "Some random text without weights" = None.
Proof.
  split; [reflexivity|].
  apply X1_no_digit_no_weight. reflexivity.
Defined.

(** X2.  The parser ignores letter case and reads a decimal comma as a
    decimal point: texts that agree once lowered give the same result,
    and lowering a text or replacing its commas by points changes
    nothing. *)
Theorem X2_case_and_comma_insensitive text :
  (forall text', lower text' = lower text ->
                 _extract_weight_from_text text'
                 = _extract_weight_from_text text)
  /\ _extract_weight_from_text (lower text) = _extract_weight_from_text text
  /\ _extract_weight_from_text (replace_char "," "." text)
     = _extract_weight_from_text text.
Proof.
  assert (Hn : forall a b, normalise a = normalise b ->
                           _extract_weight_from_text a
                           = _extract_weight_from_text b).
  { intros a b Hab. unfold _extract_weight_from_text.
    fold (normalise a) (normalise b). now rewrite Hab. }
  split; [|split].
  - intros text' Hl. apply Hn. unfold normalise. now rewrite Hl.
  - apply Hn. rewrite !normalise_chars. unfold lower.
    rewrite map_chars_compose. apply map_chars_ext.
    intros c. apply normalise_char_lower.
  - apply Hn. rewrite !normalise_chars.
    change (replace_char "," "." text) with (map_chars comma_to_point text).
    rewrite map_chars_compose. apply map_chars_ext.
    intros c. apply normalise_char_comma.
Qed.

Lemma X2_witness :
  lower "PESO: 2,5 KG" = lower "peso: 2,5 kg"
  /\ _extract_weight_from_text "PESO: 2,5 KG"
     = _extract_weight_from_text "peso: 2,5 kg".
Proof.
  split; [reflexivity|].
  apply (proj1 (X2_case_and_comma_insensitive "peso: 2,5 kg")).
  reflexivity.
Defined.

End ParserFacts.

(** ** Re-validation *)

Section ValidationFacts.

Lemma same_float_eq x y : same_float x y = true -> x = y.
Proof.
  destruct x as [[n d]| | |], y as [[n' d']| | |]; simpl;
    try discriminate; try reflexivity.
  intros Hs. apply andb_true_iff in Hs. destruct Hs as [Hn Hd].
  apply Z.eqb_eq in Hn. apply Pos.eqb_eq in Hd. now subst.
Qed.

Lemma round2_fixed_table : forallb round2_fixed (seq 10 4991) = true.
Proof. vm_compute. reflexivity. Qed.

Lemma round2_two_decimals w :
  in_weight_range w = true ->
  exists k, 10 <= k <= 5000 /\ round2 w = rnd64 (Qmake k 100).
Proof.
  intros Hr. destruct (in_weight_range_fin w Hr) as (q & -> & Hlo & Hhi).
  destruct q as [n d]. unfold Qle in Hlo, Hhi. simpl in Hlo, Hhi.
  exists (round_half_even (n * 100) (Z.pos d)). split; [|reflexivity].
  split.
  - apply round_half_even_lower; lia.
  - apply round_half_even_upper; lia.
Qed.

Lemma round2_idempotent_in_range w :
  in_weight_range w = true -> round2 (round2 w) = round2 w.
Proof.
  intros Hr. destruct (round2_two_decimals w Hr) as (k & Hk & ->).
  pose proof round2_fixed_table as T.
  rewrite forallb_forall in T.
  specialize (T (Z.to_nat k)). unfold round2_fixed in T.
  rewrite Z2Nat.id in T by lia.
  apply same_float_eq, T. apply in_seq. lia.
Qed.

(** X3.  Re-validation is idempotent: a weight that
    [_validate_weight_value] returned is returned unchanged when
    validated again; the weight it was given and the weight it returned
    both lie in [0.1, 50.0]. *)
Theorem X3_validation_idempotent w w' :
  _validate_weight_value w = Some w' ->
  _validate_weight_value w' = Some w'
  /\ in_weight_range w = true /\ in_weight_range w' = true.
Proof.
  unfold _validate_weight_value.
  destruct (in_weight_range w) eqn:Hr; [|discriminate].
  intros [= <-].
  rewrite (round2_in_range w Hr), (round2_idempotent_in_range w Hr).
  repeat split.
Qed.

Lemma X3_witness :
  _validate_weight_value (lit 256789 100000) = Some (lit 257 100)
  /\ _validate_weight_value (lit 257 100) = Some (lit 257 100).
Proof.
  assert (H : _validate_weight_value (lit 256789 100000) = Some (lit 257 100))
    by (vm_compute; reflexivity).
  split; [exact H|].
  exact (proj1 (X3_validation_idempotent _ _ H)).
Defined.

End ValidationFacts.

(** ** One run of the service, in full *)

Section RunFacts.

Context {Image ndarray line : Type}
        {imaging : Imaging Image ndarray line}
        {services : Collaborators Image ndarray}.


(** X4.  Each run invokes the primary adapter exactly once, on the
    conditioned bitmap, provided the image was acquired, and the
    secondary adapter only after it; a run whose acquisition fails
    invokes no adapter at all. *)
Theorem X4_adapters_called_in_order url rid (w : world (Image := Image)) :
  adapter_calls (trace (snd (process_image url rid w)))
  = adapter_calls (trace w)
    ++ match _download_image url with
       | Ok image =>
           CallTesseract (conditioned image) ::
           (if flt (confidence_score
                      (tesseract_extraction (conditioned image)))
                   (lit 7 10)
            then [CallVision image] else [])
       | Raise _ => []
       end.
Proof.
  rewrite (proj2 (run_calls url rid w)).
  destruct (_download_image url) as [image|e]; [|reflexivity].
  unfold run_adapter_calls. rewrite flt_negb_fge.
  - destruct (fge _ _); reflexivity.
  - apply tesseract_confidence_not_nan.
  - vm_compute. discriminate.
Qed.


End RunFacts.


(** ** Confidence and arbitration *)

Section ConfidenceFacts.

Context {Image ndarray line : Type}
        {imaging : Imaging Image ndarray line}
        {services : Collaborators Image ndarray}.

Lemma dyadic_nonneg m ex : 0 <= m -> (0 <= dyadic m ex)%Q.
Proof.
  intros Hm. unfold dyadic. destruct (0 <=? ex) eqn:E.
  - apply Z.leb_le in E. unfold Qle. simpl.
    assert (0 <= 2 ^ ex) by (apply Z.pow_nonneg; lia). nia.
  - rewrite Qred_correct. unfold Qle. simpl. lia.
Qed.

Lemma rnd_pos_nonneg n d :
  0 < n -> 0 < d -> fle (Fin 0) (rnd_pos n d) = true.
Proof.
  intros Hn Hd. unfold rnd_pos.
  set (ex := Z.max (floor_log2 n d - 52) (- 1074)).
  destruct ((0 <=? ex) && _)%bool; [reflexivity|].
  simpl. apply Qle_bool_iff. apply dyadic_nonneg.
  destruct (0 <=? ex) eqn:E.
  - apply Z.leb_le in E.
    assert (0 < 2 ^ ex) by (apply Z.pow_pos_nonneg; lia).
    apply round_half_even_lower; nia.
  - apply Z.leb_gt in E.
    assert (0 < 2 ^ (- ex)) by (apply Z.pow_pos_nonneg; lia).
    apply round_half_even_lower; nia.
Qed.

Lemma rnd64_nonneg q : (0 <= q)%Q -> fle (Fin 0) (rnd64 q) = true.
Proof.
  destruct q as [n d]. unfold Qle, rnd64. simpl. intros Hq.
  destruct n as [|n|n]; [reflexivity| |lia].
  apply rnd_pos_nonneg; lia.
Qed.

(** Rounding does not cross an integer below [2^52]. *)
Lemma rnd_pos_le_int n d c :
  0 < n -> 0 < d -> 0 < c <= 2 ^ 52 -> n <= c * d ->
  exists q, rnd_pos n d = Fin q /\ (0 <= q)%Q /\ (q <= inject_Z c)%Q.
Proof.
  intros Hn Hd Hc Hle. unfold rnd_pos.
  assert (He : floor_log2 n d <= 52) by (apply floor_log2_le; nia).
  set (e := floor_log2 n d) in *.
  set (ex := Z.max (e - 52) (- 1074)).
  assert (Hex : ex <= 0) by lia.
  destruct (0 <=? ex) eqn:Epos.
  - apply Z.leb_le in Epos.
    assert (E0 : ex = 0) by lia. rewrite E0.
    change (2 ^ 0) with 1.
    set (m := round_half_even n (d * 1)).
    assert (Hm0 : 0 <= m) by (apply round_half_even_lower; nia).
    assert (Hm1 : m <= c) by (apply round_half_even_upper; nia).
    assert (Hlt : 2 ^ 52 < 2 ^ 1024) by (apply Z.pow_lt_mono_r; lia).
    replace (2 ^ 1024 <=? m * 1) with false
      by (symmetry; apply Z.leb_gt; lia).
    simpl. exists (dyadic m 0). split; [reflexivity|].
    unfold dyadic, Qle. simpl. lia.
  - apply Z.leb_gt in Epos. simpl.
    set (m := round_half_even (n * 2 ^ (- ex)) d).
    assert (Hp : 0 < 2 ^ (- ex)) by (apply Z.pow_pos_nonneg; lia).
    assert (Hm0 : 0 <= m) by (apply round_half_even_lower; nia).
    assert (Hm1 : m <= c * 2 ^ (- ex))
      by (apply round_half_even_upper; nia).
    exists (dyadic m ex). split; [reflexivity|].
    unfold dyadic. replace (0 <=? ex) with false by (symmetry; now apply Z.leb_gt).
    rewrite !Qred_correct. unfold Qle. simpl.
    rewrite Z2Pos.id by lia. nia.
Qed.

Lemma rnd64_le_int q c :
  0 < c <= 2 ^ 52 -> (0 <= q)%Q -> (q <= inject_Z c)%Q ->
  exists q', rnd64 q = Fin q' /\ (0 <= q')%Q /\ (q' <= inject_Z c)%Q.
Proof.
  intros Hc H0 H1. destruct q as [n d]. unfold Qle in H0, H1.
  simpl in H0, H1. unfold rnd64. simpl.
  destruct n as [|n|n]; [|apply rnd_pos_le_int; lia|lia].
  exists 0%Q. split; [reflexivity|]. unfold Qle. simpl. lia.
Qed.

Lemma flt_trans x y z :
  flt x y = true -> flt y z = true -> flt x z = true.
Proof.
  destruct x as [a| | |], y as [b| | |], z as [c| | |]; simpl;
    try congruence.
  intros Hab Hbc. apply negb_true_iff in Hab, Hbc. apply negb_true_iff.
  destruct (Qle_bool c a) eqn:E; [|reflexivity].
  apply Qle_bool_iff in E.
  assert (Hba : ~ (b <= a)%Q)
    by (intros H; apply Qle_bool_iff in H; congruence).
  assert (Hcb : ~ (c <= b)%Q)
    by (intros H; apply Qle_bool_iff in H; congruence).
  apply Qnot_le_lt in Hba, Hcb.
  exfalso. apply (Qlt_irrefl a).
  apply Qlt_le_trans with c; [|exact E].
  now apply Qlt_trans with b.
Qed.

Lemma sum_from l acc : fold_left Z.add l acc = acc + sum l.
Proof.
  unfold sum. revert acc.
  induction l as [|x l IH]; intros acc; simpl; [lia|].
  rewrite IH, (IH x). lia.
Qed.

Lemma sum_cons x l : sum (x :: l) = x + sum l.
Proof. unfold sum at 1. simpl. apply sum_from. Qed.

Lemma sum_positive l :
  Forall (fun c => 0 < c) l -> l <> [] -> 0 < sum l.
Proof.
  induction 1 as [|x l Hx Hl IH]; [congruence|]. intros _.
  rewrite sum_cons. destruct l as [|y l]; [unfold sum; simpl; lia|].
  assert (0 < sum (y :: l)) by (apply IH; discriminate). lia.
Qed.

Lemma sum_at_most l c :
  Forall (fun x => x <= c) l -> sum l <= c * Z.of_nat (List.length l).
Proof.
  induction 1 as [|x l Hx Hl IH]; [unfold sum; simpl; lia|].
  rewrite sum_cons. cbn [List.length]. lia.
Qed.

(** The primary adapter's confidence is a mean of positive readings
    divided by 100, or 0.0: it is never negative, and never above 1 when
    no reading is above 100. *)
Lemma tesseract_confidence_range (image : Image) :
  fle (Fin 0) (confidence_score (tesseract_extraction image)) = true
  /\ (TesseractContract ->
      fle (confidence_score (tesseract_extraction image)) (Fin 1) = true).
Proof.
  unfold tesseract_extraction, _extract_with_tesseract_body.
  destruct (np_array image) as [a0|]; simpl; [|split; reflexivity].
  destruct (if Nat.eqb (ndim a0) 3 then cvtColor a0 COLOR_RGB2GRAY
            else Ok a0) as [a|]; simpl; [|split; reflexivity].
  destruct (image_to_string a) as [text|]; simpl; [|split; reflexivity].
  destruct (image_to_data_conf a) as [conf|] eqn:Econf; simpl;
    [|split; reflexivity].
  set (cs := filter (fun c => 0 <? c) conf).
  assert (Hpos : Forall (fun c => 0 < c) cs).
  { apply Forall_forall. intros c Hc. apply filter_In in Hc.
    now apply Z.ltb_lt. }
  assert (Hsub : forall c, In c cs -> In c conf)
    by (intros c Hc; now apply filter_In in Hc).
  clearbody cs.
  destruct cs as [|c0 cs']; [split; reflexivity|].
  assert (Hne : c0 :: cs' <> []) by discriminate.
  set (cs := c0 :: cs') in *. clearbody cs. cbv beta iota.
  assert (Hlen : (0 < List.length cs)%nat)
    by (destruct cs; [congruence|simpl; lia]).
  pose proof (sum_positive cs Hpos Hne) as Hsum.
  unfold int_truediv.
  assert (Hmean : rnd64 (sum cs # Pos.of_nat (List.length cs))
                  = rnd_pos (sum cs) (Z.pos (Pos.of_nat (List.length cs)))).
  { unfold rnd64. simpl. destruct (sum cs); try lia. reflexivity. }
  rewrite Hmean.
  pose proof (rnd_pos_nonneg (sum cs) (Z.pos (Pos.of_nat (List.length cs)))
                Hsum ltac:(lia)) as Hm0.
  split.
  - destruct (rnd_pos _ _) as [q| | |]; simpl; try reflexivity.
    apply rnd64_nonneg. simpl in Hm0. apply Qle_bool_iff in Hm0.
    unfold Qdiv. apply Qmult_le_0_compat; [exact Hm0|].
    unfold Qle. simpl. lia.
  - intros contract.
    assert (Hall : Forall (fun c => c <= 100) cs).
    { apply Forall_forall. intros c Hc. apply Hsub in Hc.
      pose proof (conf_at_most_100 a conf Econf) as Hc100.
      rewrite Forall_forall in Hc100. now apply Hc100. }
    pose proof (sum_at_most cs 100 Hall) as Hle.
    assert (Hden : sum cs <= 100 * Z.pos (Pos.of_nat (List.length cs))).
    { rewrite <- (Nat2Pos.id (List.length cs)) in Hle at 1 by lia.
      rewrite positive_nat_Z in Hle. lia. }
    destruct (rnd_pos_le_int (sum cs) (Z.pos (Pos.of_nat (List.length cs)))
                100 Hsum ltac:(lia) ltac:(lia) Hden) as (q & -> & Hq0 & Hq1).
    assert (H0 : (0 <= q / inject_Z 100)%Q).
    { unfold Qdiv. apply Qmult_le_0_compat; [exact Hq0|].
      unfold Qle. simpl. lia. }
    assert (H1 : (q / inject_Z 100 <= inject_Z 1)%Q).
    { apply Qle_shift_div_r; [reflexivity|].
      rewrite Qmult_1_l. exact Hq1. }
    cbn [rbind fdiv_pos confidence_score].
    destruct (rnd64_le_int (q / inject_Z 100) 1 ltac:(lia) H0 H1)
      as (q' & Hq' & _ & Hq'1).
    change (inject_Z (Z.pos 100)) with (inject_Z 100).
    rewrite Hq'. simpl. now apply Qle_bool_iff.
Qed.

(** The secondary adapter's dict is the empty one, or carries the fixed
    confidence 0.85. *)
Lemma vision_confidence_fixed (image : Image) :
  vision_extraction image = empty_extraction "google_vision"
  \/ confidence_score (vision_extraction image) = lit 85 100.
Proof.
  unfold vision_extraction.
  destruct vision_client as [text_detection|]; [|now left].
  unfold _extract_with_google_vision_body.
  destruct (save_png image) as [png|]; simpl; [|now left].
  destruct (text_detection png) as [response|]; simpl; [|now left].
  destruct (String.eqb (error_message response) ""); simpl; [|now left].
  destruct (text_annotations response); [now left|now right].
Qed.

(** X6.  On the fallback branch the secondary result displaces the
    primary one exactly when it carries text: a secondary dict with the
    fixed confidence 0.85 always wins over a primary confidence below
    0.7, and the empty secondary dict (no client, an error, no
    annotation) never wins, not even over a primary adapter that failed
    and reports 0.0, so the engine reported is then [tesseract]. *)
Theorem X6_secondary_wins_only_with_text (image : Image) :
  let primary := tesseract_extraction (conditioned image) in
  let secondary := vision_extraction image in
  (secondary = empty_extraction "google_vision"
   \/ confidence_score secondary = lit 85 100)
  /\ (flt (confidence_score primary) (lit 7 10) = true ->
      confidence_score secondary = lit 85 100 ->
      arbitrate image = secondary)
  /\ (secondary = empty_extraction "google_vision" ->
      arbitrate image = primary).
Proof.
  intros primary secondary. split; [apply vision_confidence_fixed|].
  unfold arbitrate. fold primary secondary. split.
  - intros Hlow Hconf. rewrite (flt_not_fge _ _ Hlow).
    unfold fgt. rewrite Hconf.
    rewrite (flt_trans _ (lit 7 10) _ Hlow); [reflexivity|].
    vm_compute. reflexivity.
  - intros Hempty. destruct (fge _ _); [reflexivity|].
    rewrite Hempty. unfold fgt. simpl confidence_score.
    rewrite (fle_not_flt (Fin 0) (confidence_score primary));
      [reflexivity|].
    apply tesseract_confidence_range.
Qed.

(** X7.  The confidence in the dict [process_image] returns is never
    negative, and it is at most 1 as long as Tesseract reports no
    confidence above 100. *)
Theorem X7_confidence_between_0_and_1 url rid (w : world (Image := Image))
    out :
  fst (process_image url rid w) = Ok out ->
  fle (Fin 0) (out_confidence out) = true
  /\ (TesseractContract -> fle (out_confidence out) (Fin 1) = true).
Proof.
  intros Hrun.
  destruct (run_inversion url rid w out Hrun)
    as [(image & ms & _ & ->)|(e & ms & ->)]; [|split; reflexivity].
  cbn [success_outcome out_confidence].
  pose proof (tesseract_confidence_range (conditioned image)) as [Hp0 Hp1].
  unfold arbitrate.
  destruct (fge _ _); [split; assumption|].
  destruct (fgt _ _); [|split; assumption].
  destruct (vision_confidence_fixed image) as [-> | ->].
  - split; reflexivity.
  - split; [|intros _]; vm_compute; reflexivity.
Qed.

(** X8.  With a sane clock and a log step that cannot raise (no
    registration id, or a rollback that does not raise), every run
    returns a dict, and [success] is true exactly when the image was
    acquired: what the engines do has no part in it.  When the primary
    adapter raises inside and there is no secondary client, the run
    still reports success, with empty text, no weight, confidence 0.0
    and engine [tesseract].  On any session, a dict with [success] true
    is returned only for an acquired image. *)
Theorem X8_success_iff_acquired {clock : SaneClock} url rid
    (w : world (Image := Image)) :
  (quiet_logging rid w ->
   exists out,
     fst (process_image url rid w) = Ok out
     /\ (success out = true <-> exists image, _download_image url = Ok image)
     /\ (success out = true <-> error out = None)
     /\ (forall image e,
           _download_image url = Ok image ->
           _extract_with_tesseract_body (conditioned image) = Raise e ->
           vision_client = None ->
           out = Outcome true (Some ""%string) None (Fin 0) "tesseract"
                   (processing_time_ms out) None))
  /\ (forall out,
        fst (process_image url rid w) = Ok out ->
        success out = true ->
        exists image, _download_image url = Ok image).
Proof.
  split.
  - intros Hq. destruct (run_quiet url rid w Hq) as (ms & Hrun).
    eexists. split; [exact Hrun|].
    destruct (_download_image url) as [image|e].
    + split; [|split].
      * split; [intros _; now exists image|reflexivity].
      * split; reflexivity.
      * intros image' e [= <-] Hraise Hclient.
        unfold success_outcome, arbitrate, tesseract_extraction,
          vision_extraction.
        rewrite Hraise, Hclient. reflexivity.
    + split; [|split].
      * split; [discriminate|intros (image & H); discriminate].
      * split; discriminate.
      * discriminate.
  - intros out Hrun Hs.
    destruct (success_inversion url rid w out Hrun Hs) as (image & Hd & _).
    now exists image.
Qed.

End ConfidenceFacts.

Lemma demo_readings : TesseractContract (services := clear_label).
Proof.
  intros a conf [= <-]. repeat constructor; lia.
Qed.


Lemma X6_witness :
  flt (confidence_score
         (tesseract_extraction (services := blurry_label)
            (conditioned raw_label)))
      (lit 7 10) = true
  /\ arbitrate (services := blurry_label) raw_label
     = vision_extraction (services := blurry_label) raw_label.
Proof.
  assert (Hlow : flt (confidence_score
                        (tesseract_extraction (services := blurry_label)
                           (conditioned raw_label)))
                     (lit 7 10) = true)
    by (vm_compute; reflexivity).
  split; [exact Hlow|].
  apply (proj1 (proj2 (X6_secondary_wins_only_with_text
                         (services := blurry_label) raw_label)));
    [exact Hlow|].
  vm_compute. reflexivity.
Defined.

Lemma X7_witness :
  let out := Outcome true (Some "PESO: 2.5 kg"%string) (Some (Fin (5 # 2)))
               (lit 85 100) "tesseract" 1000 None in
  fst (process_image (services := clear_label) label_file None fresh)
  = Ok out
  /\ fle (Fin 0) (lit 85 100) = true
  /\ fle (lit 85 100) (Fin 1) = true.
Proof.
  intros out.
  assert (Hrun : fst (process_image (services := clear_label) label_file
                        None fresh) = Ok out)
    by (vm_compute; reflexivity).
  destruct (X7_confidence_between_0_and_1 (services := clear_label)
              label_file None fresh out Hrun) as [H0 H1].
  split; [exact Hrun|]. split; [exact H0|exact (H1 demo_readings)].
Defined.

Lemma X8_witness :
  exists out,
    fst (process_image (services := clear_label) remote_file
           (Some "reg-1"%string) broken)
    = Ok out
    /\ success out = false.
Proof.
  destruct (proj1 (X8_success_iff_acquired (services := clear_label)
                     (clock := demo_clock _ _ _) remote_file
                     (Some "reg-1"%string) broken)
              (or_intror broken_quiet))
    as (out & Hrun & Hiff & _).
  exists out. split; [exact Hrun|].
  destruct (success out); [|reflexivity].
  destruct (proj1 Hiff eq_refl) as (image & Himage).
  discriminate Himage.
Defined.

(** ** The image utilities outside the pipeline *)

Section UtilityFacts.

Context {Image ndarray line : Type}
        {imaging : Imaging Image ndarray line}
        {utilities : Utilities ndarray}.

Lemma default_height_table : forallb default_height_ok (seq 1 299) = true.
Proof. vm_compute. reflexivity. Qed.

Lemma default_height h :
  0 < h < 300 ->
  exists scale_factor fh,
    py_truediv 300 h = Ok scale_factor
    /\ int_times_float h scale_factor = Ok fh
    /\ py_int fh = Ok (default_new_height h).
Proof.
  intros Hh.
  pose proof default_height_table as T.
  rewrite forallb_forall in T.
  specialize (T (Z.to_nat h)).
  unfold default_height_ok in T. rewrite Z2Nat.id in T by lia.
  assert (Hin : In (Z.to_nat h) (seq 1 299)) by (apply in_seq; lia).
  specialize (T Hin).
  destruct (py_truediv 300 h) as [scale_factor|]; [|discriminate].
  destruct (int_times_float h scale_factor) as [fh|] eqn:Efh;
    [|discriminate].
  destruct (py_int fh) as [new_h|] eqn:Enh; [|discriminate].
  apply Z.eqb_eq in T. subst new_h.
  exists scale_factor, fh. split; [reflexivity|]. split; assumption.
Qed.

(** The scale factor of an upscaling to 300 rows lies between 0 and
    300. *)
Lemma default_scale_factor h scale_factor :
  0 < h -> py_truediv 300 h = Ok scale_factor ->
  exists q, scale_factor = Fin q /\ (0 <= q)%Q /\ (q <= inject_Z 300)%Q.
Proof.
  intros Hh. unfold py_truediv.
  replace (h =? 0) with false by (symmetry; apply Z.eqb_neq; lia).
  assert (H0 : (0 <= inject_Z 300 / inject_Z h)%Q).
  { apply Qle_shift_div_l; [unfold Qlt; simpl; lia|].
    unfold Qle. simpl. lia. }
  assert (H1 : (inject_Z 300 / inject_Z h <= inject_Z 300)%Q).
  { apply Qle_shift_div_r; [unfold Qlt; simpl; lia|].
    unfold Qle, Qmult, inject_Z. cbn [Qnum Qden]. lia. }
  destruct (rnd64_le_int (inject_Z 300 / inject_Z h) 300 ltac:(lia) H0 H1)
    as (q & -> & Hq0 & Hq1).
  intros [= <-]. now exists q.
Qed.

(** [int(w * scale_factor)] for a width that fits in 62 bits. *)
Lemma scaled_width w q :
  0 <= w <= 2 ^ 62 -> (0 <= q)%Q -> (q <= inject_Z 300)%Q ->
  exists fw new_w,
    int_times_float w (Fin q) = Ok fw
    /\ py_int fw = Ok new_w /\ 0 <= new_w.
Proof.
  intros Hw Hq0 Hq1. unfold int_times_float, float_of_int.
  assert (Hw' : (Qabs (inject_Z w) <= inject_Z (2 ^ 62))%Q).
  { rewrite Qabs_pos; unfold Qle; simpl; lia. }
  destruct (rnd64_bounded (inject_Z w) 62 ltac:(lia) Hw') as (fq & Hfq & Hb).
  pose proof (rnd64_nonneg (inject_Z w)) as Hn.
  rewrite Hfq in Hn |- *. simpl in Hn |- *.
  assert (Hfq0 : (0 <= fq)%Q)
    by (apply Qle_bool_iff, Hn; unfold Qle; simpl; lia).
  rewrite Qabs_pos in Hb by exact Hfq0.
  assert (Hp0 : (0 <= fq * q)%Q) by now apply Qmult_le_0_compat.
  assert (Hp1 : (Qabs (fq * q) <= inject_Z (2 ^ 71))%Q).
  { rewrite Qabs_pos by exact Hp0.
    apply Qle_trans with (inject_Z (2 ^ 62) * inject_Z 300)%Q.
    - apply Qle_trans with (fq * inject_Z 300)%Q.
      + rewrite !(Qmult_comm fq). apply Qmult_le_compat_r; assumption.
      + apply Qmult_le_compat_r; [exact Hb|]. unfold Qle. simpl. lia.
    - unfold Qle. simpl. lia. }
  destruct (rnd64_bounded (fq * q) 71 ltac:(lia) Hp1) as (p & Hp & _).
  pose proof (rnd64_nonneg (fq * q) Hp0) as Hpn.
  rewrite Hp in Hpn |- *. simpl in Hpn.
  exists (Fin p), (Z.quot (Qnum p) (Z.pos (Qden p))).
  split; [reflexivity|]. split; [reflexivity|].
  apply Qle_bool_iff in Hpn. unfold Qle in Hpn. simpl in Hpn.
  apply Z.quot_pos; lia.
Qed.

(** X9.  [resize_for_ocr] never raises.  It hands back the very array it
    was given when the image already has [min_height] rows, when it has
    no rows at all (the division by zero is swallowed), and whenever
    anything inside raises; a different array can only be what
    [cv2.resize] returned for the computed size. *)
Theorem X9_resize_never_raises (image : ndarray) min_height :
  exists out,
    resize_for_ocr image min_height = Ok out
    /\ (forall h w, shape_hw image = Ok (h, w) ->
                    min_height <= h \/ h = 0 -> out = image)
    /\ (forall e, shape_hw image = Raise e -> out = image)
    /\ (out <> image ->
        exists h w new_w new_h,
          shape_hw image = Ok (h, w)
          /\ h < min_height
          /\ upscaled_size h w min_height = Ok (new_w, new_h)
          /\ cv2_resize image new_w new_h = Ok out).
Proof.
  unfold resize_for_ocr, resize_for_ocr_body, try_except.
  destruct (shape_hw image) as [[h w]|e] eqn:Eshape; simpl.
  - destruct (h <? min_height) eqn:Elt.
    + apply Z.ltb_lt in Elt.
      destruct (upscaled_size h w min_height) as [[new_w new_h]|e] eqn:Eup;
        simpl.
      * destruct (cv2_resize image new_w new_h) as [b|e] eqn:Ecv.
        -- exists b. split; [reflexivity|]. split; [|split].
           ++ intros h' w' [= <- <-] [Hge|H0]; [lia|].
              subst h. unfold upscaled_size, py_truediv in Eup.
              simpl in Eup. discriminate.
           ++ discriminate.
           ++ intros _. exists h, w, new_w, new_h. repeat split; assumption.
        -- exists image. split; [reflexivity|].
           split; [reflexivity|]. split; [reflexivity|congruence].
      * exists image. split; [reflexivity|].
        split; [reflexivity|]. split; [reflexivity|congruence].
    + exists image. split; [reflexivity|].
      split; [reflexivity|]. split; [reflexivity|congruence].
  - exists image. split; [reflexivity|].
    split; [discriminate|]. split; [reflexivity|congruence].
Qed.

(** X10.  With the default [min_height] of 300, an image of [h] rows,
    [0 < h < 300], is resized to exactly 300 rows, except for [h = 281]
    and [h = 291]: there [h * (300 / h)] rounds to a float just below
    300, [int] truncates it, and the image is resized to 299 rows, still
    short of the minimum.  The computation of the size never fails for a
    width that fits in 62 bits. *)
Theorem X10_default_upscale_height h w :
  0 < h < 300 -> 0 <= w <= 2 ^ 62 ->
  exists new_w,
    upscaled_size h w 300 = Ok (new_w, default_new_height h)
    /\ 0 <= new_w
    /\ forall image : ndarray,
         shape_hw image = Ok (h, w) ->
         resize_for_ocr image 300
         = try_except (cv2_resize image new_w (default_new_height h))
             (fun _ => Ok image).
Proof.
  intros Hh Hw.
  destruct (default_height h Hh) as (scale_factor & fh & Hsf & Hfh & Hnh).
  destruct (default_scale_factor h scale_factor ltac:(lia) Hsf)
    as (q & -> & Hq0 & Hq1).
  destruct (scaled_width w q Hw Hq0 Hq1) as (fw & new_w & Hfw & Hnw & Hpos).
  assert (Hup : upscaled_size h w 300 = Ok (new_w, default_new_height h)).
  { unfold upscaled_size. rewrite Hsf. simpl.
    rewrite Hfw. simpl. rewrite Hnw. simpl.
    rewrite Hfh. simpl. rewrite Hnh. reflexivity. }
  exists new_w. split; [exact Hup|]. split; [exact Hpos|].
  intros image Hshape.
  unfold resize_for_ocr, resize_for_ocr_body. rewrite Hshape. simpl.
  replace (h <? 300) with true by (symmetry; apply Z.ltb_lt; lia).
  rewrite Hup. reflexivity.
Qed.

(** X11.  [convert_to_binary] never raises: when anything inside raises
    it hands back its input, colour and unthresholded.  Otherwise (the
    libraries keeping their documented shapes) the result has two
    dimensions for a three-dimensional input and the dimensions of the
    input otherwise.  Any method name other than [adaptive] and [otsu]
    selects the fixed threshold. *)
Theorem X11_binary_never_raises
    {contracts : ImagingContracts imaging}
    {shapes : UtilitiesContracts imaging utilities}
    (image : ndarray) method :
  (exists out,
      convert_to_binary image method = Ok out
      /\ (convert_to_binary_body image method = Ok out
          /\ ndim out = (if Nat.eqb (ndim image) 3 then 2%nat
                         else ndim image)
          \/ (exists e, convert_to_binary_body image method = Raise e)
             /\ out = image))
  /\ (method <> "adaptive"%string -> method <> "otsu"%string ->
      convert_to_binary image method = convert_to_binary image "fixed").
Proof.
  split.
  - unfold convert_to_binary, try_except.
    destruct (convert_to_binary_body image method) as [out|e] eqn:Eb.
    + exists out. split; [reflexivity|]. left. split; [reflexivity|].
      unfold convert_to_binary_body, to_gray in Eb.
      assert (Hgray : forall gray,
                 (if Nat.eqb (ndim image) 3
                  then cvtColor image COLOR_BGR2GRAY
                  else ndarray_copy image) = Ok gray ->
                 ndim gray = (if Nat.eqb (ndim image) 3 then 2%nat
                              else ndim image)).
      { intros gray. destruct (Nat.eqb (ndim image) 3).
        - intros Hc. now rewrite (cvtColor_ndim _ _ _ Hc).
        - apply copy_ndim. }
      destruct (if Nat.eqb (ndim image) 3 then cvtColor image COLOR_BGR2GRAY
                else ndarray_copy image) as [gray|]; [|discriminate].
      specialize (Hgray gray eq_refl). simpl in Eb.
      rewrite <- Hgray.
      destruct (String.eqb method "adaptive");
        [now apply adaptiveThreshold_ndim|].
      destruct (String.eqb method "otsu");
        [now apply threshold_otsu_ndim|now apply threshold_fixed_ndim].
    + exists image. split; [reflexivity|]. right.
      split; [now exists e|reflexivity].
  - intros Ha Ho. unfold convert_to_binary, convert_to_binary_body.
    apply String.eqb_neq in Ha, Ho. rewrite Ha, Ho. reflexivity.
Qed.

End UtilityFacts.

Lemma demo_utilities_contracts : UtilitiesContracts demo_imaging demo_utilities.
Proof. split; intros a b [= <-]; reflexivity. Qed.

Lemma X9_witness :
  shape_hw (Bitmap 2 0) = Ok (0, 100)
  /\ resize_for_ocr (Bitmap 2 0) 300 = Ok (Bitmap 2 0).
Proof.
  split; [reflexivity|].
  destruct (X9_resize_never_raises (utilities := demo_utilities)
              (Bitmap 2 0) 300) as (out & Hrun & Hsame & _).
  rewrite Hrun. f_equal.
  apply (Hsame 0 100); [reflexivity|now right].
Defined.

Lemma X10_witness :
  default_new_height 281 = 299
  /\ exists new_w,
       upscaled_size 281 100 300 = Ok (new_w, 299)
       /\ resize_for_ocr (Bitmap 2 281) 300 = Ok (Bitmap 2 299).
Proof.
  split; [reflexivity|].
  destruct (X10_default_upscale_height (utilities := demo_utilities)
              281 100 ltac:(lia) ltac:(lia)) as (new_w & Hup & _ & Hrun).
  exists new_w. split; [exact Hup|].
  rewrite (Hrun (Bitmap 2 281) eq_refl). reflexivity.
Defined.

Lemma X11_witness :
  exists out,
    convert_to_binary (Bitmap 3 20) "sauvola" = Ok out
    /\ ndim out = 2%nat
    /\ convert_to_binary (Bitmap 3 20) "sauvola"
       = convert_to_binary (Bitmap 3 20) "fixed".
Proof.
  destruct (X11_binary_never_raises (contracts := demo_contracts)
              (shapes := demo_utilities_contracts) (Bitmap 3 20) "sauvola")
    as ((out & Hrun & Hshape) & Hfixed).
  exists out. split; [exact Hrun|]. split.
  - destruct Hshape as [[_ Hdim]|[(e & He) _]]; [exact Hdim|].
    discriminate He.
  - apply Hfixed; discriminate.
Defined.

(** ** The checks of the route *)

Section FileNameFacts.

Local Open Scope string_scope.

Lemma contains_dot_cons c s :
  contains "." (String c s) = Ascii.eqb c "." || contains "." s.
Proof.
  cbn [contains String.prefix].
  destruct (ascii_dec "." c) as [Heq|Hne].
  - subst c. rewrite Ascii.eqb_refl. now destruct s.
  - replace (Ascii.eqb c ".") with false; [reflexivity|].
    symmetry. apply Ascii.eqb_neq. congruence.
Qed.

Lemma rsplit1_no_dot s : contains "." s = false -> rsplit1 "." s = [s].
Proof.
  induction s as [|c s IH]; [reflexivity|].
  rewrite contains_dot_cons. intros H. apply orb_false_iff in H.
  destruct H as [Hc Hs]. cbn [rsplit1]. rewrite (IH Hs), Hc. reflexivity.
Qed.

Lemma contains_dot_append head tail :
  contains "." (head ++ String "." tail) = true.
Proof.
  induction head as [|c head IH]; cbn [append].
  - rewrite contains_dot_cons. reflexivity.
  - rewrite contains_dot_cons, IH. apply orb_true_r.
Qed.

(** The split is at the last point. *)
Lemma rsplit1_last head tail :
  contains "." tail = false ->
  rsplit1 "." (head ++ String "." tail) = [head; tail].
Proof.
  intros Htail. induction head as [|c head IH]; cbn [append rsplit1].
  - now rewrite (rsplit1_no_dot tail Htail).
  - now rewrite IH.
Qed.

Lemma rsplit1_dot s :
  contains "." s = true ->
  exists head tail,
    s = head ++ String "." tail /\ contains "." tail = false.
Proof.
  induction s as [|c s IH]; [discriminate|].
  rewrite contains_dot_cons.
  destruct (contains "." s) eqn:Hs.
  - intros _. destruct (IH eq_refl) as (head & tail & -> & Htail).
    exists (String c head), tail. split; [reflexivity|exact Htail].
  - rewrite orb_false_r. intros Hc. apply Ascii.eqb_eq in Hc. subst c.
    exists "", s. split; [reflexivity|exact Hs].
Qed.

Lemma lower_char_dot c : Ascii.eqb (lower_char c) "." = Ascii.eqb c ".".
Proof. destruct c as [[] [] [] [] [] [] [] []]; reflexivity. Qed.

Lemma contains_dot_lower s : contains "." (lower s) = contains "." s.
Proof.
  induction s as [|c s IH]; [reflexivity|].
  change (lower (String c s)) with (String (lower_char c) (lower s)).
  now rewrite !contains_dot_cons, lower_char_dot, IH.
Qed.

Lemma lower_append s t : lower (s ++ t) = lower s ++ lower t.
Proof.
  induction s as [|c s IH]; [reflexivity|].
  cbn [append]. unfold lower in *. cbn [map_chars append]. now rewrite IH.
Qed.

Lemma lower_idempotent s : lower (lower s) = lower s.
Proof.
  unfold lower. rewrite map_chars_compose.
  apply map_chars_ext, lower_char_idempotent.
Qed.

Lemma allowed_file_split head tail :
  contains "." tail = false ->
  allowed_file (head ++ String "." tail)
  = Ok (existsb (String.eqb (lower tail)) ALLOWED_EXTENSIONS).
Proof.
  intros Htail. unfold allowed_file.
  now rewrite contains_dot_append, (rsplit1_last head tail Htail).
Qed.

Lemma allowed_file_returns name : exists b, allowed_file name = Ok b.
Proof.
  destruct (contains "." name) eqn:Hdot.
  - destruct (rsplit1_dot name Hdot) as (head & tail & -> & Htail).
    rewrite (allowed_file_split head tail Htail). now eexists.
  - unfold allowed_file. rewrite Hdot. now exists false.
Qed.

(** X12.  [allowed_file] never raises.  It accepts a name exactly when
    the name has a point and the text after its last point, lowered, is
    one of png, jpg, jpeg: only the last extension counts, the stem may
    be empty, and the case of the name is immaterial. *)
Theorem X12_allowed_file_last_extension name :
  exists b,
    allowed_file name = Ok b
    /\ (b = true <->
        exists stem extension,
          name = stem ++ "." ++ extension
          /\ contains "." extension = false
          /\ In (lower extension) ALLOWED_EXTENSIONS)
    /\ allowed_file (lower name) = Ok b.
Proof.
  destruct (contains "." name) eqn:Hdot.
  - destruct (rsplit1_dot name Hdot) as (head & tail & -> & Htail).
    exists (existsb (String.eqb (lower tail)) ALLOWED_EXTENSIONS).
    split; [now apply allowed_file_split|]. split.
    + split.
      * intros Hb. apply existsb_exists in Hb.
        destruct Hb as (x & Hin & Hx). apply String.eqb_eq in Hx.
        subst x. now exists head, tail.
      * intros (stem & extension & Heq & Hext & Hin).
        pose proof (rsplit1_last head tail Htail) as S1.
        pose proof (rsplit1_last stem extension Hext) as S2.
        change (stem ++ "." ++ extension) with (stem ++ String "." extension)
          in Heq.
        rewrite Heq, S2 in S1. injection S1 as _ <-.
        apply existsb_exists. exists (lower extension).
        split; [exact Hin|apply String.eqb_refl].
    + rewrite lower_append.
      change (lower (String "." tail)) with (String "." (lower tail)).
      rewrite allowed_file_split, lower_idempotent; [reflexivity|].
      now rewrite contains_dot_lower.
  - exists false. unfold allowed_file.
    rewrite contains_dot_lower, Hdot.
    split; [reflexivity|]. split; [|reflexivity].
    split; [discriminate|].
    intros (stem & extension & -> & _).
    change (stem ++ "." ++ extension) with (stem ++ String "." extension)
      in Hdot.
    now rewrite contains_dot_append in Hdot.
Qed.

(** X13.  [validate_image_request] raises nothing but the two werkzeug
    exceptions.  A file it returns is the first one of the field
    [image], has a non-empty name that [allowed_file] accepts, and came
    with a declared length of at most 10 MiB, if any was declared.  It
    raises [RequestEntityTooLarge] only when the name checks have
    passed, so a request that is both too large and of a wrong type is a
    bad request. *)
Theorem X13_validation_checks order request :
  (forall file,
      validate_image_request order request = inl file ->
      getitem "image" (files request) = Some file
      /\ filename file <> ""
      /\ allowed_file (filename file) = Ok true
      /\ forall n, content_length request = Some n ->
                   (n <= MAX_FILE_SIZE)%Z)
  /\ (forall description,
        validate_image_request order request
        = inr (RequestEntityTooLarge description) ->
        description = "File too large. Maximum size: 10MB"
        /\ exists file n,
             getitem "image" (files request) = Some file
             /\ allowed_file (filename file) = Ok true
             /\ content_length request = Some n
             /\ (MAX_FILE_SIZE < n)%Z)
  /\ (forall message,
        validate_image_request order request <> inr (Exception message)).
Proof.
  unfold validate_image_request.
  destruct (getitem "image" (files request)) as [file|];
    [|split; [|split]; intros; discriminate].
  destruct (String.eqb (filename file) "") eqn:Hname;
    [split; [|split]; intros; discriminate|].
  apply String.eqb_neq in Hname.
  destruct (allowed_file_returns (filename file)) as (b & Hb).
  rewrite Hb. destruct b; [|split; [|split]; intros; discriminate].
  destruct (content_length request) as [n|].
  - destruct (negb (n =? 0)%Z && (MAX_FILE_SIZE <? n)%Z) eqn:Hbig.
    + split; [|split]; try (intros; discriminate).
      intros description [= <-]. split; [reflexivity|].
      apply andb_true_iff in Hbig. destruct Hbig as [_ Hbig].
      apply Z.ltb_lt in Hbig.
      exists file, n. now repeat split.
    + split; [|split]; try (intros; discriminate).
      intros file' [= <-]. repeat split; try assumption.
      intros n' [= <-]. apply andb_false_iff in Hbig.
      destruct Hbig as [Hz|Hbig].
      * apply negb_false_iff, Z.eqb_eq in Hz. subst n.
        unfold MAX_FILE_SIZE. lia.
      * now apply Z.ltb_ge in Hbig.
  - split; [|split]; try (intros; discriminate).
    intros file' [= <-]. repeat split; try assumption.
    intros n'. discriminate.
Qed.

End FileNameFacts.

Section RateLimitFacts.

Context {R bytes : Type} {redis : Redis R bytes}.

(** X14.  [check_rate_limit] fails open.  It refuses exactly when the
    configuration object has the attribute, the client is there, the
    count was read and parsed, and it is at least 10; a refusal writes
    nothing.  In every other case, in particular whenever a call raises
    and whenever the configuration object lacks the attribute, the
    request is allowed. *)
Theorem X14_rate_limit_fails_open user_id (r : R) :
  (fst (check_rate_limit user_id r) = false <->
   config_hasattr "SESSION_REDIS" = Ok true
   /\ config_getitem "SESSION_REDIS" = Ok tt
   /\ exists c n,
        redis_get (rate_limit_key user_id) r = Ok (Some c)
        /\ int_of_bytes c = Ok n
        /\ RATE_LIMIT_REQUESTS <= n)
  /\ (fst (check_rate_limit user_id r) = false ->
      snd (check_rate_limit user_id r) = r)
  /\ (config_hasattr "SESSION_REDIS" <> Ok true ->
      check_rate_limit user_id r = (true, r)).
Proof.
  assert (Hthird : config_hasattr "SESSION_REDIS" <> Ok true ->
                   check_rate_limit user_id r = (true, r)).
  { unfold check_rate_limit, check_rate_limit_body.
    destruct (config_hasattr "SESSION_REDIS") as [[|]|e];
      [congruence|reflexivity|reflexivity]. }
  split; [|split; [|exact Hthird]].
  - split.
    + unfold check_rate_limit, check_rate_limit_body.
      destruct (config_hasattr "SESSION_REDIS") as [[|]|e]; cbn [rbind];
        try discriminate.
      destruct (config_getitem "SESSION_REDIS") as [[]|e]; cbn [rbind];
        try discriminate.
      destruct (redis_get (rate_limit_key user_id) r) as [[c|]|e];
        cbn [rbind]; try discriminate.
      * destruct (int_of_bytes c) as [n|e] eqn:Eint; cbn [rbind];
          try discriminate.
        destruct (n <? RATE_LIMIT_REQUESTS) eqn:Hn.
        -- destruct (redis_incr _ r); discriminate.
        -- apply Z.ltb_ge in Hn. intros _.
           split; [reflexivity|]. split; [reflexivity|]. now exists c, n.
      * destruct (redis_setex _ _ _ r); discriminate.
    + intros (Hattr & Hclient & c & n & Hget & Hint & Hn).
      unfold check_rate_limit, check_rate_limit_body.
      rewrite Hattr. cbn [rbind]. rewrite Hclient. cbn [rbind].
      rewrite Hget. cbn [rbind]. rewrite Hint. cbn [rbind].
      replace (n <? RATE_LIMIT_REQUESTS) with false
        by (symmetry; apply Z.ltb_ge; exact Hn).
      reflexivity.
  - unfold check_rate_limit, check_rate_limit_body.
    destruct (config_hasattr "SESSION_REDIS") as [[|]|e]; cbn [rbind];
      try reflexivity.
    destruct (config_getitem "SESSION_REDIS") as [[]|e]; cbn [rbind];
      try reflexivity.
    destruct (redis_get (rate_limit_key user_id) r) as [[c|]|e];
      cbn [rbind]; try reflexivity.
    + destruct (int_of_bytes c) as [n|e]; cbn [rbind]; try reflexivity.
      destruct (n <? RATE_LIMIT_REQUESTS); [|reflexivity].
      destruct (redis_incr _ r); discriminate.
    + destruct (redis_setex _ _ _ r); discriminate.
Qed.

Section Window.

Context (count : R -> string -> option Z)
        {contract : RedisContract redis count}.
Hypothesis has_attribute : config_hasattr "SESSION_REDIS" = Ok true.
Hypothesis has_client : config_getitem "SESSION_REDIS" = Ok tt.

(** One call on a working Redis: allowed while the count is below 10,
    and then the count goes up by one. *)
Lemma one_request user_id (r : R) :
  let key := rate_limit_key user_id in
  let m := count_or_zero count r key in
  let (answer, r') := check_rate_limit user_id r in
  answer = (m <? 10)
  /\ count_or_zero count r' key = (if m <? 10 then m + 1 else m)
  /\ forall key', key' <> key -> count r' key' = count r key'.
Proof.
  intros key m. subst m. unfold count_or_zero.
  unfold check_rate_limit, check_rate_limit_body.
  rewrite has_attribute, has_client. cbn [rbind]. fold key.
  pose proof (get_count key r) as Hget.
  destruct (count r key) as [n|] eqn:Hcount.
  - destruct Hget as (c & -> & Hc). cbn [rbind]. rewrite Hc. cbn [rbind].
    unfold RATE_LIMIT_REQUESTS.
    destruct (n <? 10) eqn:Hn.
    + destruct (incr_count key r n Hcount) as (r' & -> & Hr' & Hother).
      cbn [rbind]. rewrite Hr'. now repeat split.
    + rewrite Hcount. now repeat split.
  - rewrite Hget. cbn [rbind].
    destruct (setex_count key RATE_LIMIT_WINDOW 1 r) as (r' & -> & Hr' & Hother).
    cbn [rbind]. rewrite Hr'. now repeat split.
Qed.

Lemma requests_from n : forall user_id (r : R),
  0 <= count_or_zero count r (rate_limit_key user_id) ->
  let m := count_or_zero count r (rate_limit_key user_id) in
  fst (requests n user_id r)
  = map (fun k => m + Z.of_nat k <? 10) (seq 0 n)
  /\ forall key', key' <> rate_limit_key user_id ->
       count (snd (requests n user_id r)) key' = count r key'.
Proof.
  induction n as [|n IH]; intros user_id r Hm m; [now split|].
  cbn [requests].
  pose proof (one_request user_id r) as H1. cbv zeta in H1.
  destruct (check_rate_limit user_id r) as [answer r1].
  destruct H1 as (Hanswer & Hcount & Hother). fold m in Hanswer, Hcount.
  assert (Hm1 : 0 <= count_or_zero count r1 (rate_limit_key user_id))
    by (rewrite Hcount; destruct (m <? 10); lia).
  destruct (IH user_id r1 Hm1) as [IHa IHo]. cbv zeta in IHa.
  destruct (requests n user_id r1) as [answers r2]. cbn [fst snd] in *.
  split.
  - cbn [seq map]. rewrite Z.add_0_r, Hanswer. f_equal.
    rewrite IHa, <- seq_shift, map_map. apply map_ext_in.
    intros k _. rewrite Hcount.
    destruct (m <? 10) eqn:Hlt.
    + f_equal. lia.
    + apply Z.ltb_ge in Hlt.
      transitivity false; [|symmetry]; apply Z.ltb_ge; lia.
  - intros key' Hkey. now rewrite IHo, Hother.
Qed.

(** X15.  On a Redis that works, behind a configuration object that has
    the attribute, a user who starts with no count is allowed ten
    requests, one after the other, and refused from the eleventh on, for
    as long as the key lives; the counts of the other keys are left as
    they were. *)
Theorem X15_ten_requests_per_window n user_id (r : R) :
  count r (rate_limit_key user_id) = None ->
  fst (requests n user_id r) = map (fun k => (k <? 10)%nat) (seq 0 n)
  /\ forall key', key' <> rate_limit_key user_id ->
       count (snd (requests n user_id r)) key' = count r key'.
Proof.
  intros Hnone.
  assert (Hzero : count_or_zero count r (rate_limit_key user_id) = 0)
    by (unfold count_or_zero; now rewrite Hnone).
  destruct (requests_from n user_id r) as [Ha Ho]; [lia|].
  split; [|exact Ho].
  rewrite Ha, Hzero. apply map_ext. intros k.
  destruct (k <? 10)%nat eqn:Hk.
  - apply Nat.ltb_lt in Hk. apply Z.ltb_lt. lia.
  - apply Nat.ltb_ge in Hk. apply Z.ltb_ge. lia.
Qed.

End Window.

End RateLimitFacts.

Import DemoRoutes.

Lemma demo_redis_contract : RedisContract demo_redis demo_count.
Proof.
  split.
  - intros key r. simpl. destruct (demo_count r key) as [n|];
      [now exists n|reflexivity].
  - intros key seconds value r. exists ((key, value) :: r).
    split; [reflexivity|]. split.
    + simpl. now rewrite String.eqb_refl.
    + intros key' Hne. simpl. apply String.eqb_neq in Hne. now rewrite Hne.
  - intros key r n Hn. exists ((key, n + 1) :: r).
    split; [simpl; now rewrite Hn|]. split.
    + simpl. now rewrite String.eqb_refl.
    + intros key' Hne. simpl. apply String.eqb_neq in Hne. now rewrite Hne.
Qed.

Lemma X12_witness :
  allowed_file "LABEL.tar.JPG" = Ok true
  /\ allowed_file "label.jpg.exe" = Ok false.
Proof.
  split.
  - destruct (X12_allowed_file_last_extension "LABEL.tar.JPG")
      as (b & -> & Hb & _).
    f_equal. apply Hb. exists "LABEL.tar"%string, "JPG"%string.
    split; [reflexivity|]. split; [reflexivity|].
    right. left. reflexivity.
  - reflexivity.
Defined.

Lemma X13_witness :
  let file := Upload "label.png" "..." in
  let request := MakeRequest [("image"%string, file)] (Some 10485760) in
  validate_image_request ALLOWED_EXTENSIONS request = inl file
  /\ allowed_file "label.png" = Ok true
  /\ 10485760 <= MAX_FILE_SIZE.
Proof.
  intros file request.
  assert (Hrun : validate_image_request ALLOWED_EXTENSIONS request = inl file)
    by reflexivity.
  destruct (proj1 (X13_validation_checks ALLOWED_EXTENSIONS request)
              file Hrun) as (_ & _ & Hallowed & Hsize).
  split; [exact Hrun|]. split; [exact Hallowed|].
  exact (Hsize 10485760 eq_refl).
Defined.

Lemma X14_witness :
  let r := [("ocr_rate_limit:ana"%string, 10)] in
  fst (check_rate_limit "ana" r) = false
  /\ snd (check_rate_limit "ana" r) = r.
Proof.
  intros r.
  assert (Hrefused : fst (check_rate_limit "ana" r) = false) by reflexivity.
  split; [exact Hrefused|].
  exact (proj1 (proj2 (X14_rate_limit_fails_open "ana" r)) Hrefused).
Defined.

Lemma X15_witness :
  fst (requests 12 "ana" [])
  = [true; true; true; true; true; true; true; true; true; true;
     false; false].
Proof.
  exact (proj1 (X15_ten_requests_per_window demo_count
                  (contract := demo_redis_contract) eq_refl eq_refl
                  12 "ana" [] eq_refl)).
Defined.

(** ** Acquisition *)

Section AcquisitionFacts.

Context {Image ndarray line : Type}
        {imaging : Imaging Image ndarray line}
        {services : Collaborators Image ndarray}.

Lemma drop_prefix p s : drop (String.length p) (p ++ s) = s.
Proof. induction p as [|c p IH]; [now destruct s|exact IH]. Qed.

Lemma prefix_append p s : String.prefix p (p ++ s) = true.
Proof.
  induction p as [|c p IH]; [now destruct s|].
  cbn [append String.prefix].
  destruct (ascii_dec c c) as [_|Hne]; [exact IH|congruence].
Qed.

(** X16.  The URL the route builds for a saved upload, [file://]
    followed by the path, makes [_download_image] open exactly that
    path, without any HTTP request.  In general an image is acquired
    either from the local path that follows the seven characters of the
    scheme, or from the body of an HTTP response whose status was not an
    error. *)
Theorem X16_file_url_round_trip path :
  _download_image ("file://" ++ path)
  = match Image_open_path path with
    | Ok image => Ok image
    | Raise cause =>
        Raise ("Failed to load image from file://" ++ path ++ ": " ++ cause)
    end
  /\ forall url image,
       _download_image url = Ok image ->
       startswith "file://" url = true
       /\ Image_open_path (drop 7 url) = Ok image
       \/ startswith "file://" url = false
          /\ exists response,
               requests_get url = Ok response
               /\ status_error response = None
               /\ Image_open_bytes (content response) = Ok image.
Proof.
  split.
  - unfold _download_image, _download_image_body, startswith.
    rewrite (prefix_append "file://" path).
    change 7%nat with (String.length "file://").
    rewrite (drop_prefix "file://" path).
    destruct (Image_open_path path); reflexivity.
  - intros url image. unfold _download_image, _download_image_body.
    destruct (startswith "file://" url).
    + destruct (Image_open_path (drop 7 url)) as [img|]; [|discriminate].
      intros [= <-]. now left.
    + destruct (requests_get url) as [response|]; [|discriminate].
      cbn [rbind try_except].
      destruct (status_error response) as [e|] eqn:Estatus;
        [discriminate|].
      cbn [rbind].
      destruct (Image_open_bytes (content response)) as [img|] eqn:Eopen;
        [|discriminate].
      intros [= <-]. right. split; [reflexivity|].
      now exists response.
Qed.

End AcquisitionFacts.

Lemma X16_witness :
  _download_image (services := clear_label) "file:///tmp/label.png"
  = Ok raw_label
  /\ startswith "file://" "file:///tmp/label.png" = true
  /\ Image_open_path (Collaborators := clear_label)
       (drop 7 "file:///tmp/label.png") = Ok raw_label.
Proof.
  assert (Hrun : _download_image (services := clear_label)
                   "file:///tmp/label.png" = Ok raw_label)
    by reflexivity.
  split; [exact Hrun|].
  destruct (proj2 (X16_file_url_round_trip (services := clear_label) "")
              "file:///tmp/label.png"%string raw_label Hrun)
    as [Hlocal|[Hremote _]]; [exact Hlocal|discriminate Hremote].
Defined.

(** ** The weight returned *)

Section WeightFacts.

Context {Image ndarray line : Type}
        {imaging : Imaging Image ndarray line}
        {services : Collaborators Image ndarray}.

Lemma nothing_in_empty_text :
  strip "" = ""%string /\ _extract_weight_from_text "" = None.
Proof. split; vm_compute; reflexivity. Qed.

Lemma tesseract_text_parsed (image : Image) :
  exists text,
    extracted_text (tesseract_extraction image) = strip text
    /\ extracted_weight (tesseract_extraction image)
       = _extract_weight_from_text text.
Proof.
  assert (Hempty : exists text,
             extracted_text (empty_extraction "tesseract") = strip text
             /\ extracted_weight (empty_extraction "tesseract")
                = _extract_weight_from_text text)
    by (exists ""%string; split; symmetry; apply nothing_in_empty_text).
  unfold tesseract_extraction, _extract_with_tesseract_body, rbind.
  destruct (np_array image) as [a|]; [|exact Hempty].
  destruct (if Nat.eqb (ndim a) 3 then _ else _) as [g|]; [|exact Hempty].
  destruct (image_to_string g) as [text|]; [|exact Hempty].
  destruct (image_to_data_conf g) as [conf|]; [|exact Hempty].
  destruct (match filter _ conf with [] => _ | _ :: _ => _ end);
    [|exact Hempty].
  exists text. split; reflexivity.
Qed.

Lemma vision_text_parsed (image : Image) :
  exists text,
    extracted_text (vision_extraction image) = strip text
    /\ extracted_weight (vision_extraction image)
       = _extract_weight_from_text text.
Proof.
  assert (Hempty : exists text,
             extracted_text (empty_extraction "google_vision") = strip text
             /\ extracted_weight (empty_extraction "google_vision")
                = _extract_weight_from_text text)
    by (exists ""%string; split; symmetry; apply nothing_in_empty_text).
  unfold vision_extraction, _extract_with_google_vision_body, rbind.
  destruct vision_client as [td|]; [|exact Hempty].
  destruct (save_png image) as [png|]; [|exact Hempty].
  destruct (td png) as [resp|]; [|exact Hempty].
  destruct (String.eqb _ _); [|exact Hempty].
  destruct (text_annotations resp) as [|text rest]; [exact Hempty|].
  exists text. split; reflexivity.
Qed.

(** X17.  On a successful run the weight returned is the weight the
    parser reads in the text of the engine that won (the empty text when
    that engine failed), rounded to two decimals: the final
    re-validation never turns a parsed weight into no weight, so the
    dict has no weight exactly when the parser found none. *)
Theorem X17_revalidation_never_rejects url rid (w : world (Image := Image))
    out :
  fst (process_image url rid w) = Ok out ->
  success out = true ->
  exists text,
    out_text out = Some (strip text)
    /\ out_weight out = option_map round2 (_extract_weight_from_text text)
    /\ (out_weight out = None <-> _extract_weight_from_text text = None).
Proof.
  intros Hrun Hs.
  destruct (success_inversion url rid w out Hrun Hs) as (image & _ & Hout).
  assert (Hparsed : exists text,
             extracted_text (arbitrate image) = strip text
             /\ extracted_weight (arbitrate image)
                = _extract_weight_from_text text).
  { unfold arbitrate. destruct (fge _ _); [apply tesseract_text_parsed|].
    destruct (fgt _ _); [apply vision_text_parsed|apply tesseract_text_parsed]. }
  destruct Hparsed as (text & Htext & Hweight).
  exists text. rewrite Hout. cbn [success_outcome out_text out_weight].
  rewrite Htext, Hweight.
  assert (Hround : match _extract_weight_from_text text with
                   | Some p => _validate_weight_value p
                   | None => None
                   end
                   = option_map round2 (_extract_weight_from_text text)).
  { destruct (_extract_weight_from_text text) as [p|] eqn:Hp; [|reflexivity].
    unfold _validate_weight_value.
    now rewrite (extract_weight_in_range text p Hp). }
  rewrite Hround. split; [reflexivity|]. split; [reflexivity|].
  destruct (_extract_weight_from_text text); simpl; split; congruence.
Qed.

End WeightFacts.

Lemma X17_witness :
  let out := Outcome true (Some "PESO 2.567 kg"%string) (Some (lit 257 100))
               (lit 9 10) "tesseract" 1000 None in
  fst (process_image (services := precise_label) label_file None fresh)
  = Ok out
  /\ exists text,
       Some "PESO 2.567 kg"%string = Some (strip text)
       /\ Some (lit 257 100)
          = option_map round2 (_extract_weight_from_text text).
Proof.
  intros out.
  assert (Hrun : fst (process_image (services := precise_label) label_file
                        None fresh) = Ok out)
    by (vm_compute; reflexivity).
  split; [exact Hrun|].
  destruct (X17_revalidation_never_rejects (services := precise_label)
              label_file None fresh out Hrun eq_refl)
    as (text & Htext & Hweight & _).
  exists text. split; [exact Htext|exact Hweight].
Defined.

(** ** Numbers followed by their unit *)

Section UnitFacts.

Local Open Scope string_scope.

Lemma advance_fields taken rest st :
  m_open (advance taken rest st) = m_open st
  /\ m_group (advance taken rest st) = m_group st
  /\ (m_rest st = taken ++ rest -> m_rest (advance taken rest st) = rest).
Proof.
  revert st. induction taken as [|a taken IH]; intros st; [now repeat split|].
  cbn [advance]. destruct (IH (step_char a (taken ++ rest) st)) as (Ho & Hg & Hr).
  split; [exact Ho|]. split; [exact Hg|]. intros _. now apply Hr.
Qed.

(** Greedy repetition settles on the longest run when the continuation
    accepts it. *)
Lemma many_all c k taken rest st r :
  all_chars (mem c) taken = true ->
  starts_with (mem c) rest = false ->
  k (advance taken rest st) = Some r ->
  many c k (taken ++ rest) st = Some r.
Proof.
  revert st. induction taken as [|a taken IH]; intros st Hall Hstop Hk.
  - cbn [append advance] in *. destruct rest as [|b rest']; [exact Hk|].
    cbn [many]. cbn [starts_with] in Hstop. now rewrite Hstop.
  - cbn [all_chars] in Hall. apply andb_true_iff in Hall.
    destruct Hall as [Ha Hall].
    cbn [append many]. rewrite Ha.
    now rewrite (IH (step_char a (taken ++ rest) st) Hall Hstop Hk).
Qed.

Lemma many_none c k rest st :
  starts_with (mem c) rest = false -> many c k rest st = k st.
Proof.
  destruct rest as [|b rest']; [reflexivity|].
  cbn [many starts_with]. now intros ->.
Qed.

(** The matcher, one node at a time. *)
Lemma match_open re st :
  match_here (GOpen :: re) st
  = match_here re (MState (m_prev st) (m_rest st) (m_rest st) (m_group st)).
Proof. reflexivity. Qed.

Lemma match_close re st :
  match_here (GClose :: re) st
  = match_here re
      (MState (m_prev st) (m_rest st) (m_open st)
         (take (String.length (m_open st) - String.length (m_rest st))
            (m_open st))).
Proof. reflexivity. Qed.

Lemma match_many0 c re st :
  match_here (Atom c Many0 :: re) st
  = many c (match_here re) (m_rest st) st.
Proof. reflexivity. Qed.

Lemma match_many1 c re a s' st :
  m_rest st = String a s' -> mem c a = true ->
  match_here (Atom c Many1 :: re) st
  = many c (match_here re) s' (step_char a s' st).
Proof. intros Hr Ha. cbn [match_here]. now rewrite Hr, Ha. Qed.

Lemma match_once c re a s' st :
  m_rest st = String a s' -> mem c a = true ->
  match_here (Atom c Once :: re) st = match_here re (step_char a s' st).
Proof. intros Hr Ha. cbn [match_here]. now rewrite Hr, Ha. Qed.

Lemma match_maybe_taken c re a s' st r :
  m_rest st = String a s' -> mem c a = true ->
  match_here re (step_char a s' st) = Some r ->
  match_here (Atom c Maybe :: re) st = Some r.
Proof. intros Hr Ha Hm. cbn [match_here]. now rewrite Hr, Ha, Hm. Qed.

Lemma match_maybe_skipped c re st :
  starts_with (mem c) (m_rest st) = false ->
  match_here (Atom c Maybe :: re) st = match_here re st.
Proof.
  cbn [match_here]. destruct (m_rest st) as [|a s']; [reflexivity|].
  cbn [starts_with]. now intros ->.
Qed.

(** The group of the patterns, matched against a numeral that is
    followed by neither a digit nor a point, captures the numeral. *)
Lemma numeral_group_matches n rest post st :
  numeral n ->
  starts_with is_digit rest = false ->
  starts_with (fun c => Ascii.eqb c ".") rest = false ->
  m_rest st = n ++ rest ->
  exists st',
    m_rest st' = rest /\ m_group st' = n
    /\ forall r, match_here post st' = Some r ->
                 match_here (numeral_group ++ post)%list st = Some r.
Proof.
  intros Hn Hdigit Hpoint Hrest.
  set (st1 := MState (m_prev st) (m_rest st) (m_rest st) (m_group st)).
  assert (Hclose : forall st2 r,
             m_open st2 = n ++ rest -> m_rest st2 = rest ->
             match_here post (MState (m_prev st2) rest (n ++ rest) n)
             = Some r ->
             match_here (GClose :: post) st2 = Some r).
  { intros st2 r Ho Hr Hm.
    now rewrite match_close, Ho, Hr, take_append. }
  destruct Hn as [d ds Hd Hds | d ds fs Hd Hds Hfs].
  - set (st2 := advance ds rest (step_char d (ds ++ rest) st1)).
    destruct (advance_fields ds rest (step_char d (ds ++ rest) st1))
      as (Ho & _ & Hr).
    specialize (Hr eq_refl). fold st2 in Ho, Hr.
    cbn [step_char m_open] in Ho. unfold st1 in Ho. cbn [m_open] in Ho.
    rewrite Hrest in Ho.
    exists (MState (m_prev st2) rest (String d ds ++ rest) (String d ds)).
    split; [reflexivity|]. split; [reflexivity|].
    intros r Hm.
    change (match_here
              (Atom Digit Many1 :: Atom (Chr ".") Maybe :: Atom Digit Many0
               :: GClose :: post) st1 = Some r).
    rewrite (match_many1 Digit _ d (ds ++ rest)); [| |exact Hd].
    2:{ unfold st1. cbn [m_rest]. now rewrite Hrest. }
    apply many_all; [exact Hds|exact Hdigit|]. fold st2.
    rewrite match_maybe_skipped by (rewrite Hr; exact Hpoint).
    rewrite match_many0, Hr, many_none by exact Hdigit.
    now apply Hclose.
  - set (tail := String "." (fs ++ rest)).
    assert (Hwhole : (String d ds ++ String "." fs) ++ rest
                     = String d (ds ++ tail)).
    { rewrite append_assoc. reflexivity. }
    set (st2 := advance ds tail (step_char d (ds ++ tail) st1)).
    destruct (advance_fields ds tail (step_char d (ds ++ tail) st1))
      as (Ho & _ & Hr).
    specialize (Hr eq_refl). fold st2 in Ho, Hr.
    cbn [step_char m_open] in Ho. unfold st1 in Ho. cbn [m_open] in Ho.
    rewrite Hrest in Ho.
    set (st3 := advance fs rest (step_char "." (fs ++ rest) st2)).
    destruct (advance_fields fs rest (step_char "." (fs ++ rest) st2))
      as (Ho3 & _ & Hr3).
    specialize (Hr3 eq_refl). fold st3 in Ho3, Hr3.
    cbn [step_char m_open] in Ho3. rewrite Ho in Ho3.
    exists (MState (m_prev st3) rest ((String d ds ++ String "." fs) ++ rest)
              (String d ds ++ String "." fs)).
    split; [reflexivity|]. split; [reflexivity|].
    intros r Hm.
    change (match_here
              (Atom Digit Many1 :: Atom (Chr ".") Maybe :: Atom Digit Many0
               :: GClose :: post) st1 = Some r).
    rewrite (match_many1 Digit _ d (ds ++ tail)); [| |exact Hd].
    2:{ unfold st1. cbn [m_rest]. now rewrite Hrest, Hwhole. }
    apply many_all; [exact Hds|reflexivity|]. fold st2.
    apply (match_maybe_taken _ _ "." (fs ++ rest));
      [exact Hr|reflexivity|].
    rewrite match_many0. cbn [step_char m_rest].
    apply many_all; [exact Hfs|exact Hdigit|]. fold st3.
    now apply Hclose.
Qed.


Lemma literal_matches u tail st :
  m_rest st = u ++ tail ->
  exists r, match_here (literal u) st = Some r /\ m_group r = m_group st.
Proof.
  revert st. induction u as [|c u IH]; intros st Hrest.
  - exists st. now split.
  - cbn [literal append] in *.
    destruct (IH (step_char c (u ++ tail) st) eq_refl) as (r & Hm & Hg).
    exists r. split; [|exact Hg].
    rewrite (match_once (Chr c) _ c (u ++ tail)); [exact Hm|exact Hrest|].
    apply Ascii.eqb_refl.
Qed.

Lemma spaces_unit_matches ws u tail st :
  all_chars is_space ws = true ->
  starts_with is_space (u ++ tail) = false ->
  m_rest st = ws ++ u ++ tail ->
  exists r,
    match_here (Atom Space Many0 :: literal u) st = Some r
    /\ m_group r = m_group st.
Proof.
  intros Hws Hu Hrest.
  destruct (advance_fields ws (u ++ tail) st) as (_ & Hg & Hr).
  specialize (Hr Hrest).
  destruct (literal_matches u tail (advance ws (u ++ tail) st) Hr)
    as (r & Hm & Hgr).
  exists r. split; [|congruence].
  rewrite match_many0, Hrest. now apply many_all.
Qed.

(** What the characters of a numeral, and the white space, are not. *)
Lemma numeral_chars n :
  numeral n -> all_chars (fun c => is_digit c || Ascii.eqb c ".") n = true.
Proof.
  assert (Hdigits : forall ds, all_chars is_digit ds = true ->
             all_chars (fun c => is_digit c || Ascii.eqb c ".") ds = true).
  { induction ds as [|c ds IH]; [reflexivity|]. cbn [all_chars].
    intros H. apply andb_true_iff in H. destruct H as [-> H].
    now rewrite IH. }
  intros [d ds Hd Hds | d ds fs Hd Hds Hfs].
  - cbn [all_chars]. now rewrite Hd, Hdigits.
  - rewrite all_chars_append. cbn [all_chars].
    rewrite Hd, !Hdigits by assumption. now rewrite Ascii.eqb_refl.
Qed.

Lemma all_chars_impl (f g : ascii -> bool) s :
  (forall c, f c = true -> g c = true) ->
  all_chars f s = true -> all_chars g s = true.
Proof.
  intros Hfg. induction s as [|c s IH]; [reflexivity|]. cbn [all_chars].
  intros H. apply andb_true_iff in H. destruct H as [Hc Hs].
  now rewrite (Hfg c Hc), IH.
Qed.

Lemma map_chars_fixed (f : ascii -> bool) g s :
  (forall c, f c = true -> g c = c) ->
  all_chars f s = true -> map_chars g s = s.
Proof.
  intros Hfg. induction s as [|c s IH]; [reflexivity|]. cbn [all_chars].
  intros H. apply andb_true_iff in H. destruct H as [Hc Hs].
  cbn [map_chars]. now rewrite (Hfg c Hc), IH.
Qed.

Lemma map_chars_append g a b :
  map_chars g (a ++ b) = map_chars g a ++ map_chars g b.
Proof. induction a as [|c a IH]; [reflexivity|]. cbn. now rewrite IH. Qed.

Lemma numeral_char_facts c :
  is_digit c || Ascii.eqb c "." = true ->
  comma_to_point (lower_char c) = c
  /\ negb (Ascii.eqb c "k") = true
  /\ is_space c = false.
Proof.
  destruct c as [[] [] [] [] [] [] [] []]; intros H; vm_compute in H;
    try discriminate H; now repeat split.
Qed.

Lemma space_char_facts c :
  is_space c = true ->
  comma_to_point (lower_char c) = c
  /\ negb (Ascii.eqb c "k") = true
  /\ is_digit c = false
  /\ Ascii.eqb c "." = false.
Proof.
  destruct c as [[] [] [] [] [] [] [] []]; intros H; vm_compute in H;
    try discriminate H; now repeat split.
Qed.

Lemma comma_to_point_k c :
  Ascii.eqb (comma_to_point c) "k" = Ascii.eqb c "k".
Proof. destruct c as [[] [] [] [] [] [] [] []]; reflexivity. Qed.

(** The text the patterns see when a numeral comes first, then white
    space, then a unit. *)
Lemma normalise_unit_text n ws unit u tail :
  numeral n -> all_chars is_space ws = true -> lower unit = u ->
  replace_char "," "." u = u ->
  normalise (n ++ ws ++ unit ++ tail) = n ++ ws ++ u ++ normalise tail.
Proof.
  intros Hn Hws Hunit Hu.
  rewrite !normalise_chars, !map_chars_append.
  rewrite (map_chars_fixed (fun c => is_digit c || Ascii.eqb c ".") _ n);
    [|intros c Hc; apply (numeral_char_facts c Hc)|now apply numeral_chars].
  rewrite (map_chars_fixed is_space _ ws);
    [|intros c Hc; apply (space_char_facts c Hc)|exact Hws].
  rewrite <- (normalise_chars unit). unfold normalise.
  now rewrite Hunit, Hu.
Qed.

Lemma scan_here re prev s r :
  match_here re (MState prev s "" "") = Some r ->
  exists rest, scan re prev s 0 = m_group r :: rest.
Proof.
  intros Hm. destruct s as [|a s']; cbn [scan]; rewrite Hm; now eexists.
Qed.

(** A numeral, white space and a unit at the start of the text: the
    pattern of that unit matches there and captures the numeral. *)
Lemma unit_pattern_first n ws u tail :
  numeral n -> all_chars is_space ws = true ->
  starts_with (fun c => is_digit c || Ascii.eqb c "." || is_space c) u = false ->
  u <> "" ->
  exists rest,
    scan (numeral_group ++ Atom Space Many0 :: literal u)%list None
      (n ++ ws ++ u ++ tail) 0
    = n :: rest.
Proof.
  intros Hn Hws Hu Hne.
  destruct u as [|c u']; [congruence|]. cbn [starts_with] in Hu.
  apply orb_false_iff in Hu. destruct Hu as [Hu Hspace].
  apply orb_false_iff in Hu. destruct Hu as [Hdigit Hpoint].
  set (u := String c u') in *.
  assert (Hfirst : starts_with is_digit (ws ++ u ++ tail) = false
                   /\ starts_with (fun a => Ascii.eqb a ".") (ws ++ u ++ tail)
                      = false).
  { destruct ws as [|b ws']; [now split|].
    cbn [all_chars] in Hws. apply andb_true_iff in Hws.
    destruct Hws as [Hb _]. cbn [append starts_with].
    destruct (space_char_facts b Hb) as (_ & _ & Hd & Hp). now split. }
  destruct Hfirst as [Hd Hp].
  set (st := MState None (n ++ ws ++ u ++ tail) "" "").
  destruct (numeral_group_matches n (ws ++ u ++ tail)
              (Atom Space Many0 :: literal u) st Hn Hd Hp eq_refl)
    as (st' & Hr' & Hg' & Hm').
  destruct (spaces_unit_matches ws u tail st' Hws Hspace Hr')
    as (r & Hm & Hg).
  specialize (Hm' r Hm).
  destruct (scan_here _ None (n ++ ws ++ u ++ tail) r Hm') as (rest & Hscan).
  exists rest. now rewrite Hscan, Hg, Hg'.
Qed.

Lemma match_needs_char c re :
  In (Atom (Chr c) Once) re ->
  forall st r, match_here re st = Some r -> char_free c (m_rest st) = false.
Proof.
  assert (Hsuffix : forall taken s, char_free c s = false ->
                                    char_free c (taken ++ s) = false).
  { intros taken s Hs. unfold char_free in *.
    now rewrite all_chars_append, Hs, andb_false_r. }
  induction re as [|node re IH]; intros Hin st r Hm; [destruct Hin|].
  destruct node as [c' q| | |].
  - destruct q.
    + cbn [match_here] in Hm.
      destruct (m_rest st) as [|a s'] eqn:Es; [discriminate|].
      destruct (mem c' a) eqn:Ea; [|discriminate].
      destruct Hin as [Hhead|Hin].
      * injection Hhead as ->. cbn [mem] in Ea.
        unfold char_free. cbn [all_chars]. now rewrite Ea.
      * apply (Hsuffix (String a "") s').
        apply (IH Hin _ _ Hm).
    + destruct Hin as [Hhead|Hin]; [discriminate|].
      apply maybe_inv in Hm. destruct Hm as [Hm|(a & s' & Es & _ & Hm)].
      * apply (IH Hin _ _ Hm).
      * rewrite Es. apply (Hsuffix (String a "") s').
        apply (IH Hin _ _ Hm).
    + destruct Hin as [Hhead|Hin]; [discriminate|].
      rewrite match_many0 in Hm. apply many_inv in Hm; [|reflexivity].
      destruct Hm as (taken & st' & Hs & _ & _ & _ & Hk).
      rewrite Hs. apply Hsuffix. apply (IH Hin _ _ Hk).
    + destruct Hin as [Hhead|Hin]; [discriminate|].
      apply many1_inv in Hm. destruct Hm as (a & s' & Es & _ & Hm).
      apply many_inv in Hm; [|reflexivity].
      destruct Hm as (taken & st' & Hs & _ & _ & _ & Hk).
      rewrite Es. apply (Hsuffix (String a "") s').
      cbn [step_char m_rest] in Hs. rewrite Hs. apply Hsuffix.
      apply (IH Hin _ _ Hk).
  - destruct Hin as [Hhead|Hin]; [discriminate|].
    rewrite match_open in Hm. apply (IH Hin _ _ Hm).
  - destruct Hin as [Hhead|Hin]; [discriminate|].
    rewrite match_close in Hm. apply (IH Hin _ _ Hm).
  - destruct Hin as [Hhead|Hin]; [discriminate|].
    cbn [match_here] in Hm. destruct (xorb _ _); [|discriminate].
    apply (IH Hin _ _ Hm).
Qed.

Lemma scan_all_chars f re :
  (forall st r, match_here re st = Some r -> all_chars f (m_rest st) = false) ->
  forall s prev skip, all_chars f s = true -> scan re prev s skip = [].
Proof.
  intros Hre s. induction s as [|a s' IH]; intros prev skip Hfree.
  - destruct skip; simpl; [|reflexivity].
    destruct (match_here re _) as [r|] eqn:Em; [|reflexivity].
    apply Hre in Em. simpl in Em. discriminate.
  - assert (Hs' : all_chars f s' = true).
    { cbn [all_chars] in Hfree. apply andb_true_iff in Hfree. apply Hfree. }
    destruct skip; simpl; [|now apply IH].
    destruct (match_here re _) as [r|] eqn:Em; [|now apply IH].
    apply Hre in Em. cbn [m_rest] in Em. congruence.
Qed.

(** X18.  A text that starts with a numeral, then white space (or none),
    then [kg] in any case, yields the numeral's value as written, as
    long as it lies in the range: nothing that follows can change
    it. *)
Theorem X18_kilograms_read_as_written n ws unit tail x :
  numeral n ->
  all_chars is_space ws = true ->
  lower unit = "kg" ->
  float_of_str n = Ok x ->
  in_weight_range x = true ->
  _extract_weight_from_text (n ++ ws ++ unit ++ tail) = Some x.
Proof.
  intros Hn Hws Hunit Hx Hrange.
  unfold _extract_weight_from_text. fold (normalise (n ++ ws ++ unit ++ tail)).
  rewrite (normalise_unit_text n ws unit "kg" tail Hn Hws Hunit eq_refl).
  destruct (unit_pattern_first n ws "kg" (normalise tail) Hn Hws eq_refl)
    as (rest & Hscan); [discriminate|].
  assert (Hfind : re_findall "(\d+\.?\d*)\s*kg"
                    (n ++ ws ++ "kg" ++ normalise tail) = n :: rest)
    by exact Hscan.
  cbn [weight_patterns pattern_loop]. rewrite Hfind, Hx.
  change (converts_grams "(\d+\.?\d*)\s*kg") with false.
  cbv iota. now rewrite Hrange.
Qed.

(** X19.  A text that starts with a numeral, then white space (or none),
    then [g] in any case, and has no [k] further on, yields the
    numeral's value divided by 1000, as long as the quotient lies in the
    range. *)
Theorem X19_grams_divided_by_1000 n ws unit tail x :
  numeral n ->
  all_chars is_space ws = true ->
  lower unit = "g" ->
  char_free "k" (lower tail) = true ->
  float_of_str n = Ok x ->
  in_weight_range (fdiv_pos x 1000) = true ->
  _extract_weight_from_text (n ++ ws ++ unit ++ tail)
  = Some (fdiv_pos x 1000).
Proof.
  intros Hn Hws Hunit Htail Hx Hrange.
  unfold _extract_weight_from_text. fold (normalise (n ++ ws ++ unit ++ tail)).
  rewrite (normalise_unit_text n ws unit "g" tail Hn Hws Hunit eq_refl).
  set (text := n ++ ws ++ "g" ++ normalise tail).
  assert (Hfree : char_free "k" text = true).
  { unfold text, char_free. rewrite !all_chars_append.
    repeat (apply andb_true_iff; split); try reflexivity.
    - apply (all_chars_impl (fun c => is_digit c || Ascii.eqb c "."));
        [|now apply numeral_chars].
      intros c Hc. apply (numeral_char_facts c Hc).
    - apply (all_chars_impl is_space); [|exact Hws].
      intros c Hc. apply (space_char_facts c Hc).
    - unfold normalise, replace_char. rewrite all_chars_map.
      transitivity (char_free "k" (lower tail)); [|exact Htail].
      unfold char_free. apply all_chars_ext. intros c. f_equal. apply (comma_to_point_k c). }
  assert (Hnone : forall re,
             In (Atom (Chr "k") Once) re -> scan re None text 0 = []).
  { intros re Hin. apply (scan_all_chars (fun a => negb (Ascii.eqb a "k")));
      [|exact Hfree].
    intros st r Hm. apply (match_needs_char "k" re Hin st r Hm). }
  assert (Hkg : re_findall "(\d+\.?\d*)\s*kg" text = []).
  { apply Hnone. cbn. tauto. }
  assert (Hk : re_findall "(\d+\.?\d*)\s*k" text = []).
  { apply Hnone. cbn. tauto. }
  destruct (unit_pattern_first n ws "g" (normalise tail) Hn Hws eq_refl)
    as (rest & Hscan); [discriminate|].
  assert (Hg : re_findall "(\d+\.?\d*)\s*g" text = n :: rest)
    by exact Hscan.
  cbn [weight_patterns pattern_loop]. rewrite Hkg, Hk, Hg, Hx.
  change (converts_grams "(\d+\.?\d*)\s*g") with true.
  cbv iota. now rewrite Hrange.
Qed.

End UnitFacts.

Lemma X18_witness :
  _extract_weight_from_text "2.5 KG neto" = Some (Fin (5 # 2)).
Proof.
  apply (X18_kilograms_read_as_written "2.5" " " "KG" " neto").
  - apply (numeral_frac "2" "" "5"); reflexivity.
  - reflexivity.
  - reflexivity.
  - vm_compute. reflexivity.
  - vm_compute. reflexivity.
Defined.

Lemma X19_witness :
  _extract_weight_from_text "2500 g" = Some (Fin (5 # 2)).
Proof.
  apply (X19_grams_divided_by_1000 "2500" " " "g" "" (Fin (inject_Z 2500))).
  - apply (numeral_int "2" "500"); reflexivity.
  - reflexivity.
  - reflexivity.
  - reflexivity.
  - vm_compute. reflexivity.
  - vm_compute. reflexivity.
Defined.

(** ** Numbers announced by a label *)

Section LabelFacts.

Local Open Scope string_scope.

(** A literal part of a pattern consumes its text and nothing else. *)
Lemma literal_then u re tail st :
  m_rest st = u ++ tail ->
  match_here (literal u ++ re)%list st = match_here re (advance u tail st).
Proof.
  revert st. induction u as [|c u IH]; intros st Hrest; [reflexivity|].
  cbn [literal app advance append] in *.
  rewrite (match_once (Chr c) _ c (u ++ tail));
    [|exact Hrest|apply Ascii.eqb_refl].
  now apply IH.
Qed.

Lemma separator_shape sep :
  is_separator sep = true ->
  all_chars is_space sep = true
  \/ exists ws1 ws2,
       sep = ws1 ++ String ":" ws2
       /\ all_chars is_space ws1 = true /\ all_chars is_space ws2 = true.
Proof.
  induction sep as [|c sep IH]; [now left|]. cbn [is_separator].
  destruct (is_space c) eqn:Hc.
  - intros H. destruct (IH H) as [Hs|(ws1 & ws2 & -> & H1 & H2)].
    + left. cbn [all_chars]. now rewrite Hc.
    + right. exists (String c ws1), ws2. cbn [all_chars append].
      now rewrite Hc.
  - intros H. apply andb_true_iff in H. destruct H as [Hcolon Hs].
    apply Ascii.eqb_eq in Hcolon. subst c.
    right. now exists "", sep.
Qed.

Lemma separator_char_facts c :
  is_space c || Ascii.eqb c ":" = true ->
  comma_to_point (lower_char c) = c
  /\ is_digit c = false
  /\ negb (Ascii.eqb c "k") = true
  /\ negb (Ascii.eqb c "g") = true
  /\ negb (Ascii.eqb c "p") = true.
Proof.
  destruct c as [[] [] [] [] [] [] [] []]; intros H; vm_compute in H;
    try discriminate H; now repeat split.
Qed.

Lemma digit_char_facts c :
  is_digit c || Ascii.eqb c "." = true ->
  is_space c = false
  /\ Ascii.eqb c ":" = false
  /\ negb (Ascii.eqb c "g") = true
  /\ negb (Ascii.eqb c "p") = true.
Proof.
  destruct c as [[] [] [] [] [] [] [] []]; intros H; vm_compute in H;
    try discriminate H; now repeat split.
Qed.

Lemma separator_chars sep :
  is_separator sep = true ->
  all_chars (fun c => is_space c || Ascii.eqb c ":") sep = true.
Proof.
  intros H. destruct (separator_shape sep H) as [Hs|(ws1 & ws2 & -> & H1 & H2)].
  - apply (all_chars_impl is_space); [|exact Hs]. now intros c ->.
  - rewrite all_chars_append. cbn [all_chars].
    rewrite (all_chars_impl is_space _ ws1), (all_chars_impl is_space _ ws2);
      try assumption; try (now intros c ->).
    reflexivity.
Qed.

Lemma numeral_starts n tail :
  numeral n ->
  exists d s', n ++ tail = String d s' /\ is_digit d = true.
Proof.
  intros [d ds Hd _ | d ds fs Hd _ _].
  - now exists d, (ds ++ tail).
  - exists d, ((ds ++ String "." fs) ++ tail). now split.
Qed.

(** A label, a separator and a numeral at the start of the text: the
    pattern of that label matches there and captures the numeral. *)
Lemma label_pattern_first label sep n tail :
  is_separator sep = true ->
  numeral n ->
  starts_with (fun c => is_digit c || Ascii.eqb c ".") tail = false ->
  exists rest,
    scan (literal label
          ++ Atom Space Many0 :: Atom (Chr ":") Maybe :: Atom Space Many0
             :: numeral_group)%list
      None (label ++ sep ++ n ++ tail) 0
    = n :: rest.
Proof.
  intros Hsep Hn Htail.
  assert (Hd : starts_with is_digit tail = false
               /\ starts_with (fun c => Ascii.eqb c ".") tail = false).
  { destruct tail as [|c tail']; [now split|]. cbn [starts_with] in *.
    apply orb_false_iff in Htail. exact Htail. }
  destruct Hd as [Hdigit Hpoint].
  destruct (numeral_starts n tail Hn) as (d & s' & Hfirst & Hd).
  destruct (digit_char_facts d) as (Hnospace & Hnocolon & _);
    [now rewrite Hd|].
  assert (Hgroup : forall st,
             m_rest st = n ++ tail ->
             exists r, match_here numeral_group st = Some r
                       /\ m_group r = n).
  { intros st Hrest.
    destruct (numeral_group_matches n tail [] st Hn Hdigit Hpoint Hrest)
      as (st' & _ & Hg & Hm).
    exists st'. split; [|exact Hg].
    rewrite <- (app_nil_r numeral_group). now apply Hm. }
  assert (Hspaces : forall ws st,
             all_chars is_space ws = true ->
             m_rest st = ws ++ n ++ tail ->
             exists r,
               match_here (Atom Space Many0 :: numeral_group) st = Some r
               /\ m_group r = n).
  { intros ws st Hws Hrest.
    destruct (advance_fields ws (n ++ tail) st) as (_ & _ & Hr).
    destruct (Hgroup (advance ws (n ++ tail) st) (Hr Hrest)) as (r & Hm & Hg).
    exists r. split; [|exact Hg].
    rewrite match_many0, Hrest.
    apply many_all; [exact Hws| |exact Hm].
    rewrite Hfirst. exact Hnospace. }
  set (st0 := MState None (label ++ sep ++ n ++ tail) "" "").
  set (st1 := advance label (sep ++ n ++ tail) st0).
  destruct (advance_fields label (sep ++ n ++ tail) st0) as (_ & _ & Hr1).
  specialize (Hr1 eq_refl). fold st1 in Hr1.
  assert (Hmatch : exists r,
             match_here (Atom Space Many0 :: Atom (Chr ":") Maybe
                         :: Atom Space Many0 :: numeral_group) st1 = Some r
             /\ m_group r = n).
  { destruct (separator_shape sep Hsep) as [Hs|(ws1 & ws2 & Esep & H1 & H2)].
    - set (st2 := advance sep (n ++ tail) st1).
      destruct (advance_fields sep (n ++ tail) st1) as (_ & _ & Hr2).
      specialize (Hr2 Hr1). fold st2 in Hr2.
      destruct (Hgroup st2 Hr2) as (r & Hm & Hg).
      exists r. split; [|exact Hg].
      rewrite match_many0, Hr1.
      apply many_all; [exact Hs|now rewrite Hfirst|]. fold st2.
      rewrite match_maybe_skipped
        by (rewrite Hr2, Hfirst; exact Hnocolon).
      rewrite match_many0, Hr2, many_none by now rewrite Hfirst.
      exact Hm.
    - subst sep. rewrite append_assoc in Hr1. cbn [append] in Hr1.
      set (after := String ":" (ws2 ++ n ++ tail)) in *.
      set (st2 := advance ws1 after st1).
      destruct (advance_fields ws1 after st1) as (_ & _ & Hr2).
      specialize (Hr2 Hr1). fold st2 in Hr2.
      destruct (Hspaces ws2 (step_char ":" (ws2 ++ n ++ tail) st2) H2 eq_refl)
        as (r & Hm & Hg).
      exists r. split; [|exact Hg].
      rewrite match_many0, Hr1.
      apply many_all; [exact H1|reflexivity|]. fold st2.
      apply (match_maybe_taken _ _ ":" (ws2 ++ n ++ tail));
        [exact Hr2|reflexivity|exact Hm]. }
  destruct Hmatch as (r & Hm & Hg).
  destruct (scan_here
              (literal label
               ++ Atom Space Many0 :: Atom (Chr ":") Maybe
                  :: Atom Space Many0 :: numeral_group)%list
              None (label ++ sep ++ n ++ tail) r) as (rest & Hscan).
  { fold st0. rewrite (literal_then label _ (sep ++ n ++ tail) st0 eq_refl).
    exact Hm. }
  exists rest. now rewrite Hscan, Hg.
Qed.

(** The text the patterns see when a label comes first, then a
    separator, then a numeral. *)
Lemma normalise_label_text label l sep n tail :
  lower label = l -> replace_char "," "." l = l ->
  is_separator sep = true -> numeral n ->
  normalise (label ++ sep ++ n ++ tail) = l ++ sep ++ n ++ normalise tail.
Proof.
  intros Hlabel Hl Hsep Hn.
  rewrite (normalise_chars (label ++ sep ++ n ++ tail)), !map_chars_append.
  rewrite (map_chars_fixed (fun c => is_space c || Ascii.eqb c ":") _ sep);
    [|intros c Hc; apply (separator_char_facts c Hc)|now apply separator_chars].
  rewrite (map_chars_fixed (fun c => is_digit c || Ascii.eqb c ".") _ n);
    [|intros c Hc; apply (numeral_char_facts c Hc)|now apply numeral_chars].
  rewrite <- !normalise_chars. unfold normalise at 1.
  now rewrite Hlabel, Hl.
Qed.

(** The patterns that start with the number match only at a digit. *)
Lemma number_first_needs_digit post st r :
  match_here (numeral_group ++ post)%list st = Some r ->
  starts_with is_digit (m_rest st) = true.
Proof.
  intros Hm.
  change (match_here
            (Atom Digit Many1 :: Atom (Chr ".") Maybe :: Atom Digit Many0
             :: GClose :: post)
            (MState (m_prev st) (m_rest st) (m_rest st) (m_group st))
          = Some r) in Hm.
  apply many1_inv in Hm. destruct Hm as (d & s' & Es & Ed & _).
  cbn [m_rest] in Es. rewrite Es. exact Ed.
Qed.

(** No match in a text made of a part without digits and a part without
    the character the pattern needs. *)
Lemma scan_split c re before after :
  (forall st r, match_here re st = Some r ->
                starts_with is_digit (m_rest st) = true) ->
  (forall st r, match_here re st = Some r ->
                char_free c (m_rest st) = false) ->
  digit_free before = true ->
  char_free c after = true ->
  forall prev skip, scan re prev (before ++ after) skip = [].
Proof.
  intros Hdigit Hchar Hbefore Hafter.
  induction before as [|a before IH]; intros prev skip.
  - apply (scan_all_chars (fun b => negb (Ascii.eqb b c))); assumption.
  - unfold digit_free in Hbefore. cbn [all_chars] in Hbefore.
    apply andb_true_iff in Hbefore. destruct Hbefore as [Ha Hbefore].
    specialize (IH Hbefore).
    cbn [append]. destruct skip; cbn [scan]; [|apply IH].
    destruct (match_here re _) as [r|] eqn:Em; [|apply IH].
    apply Hdigit in Em. cbn [m_rest starts_with] in Em.
    rewrite Em in Ha. discriminate.
Qed.

Lemma comma_to_point_other c a :
  c <> ","%char -> c <> "."%char ->
  Ascii.eqb (comma_to_point a) c = Ascii.eqb a c.
Proof.
  intros Hcomma Hpoint. unfold comma_to_point.
  destruct (Ascii.eqb a ",") eqn:Ea; [|reflexivity].
  apply Ascii.eqb_eq in Ea. subst a.
  transitivity false; [|symmetry]; apply Ascii.eqb_neq; congruence.
Qed.

Lemma char_free_normalise c tail :
  c <> ","%char -> c <> "."%char ->
  char_free c (normalise tail) = char_free c (lower tail).
Proof.
  intros Hcomma Hpoint. unfold normalise, replace_char, char_free.
  rewrite all_chars_map. apply all_chars_ext. intros a. f_equal.
  apply (comma_to_point_other c a Hcomma Hpoint).
Qed.

(** A letter that occurs neither in the label nor further on does not
    occur in the text. *)
Lemma label_text_free c l sep n tail :
  (forall a, is_space a || Ascii.eqb a ":" = true ->
             negb (Ascii.eqb a c) = true) ->
  (forall a, is_digit a || Ascii.eqb a "." = true ->
             negb (Ascii.eqb a c) = true) ->
  is_separator sep = true -> numeral n ->
  char_free c l = true -> char_free c tail = true ->
  char_free c (l ++ sep ++ n ++ tail) = true.
Proof.
  intros Hsepc Hnum Hsep Hn Hl Htail.
  unfold char_free in *. rewrite !all_chars_append, Hl, Htail.
  rewrite (all_chars_impl (fun a => is_space a || Ascii.eqb a ":") _ sep
             Hsepc (separator_chars sep Hsep)).
  now rewrite (all_chars_impl (fun a => is_digit a || Ascii.eqb a ".") _ n
                 Hnum (numeral_chars n Hn)).
Qed.

Lemma not_k a :
  is_space a || Ascii.eqb a ":" || is_digit a || Ascii.eqb a "." = true ->
  negb (Ascii.eqb a "k") = true.
Proof.
  destruct a as [[] [] [] [] [] [] [] []]; intros H; vm_compute in H;
    try discriminate H; reflexivity.
Qed.

Lemma not_g a :
  is_space a || Ascii.eqb a ":" || is_digit a || Ascii.eqb a "." = true ->
  negb (Ascii.eqb a "g") = true.
Proof.
  destruct a as [[] [] [] [] [] [] [] []]; intros H; vm_compute in H;
    try discriminate H; reflexivity.
Qed.

Lemma not_p a :
  is_space a || Ascii.eqb a ":" || is_digit a || Ascii.eqb a "." = true ->
  negb (Ascii.eqb a "p") = true.
Proof.
  destruct a as [[] [] [] [] [] [] [] []]; intros H; vm_compute in H;
    try discriminate H; reflexivity.
Qed.

Lemma label_text_free_of c l sep n tail :
  (forall a, is_space a || Ascii.eqb a ":" || is_digit a || Ascii.eqb a "."
             = true -> negb (Ascii.eqb a c) = true) ->
  c <> ","%char -> c <> "."%char ->
  is_separator sep = true -> numeral n ->
  char_free c l = true -> char_free c (lower tail) = true ->
  char_free c (l ++ sep ++ n ++ normalise tail) = true.
Proof.
  intros Hc Hcomma Hpoint Hsep Hn Hl Htail.
  apply label_text_free; try assumption.
  - intros a Ha. apply Hc. apply orb_true_iff in Ha.
    destruct Ha as [-> | ->]; [reflexivity|].
    now rewrite !orb_true_r.
  - intros a Ha. apply Hc. apply orb_true_iff in Ha.
    destruct Ha as [-> | ->]; now rewrite !orb_true_r.
  - now rewrite char_free_normalise.
Qed.

(** X20.  A text that starts with [peso] in any case, then white space
    and possibly a colon, then a numeral that ends there (no digit,
    point or comma follows), and has no [k] and no [g] further on,
    yields the numeral's value as written, as long as it lies in the
    range. *)
Theorem X20_peso_label_read_as_written label sep n tail x :
  lower label = "peso" ->
  is_separator sep = true ->
  numeral n ->
  starts_with (fun c => is_digit c || Ascii.eqb c "." || Ascii.eqb c ",")
    tail = false ->
  char_free "k" (lower tail) = true ->
  char_free "g" (lower tail) = true ->
  float_of_str n = Ok x ->
  in_weight_range x = true ->
  _extract_weight_from_text (label ++ sep ++ n ++ tail) = Some x.
Proof.
  intros Hlabel Hsep Hn Hstart Hk Hg Hx Hrange.
  unfold _extract_weight_from_text.
  fold (normalise (label ++ sep ++ n ++ tail)).
  rewrite (normalise_label_text label "peso" sep n tail Hlabel eq_refl Hsep Hn).
  set (text := "peso" ++ sep ++ n ++ normalise tail).
  assert (Hfk : char_free "k" text = true)
    by (apply label_text_free_of; try assumption;
        [apply not_k|discriminate|discriminate|reflexivity]).
  assert (Hfg : char_free "g" text = true)
    by (apply label_text_free_of; try assumption;
        [apply not_g|discriminate|discriminate|reflexivity]).
  assert (Hnone : forall c re,
             char_free c text = true ->
             In (Atom (Chr c) Once) re -> scan re None text 0 = []).
  { intros c re Hfree Hin.
    apply (scan_all_chars (fun a => negb (Ascii.eqb a c))); [|exact Hfree].
    intros st r Hm. apply (match_needs_char c re Hin st r Hm). }
  assert (H1 : re_findall "(\d+\.?\d*)\s*kg" text = [])
    by (apply (Hnone "k"%char); [exact Hfk|cbn; tauto]).
  assert (H2 : re_findall "(\d+\.?\d*)\s*k" text = [])
    by (apply (Hnone "k"%char); [exact Hfk|cbn; tauto]).
  assert (H3 : re_findall "(\d+\.?\d*)\s*g" text = [])
    by (apply (Hnone "g"%char); [exact Hfg|cbn; tauto]).
  destruct (label_pattern_first "peso" sep n (normalise tail) Hsep Hn)
    as (rest & Hscan).
  { destruct tail as [|c tail']; [reflexivity|].
    cbn [starts_with] in Hstart.
    rewrite normalise_chars. cbn [map_chars starts_with].
    revert Hstart. clear.
    destruct c as [[] [] [] [] [] [] [] []]; intros H; vm_compute in H;
      try discriminate H; reflexivity. }
  assert (H4 : re_findall "peso\s*:?\s*(\d+\.?\d*)" text = n :: rest)
    by exact Hscan.
  cbn [weight_patterns pattern_loop]. rewrite H1, H2, H3, H4, Hx.
  change (converts_grams "peso\s*:?\s*(\d+\.?\d*)") with false.
  cbv iota. now rewrite Hrange.
Qed.

(** X21.  A text that starts with [weight] in any case, then white
    space and possibly a colon, then a numeral that ends there, and has
    no [k], [g] or [p] further on, yields the numeral's value divided by
    1000 when the quotient lies in the range: the [g] of the label makes
    the pattern count as one in grams. *)
Theorem X21_weight_label_divided_by_1000 label sep n tail x :
  lower label = "weight" ->
  is_separator sep = true ->
  numeral n ->
  starts_with (fun c => is_digit c || Ascii.eqb c "." || Ascii.eqb c ",")
    tail = false ->
  char_free "k" (lower tail) = true ->
  char_free "g" (lower tail) = true ->
  char_free "p" (lower tail) = true ->
  float_of_str n = Ok x ->
  in_weight_range (fdiv_pos x 1000) = true ->
  _extract_weight_from_text (label ++ sep ++ n ++ tail)
  = Some (fdiv_pos x 1000).
Proof.
  intros Hlabel Hsep Hn Hstart Hk Hg Hp Hx Hrange.
  unfold _extract_weight_from_text.
  fold (normalise (label ++ sep ++ n ++ tail)).
  rewrite (normalise_label_text label "weight" sep n tail Hlabel eq_refl
             Hsep Hn).
  set (text := "weight" ++ sep ++ n ++ normalise tail).
  assert (Hfk : char_free "k" text = true)
    by (apply label_text_free_of; try assumption;
        [apply not_k|discriminate|discriminate|reflexivity]).
  assert (Hfp : char_free "p" text = true)
    by (apply label_text_free_of; try assumption;
        [apply not_p|discriminate|discriminate|reflexivity]).
  assert (Hnone : forall c re,
             char_free c text = true ->
             In (Atom (Chr c) Once) re -> scan re None text 0 = []).
  { intros c re Hfree Hin.
    apply (scan_all_chars (fun a => negb (Ascii.eqb a c))); [|exact Hfree].
    intros st r Hm. apply (match_needs_char c re Hin st r Hm). }
  assert (H1 : re_findall "(\d+\.?\d*)\s*kg" text = [])
    by (apply (Hnone "k"%char); [exact Hfk|cbn; tauto]).
  assert (H2 : re_findall "(\d+\.?\d*)\s*k" text = [])
    by (apply (Hnone "k"%char); [exact Hfk|cbn; tauto]).
  assert (H3 : re_findall "(\d+\.?\d*)\s*g" text = []).
  { change (scan (numeral_group
                  ++ [Atom Space Many0; Atom (Chr "g") Once])%list
              None text 0 = []).
    unfold text. rewrite <- append_assoc.
    apply (scan_split "g").
    - intros st r Hm. apply (number_first_needs_digit _ st r Hm).
    - intros st r Hm.
      assert (Hin : In (Atom (Chr "g") Once)
                      (numeral_group
                       ++ [Atom Space Many0; Atom (Chr "g") Once])%list)
        by (cbn; tauto).
      exact (match_needs_char "g" _ Hin st r Hm).
    - unfold digit_free. rewrite all_chars_append.
      apply andb_true_iff. split; [reflexivity|].
      apply (all_chars_impl (fun a => is_space a || Ascii.eqb a ":"));
        [|now apply separator_chars].
      intros a Ha. now rewrite (proj1 (proj2 (separator_char_facts a Ha))).
    - unfold char_free. rewrite all_chars_append.
      apply andb_true_iff. split.
      + apply (all_chars_impl (fun a => is_digit a || Ascii.eqb a "."));
          [|now apply numeral_chars].
        intros a Ha. apply not_g. now rewrite <- orb_assoc, Ha, !orb_true_r.
      + fold (char_free "g" (normalise tail)).
        rewrite char_free_normalise by discriminate. exact Hg. }
  assert (H4 : re_findall "peso\s*:?\s*(\d+\.?\d*)" text = [])
    by (apply (Hnone "p"%char); [exact Hfp|cbn; tauto]).
  destruct (label_pattern_first "weight" sep n (normalise tail) Hsep Hn)
    as (rest & Hscan).
  { destruct tail as [|c tail']; [reflexivity|].
    cbn [starts_with] in Hstart.
    rewrite normalise_chars. cbn [map_chars starts_with].
    revert Hstart. clear.
    destruct c as [[] [] [] [] [] [] [] []]; intros H; vm_compute in H;
      try discriminate H; reflexivity. }
  assert (H5 : re_findall "weight\s*:?\s*(\d+\.?\d*)" text = n :: rest)
    by exact Hscan.
  cbn [weight_patterns pattern_loop]. rewrite H1, H2, H3, H4, H5, Hx.
  change (converts_grams "weight\s*:?\s*(\d+\.?\d*)") with true.
  cbv iota. now rewrite Hrange.
Qed.

End LabelFacts.

Lemma X20_witness :
  _extract_weight_from_text "PESO : 3.2 neto" = Some (lit 32 10).
Proof.
  apply (X20_peso_label_read_as_written "PESO" " : " "3.2" " neto").
  - reflexivity.
  - reflexivity.
  - apply (numeral_frac "3" "" "2"); reflexivity.
  - reflexivity.
  - reflexivity.
  - reflexivity.
  - vm_compute. reflexivity.
  - vm_compute. reflexivity.
Defined.

Lemma X21_witness :
  _extract_weight_from_text "Weight: 2500" = Some (Fin (5 # 2)).
Proof.
  apply (X21_weight_label_divided_by_1000 "Weight" ": " "2500" ""
           (Fin (inject_Z 2500))).
  - reflexivity.
  - reflexivity.
  - apply (numeral_int "2" "500"); reflexivity.
  - reflexivity.
  - reflexivity.
  - reflexivity.
  - reflexivity.
  - vm_compute. reflexivity.
  - vm_compute. reflexivity.
Defined.
